(** * Streamable HTTP transport (MCP): server and client transports, SSE codec

    A shallow embedding of
      - [dist/esm/server/streamableHttp.js], class
        [StreamableHTTPServerTransport]: [start], [handleRequest],
        [handleUnsupportedRequest], [handlePostRequest], [handleDeleteRequest],
        [validateSession], [close], [send];
      - the client transport, class [StreamableHTTPClientTransport]:
        [_commonHeaders], [send] and [_handleSseStream] with its SSE codec,
        [_startOrAuth], [_authThenStart], [start], [finishAuth], [close];
      - of the class [Client] of client/index.js, the checks
        [assertCapabilityForMethod], [assertNotificationCapability],
        [assertRequestHandlerCapability];
    together with the properties the specification states about them and
    properties the code shows beyond these.

    Conventions of the embedding.
      - A JavaScript string is the list of its UTF-16 code units.
      - A [Map] is an association list in insertion order, as [Map] iterates.
      - An HTTP response object ([res]) is known by its identity only.  What a
        transport does to it is recorded in a trace of effects, in program
        order, next to the calls of the callback slots ([onmessage],
        [onerror], [onclose]) and the updates of the routing table.  A
        callback is the protocol layer's: the trace records that it is called
        and with what, not what it does in turn.
      - What the platform or a module outside the sources provides
        ([JSON.parse], [JSON.stringify], [JSONRPCMessageSchema.parse], the
        byte handler of [TextDecoder]) is a field of the class [Platform];
        what the network and the auth provider answer to a client is a
        [World].
      - A request handler runs from its first access to the transport's state
        to its end without another handler in between.
      - [fetch] given the signal of a controller that was aborted rejects
        and makes no request. *)

From Stdlib Require Import String Ascii List NArith ZArith Bool Lia.
From Stdlib Require DecimalString.
Import ListNotations.
Open Scope string_scope.
Open Scope list_scope.

Set Implicit Arguments.

(* ================================================================== *)
(** ** JavaScript strings *)

Definition code_unit := N.
Definition jsstring := list code_unit.

(** A literal: the code units of an ASCII string. *)
Definition js (s : string) : jsstring :=
  List.map N_of_ascii (list_ascii_of_string s).

Definition LF : code_unit := 10%N.

Module JsString.

Fixpoint eqb (a b : jsstring) : bool :=
  match a, b with
  | [], [] => true
  | x :: a', y :: b' => N.eqb x y && eqb a' b'
  | _, _ => false
  end.

(** [s.startsWith(p)] *)
Fixpoint startsWith (s p : jsstring) {struct p} : bool :=
  match p with
  | [] => true
  | c :: p' =>
      match s with
      | [] => false
      | d :: s' => N.eqb d c && startsWith s' p'
      end
  end.

(** [s.includes(p)] *)
Fixpoint includes (s p : jsstring) : bool :=
  startsWith s p ||
  match s with
  | [] => false
  | _ :: s' => includes s' p
  end.

(** [s.slice(n)] for [0 <= n] *)
Definition slice (n : nat) (s : jsstring) : jsstring := skipn n s.

(** WhiteSpace and LineTerminator of ECMAScript, what [trim] strips. *)
Definition isWhiteSpace (c : code_unit) : bool :=
  (  N.eqb c 0x0009 || N.eqb c 0x000A || N.eqb c 0x000B || N.eqb c 0x000C
  || N.eqb c 0x000D || N.eqb c 0x0020 || N.eqb c 0x00A0 || N.eqb c 0x1680
  || (N.leb 0x2000 c && N.leb c 0x200A)
  || N.eqb c 0x2028 || N.eqb c 0x2029 || N.eqb c 0x202F || N.eqb c 0x205F
  || N.eqb c 0x3000 || N.eqb c 0xFEFF)%N.

Fixpoint trimStart (s : jsstring) : jsstring :=
  match s with
  | [] => []
  | c :: s' => if isWhiteSpace c then trimStart s' else s
  end.

Definition trimEnd (s : jsstring) : jsstring := rev (trimStart (rev s)).

(** [s.trim()] *)
Definition trim (s : jsstring) : jsstring := trimEnd (trimStart s).

(** Truthiness of a string: the empty string is falsy. *)
Definition truthy (s : jsstring) : bool :=
  match s with [] => false | _ :: _ => true end.

Definition cons_head (c : code_unit) (l : list jsstring) : list jsstring :=
  match l with
  | [] => [[c]]
  | x :: xs => (c :: x) :: xs
  end.

(** [s.split(sep)] for a non-empty separator: the occurrences of [sep] are
    found from the left and do not overlap.  [skip] counts the code units of
    a found separator that are still to be passed over. *)
Fixpoint split_from (sep : jsstring) (skip : nat) (s : jsstring)
  : list jsstring :=
  match s with
  | [] => [[]]
  | c :: rest =>
      match skip with
      | S k => split_from sep k rest
      | O =>
          if startsWith s sep
          then [] :: split_from sep (length sep - 1) rest
          else cons_head c (split_from sep 0 rest)
      end
  end.

Definition split (sep s : jsstring) : list jsstring := split_from sep 0 s.

End JsString.

(** Truthiness of an optional string ([undefined] and [''] are falsy). *)
Definition truthy_opt (o : option jsstring) : bool :=
  match o with
  | None => false
  | Some s => JsString.truthy s
  end.

(* ================================================================== *)
(** ** [Map]: association list in insertion order *)

Module JsMap.
Section WithKey.
  Variables K V : Type.
  Variable keqb : K -> K -> bool.

Definition t := list (K * V).

Definition empty : t := [].

Fixpoint get (m : t) (k : K) : option V :=
  match m with
  | [] => None
  | (k', v) :: m' => if keqb k' k then Some v else get m' k
  end.

(** [m.set(k, v)]: an existing key keeps its place, a new one goes last. *)
Fixpoint set (m : t) (k : K) (v : V) : t :=
  match m with
  | [] => [(k, v)]
  | (k', v') :: m' =>
      if keqb k' k then (k', v) :: m' else (k', v') :: set m' k v
  end.

(** [m.delete(k)] *)
Definition delete (m : t) (k : K) : t :=
  filter (fun e => negb (keqb (fst e) k)) m.

Definition entries (m : t) : list (K * V) := m.
Definition values (m : t) : list V := List.map snd m.
Definition keys (m : t) : list K := List.map fst m.
Definition size (m : t) : nat := length m.

End WithKey.
End JsMap.

(* ================================================================== *)
(** ** JSON values and JSON-RPC messages *)

(** A parsed JSON value ([JSON.parse]'s result); numbers are integers here. *)
#[warnings="-register-all"] Inductive Json : Type :=
  | JNull
  | JBool (b : bool)
  | JNumber (z : Z)
  | JString (s : jsstring)
  | JArray (items : list Json)
  | JObject (members : list (jsstring * Json)).

(** [RequestId]: a string or an integer. *)
Inductive RequestId : Type :=
  | IdNumber (n : Z)
  | IdString (s : jsstring).

Definition RequestId_eqb (a b : RequestId) : bool :=
  match a, b with
  | IdNumber x, IdNumber y => Z.eqb x y
  | IdString x, IdString y => JsString.eqb x y
  | _, _ => false
  end.

(** Modelled from the spec: the union [JSONRPCMessage] of [types.js], which is
    not among the sources (spec, sections 3 and Glossary: a request has
    [method] and [id], a notification has [method] and no [id], a response
    has [id] and [result] or [error]).  A value of this type is a message
    that passed [JSONRPCMessageSchema.parse]. *)
Inductive JSONRPCMessage : Type :=
  | Request (id : RequestId) (method : jsstring) (params : option Json)
  | Notification (method : jsstring) (params : option Json)
  | Response (id : RequestId) (result : Json)
  | ErrorResponse (id : RequestId) (error : Json).

(** ['method' in msg], ['id' in msg], ['result' in msg], ['error' in msg] *)
Definition has_method (msg : JSONRPCMessage) : bool :=
  match msg with Request _ _ _ | Notification _ _ => true | _ => false end.
Definition has_id (msg : JSONRPCMessage) : bool :=
  match msg with Notification _ _ => false | _ => true end.
Definition has_result (msg : JSONRPCMessage) : bool :=
  match msg with Response _ _ => true | _ => false end.
Definition has_error (msg : JSONRPCMessage) : bool :=
  match msg with ErrorResponse _ _ => true | _ => false end.

(** [msg.method] and [msg.id] ([None] is [undefined]). *)
Definition msg_method (msg : JSONRPCMessage) : option jsstring :=
  match msg with
  | Request _ m _ | Notification m _ => Some m
  | _ => None
  end.
Definition msg_id (msg : JSONRPCMessage) : option RequestId :=
  match msg with
  | Request i _ _ | Response i _ | ErrorResponse i _ => Some i
  | Notification _ _ => None
  end.

(** [msg.method === name] *)
Definition method_is (msg : JSONRPCMessage) (name : jsstring) : bool :=
  match msg_method msg with
  | Some m => JsString.eqb m name
  | None => false
  end.

(** What [send] is given: one message or an array of messages. *)
Inductive Outgoing : Type :=
  | Single (m : JSONRPCMessage)
  | Batch (ms : list JSONRPCMessage).

(** Values thrown. *)
Inductive JsError : Type :=
  | BodyReadError                        (* contentType.parse or getRawBody *)
  | JsonSyntaxError (text : jsstring)    (* JSON.parse *)
  | SchemaError (value : Json)           (* JSONRPCMessageSchema.parse *)
  | NoRequestIdError
  | NoSseConnectionError (id : RequestId)
  | AlreadyStartedError
  | UnauthorizedError
  | PostFailedError (status : nat) (text : option jsstring)
  | JsonBodyError
  | NetworkError.

(** The platform and the modules the transports import. *)
Class Platform : Type := {
    (** [JSON.parse(text)]; [None] when it throws *)
    JSON_parse : jsstring -> option Json;
    (** [JSON.stringify(message)] *)
    JSON_stringify : Outgoing -> jsstring;
    (** [JSONRPCMessageSchema.parse(value)]; [None] when it throws *)
    JSONRPCMessageSchema_parse : Json -> option JSONRPCMessage;
    (** [TextDecoder]: its state between two calls of
        [decode(value, {stream: true})], and what one byte makes of it *)
    decoder_state : Type;
    decoder_new : decoder_state;
    decoder_byte : decoder_state -> N -> decoder_state * jsstring
}.

(** The outcome of a step that may throw. *)
Inductive result (A : Type) : Type :=
  | Ok (a : A)
  | Throw (e : JsError).
  Arguments Ok {A} a.
  Arguments Throw {A} e.

(** ** Schema validation of a parsed body, shared by both transports *)

Section Validation.
  Context {P : Platform}.

(** [values.map(msg => JSONRPCMessageSchema.parse(msg))] *)
Fixpoint parse_each (values : list Json) : result (list JSONRPCMessage) :=
  match values with
  | [] => Ok []
  | v :: rest =>
      match JSONRPCMessageSchema_parse v with
      | None => Throw (SchemaError v)
      | Some msg =>
          match parse_each rest with
          | Ok msgs => Ok (msg :: msgs)
          | Throw e => Throw e
          end
      end
  end.

(** [Array.isArray(raw) ? raw.map(parse) : [parse(raw)]] *)
Definition parse_messages (raw : Json) : result (list JSONRPCMessage) :=
  match raw with
  | JArray items => parse_each items
  | _ => parse_each [raw]
  end.

End Validation.

(** ['method' in msg && 'id' in msg] *)
Definition isRequest (msg : JSONRPCMessage) : bool :=
  has_method msg && has_id msg.

(** [messages.filter(msg => 'method' in msg && 'id' in msg).map(msg => msg.id)
    .filter(id => id !== undefined)] *)
Fixpoint requestIds_of (messages : list JSONRPCMessage) : list RequestId :=
  match messages with
  | [] => []
  | msg :: rest =>
      match (if isRequest msg then msg_id msg else None) with
      | Some i => i :: requestIds_of rest
      | None => requestIds_of rest
      end
  end.

(* ================================================================== *)
(** ** HTTP requests and responses, as the server sees them *)

(** A header of [req.headers]: absent, one value, or an array of values. *)
Inductive HeaderValue : Type :=
  | HeaderAbsent
  | HeaderSingle (v : jsstring)
  | HeaderMulti (vs : list jsstring).

(** An HTTP request: [HttpRequest] for the server, what [fetch] is given
    for the client; the headers are those the transports read or set.
    [req_body] is the text of the body; on the server it is what
    [contentType.parse(ct)], [getRawBody(req, {limit: "4mb", encoding})] and
    [body.toString()] give together, [None] when one of them throws. *)
Record HttpRequest : Type := {
  req_method : jsstring;
  req_accept : option jsstring;
  req_content_type : option jsstring;
  req_mcp_session_id : HeaderValue;
  req_authorization : option jsstring;
  req_last_event_id : option jsstring;
  req_body : option jsstring
}.

(** [ServerResponse]: the identity of the object. *)
Definition Res := nat.

(** The body of an error answer:
    [JSON.stringify({jsonrpc: "2.0", error: {code, message, data}, id: null})]. *)
Record ErrorBody : Type := {
  code : Z;
  message : jsstring;
  data : option JsError
}.

Definition Headers := list (jsstring * jsstring).

(** What a transport does to the world around it. *)
Inductive Effect : Type :=
  | ResWriteHead (res : Res) (status : nat) (headers : Headers)
  | ResWrite (res : Res) (chunk : jsstring)
  | ResEnd (res : Res) (body : option ErrorBody)
  | ResOnClose (res : Res)               (* res.on("close", listener) *)
  | MappingSet (id : RequestId) (res : Res)
  | MappingDelete (id : RequestId)
  | MappingClear
  | OnMessage (m : JSONRPCMessage)       (* this.onmessage?.(m) *)
  | OnError (e : JsError)                (* this.onerror?.(e) *)
  | OnClose                              (* this.onclose?.() *)
  | Fetch (req : HttpRequest)            (* fetch(this._url, init) *)
  | AuthFlow.                            (* auth(this._authProvider, ...) *)

Definition Trace := list Effect.

(** [`event: message\ndata: ${JSON.stringify(message)}\n\n`] *)
Definition sse_frame {P : Platform} (message : JSONRPCMessage) : jsstring :=
  js "event: message" ++ [LF] ++ js "data: "
  ++ JSON_stringify (Single message) ++ [LF; LF].

(* ================================================================== *)
(** ** The server transport: [StreamableHTTPServerTransport] *)

Module Server.

Record Transport : Type := {
  _started : bool;
  _sseResponseMapping : JsMap.t RequestId Res;
  _initialized : bool;
  sessionId : option jsstring;
  sessionIdGenerator : unit -> option jsstring
}.

(** [constructor(options)] *)
Definition new (generator : unit -> option jsstring) : Transport :=
  {| _started := false;
     _sseResponseMapping := JsMap.empty RequestId Res;
     _initialized := false;
     sessionId := None;
     sessionIdGenerator := generator |}.

Definition with_mapping (t : Transport) (m : JsMap.t RequestId Res)
  : Transport :=
  {| _started := _started t;
     _sseResponseMapping := m;
     _initialized := _initialized t;
     sessionId := sessionId t;
     sessionIdGenerator := sessionIdGenerator t |}.

(** [start()] *)
Definition start (t : Transport) : Transport * result unit :=
  if _started t then (t, Throw AlreadyStartedError)
  else ({| _started := true;
           _sseResponseMapping := _sseResponseMapping t;
           _initialized := _initialized t;
           sessionId := sessionId t;
           sessionIdGenerator := sessionIdGenerator t |}, Ok tt).

(** [res.writeHead(status, headers).end(JSON.stringify({jsonrpc: "2.0",
    error: {code, message, data}, id: null}))] *)
Definition answer_error (res : Res) (status : nat) (headers : Headers)
    (c : Z) (m : string) (d : option JsError) : Trace :=
  [ ResWriteHead res status headers;
    ResEnd res (Some {| code := c; message := js m; data := d |}) ].

(** [handleUnsupportedRequest(res)] *)
Definition handleUnsupportedRequest (res : Res) : Trace :=
  answer_error res 405 [(js "Allow", js "POST, DELETE")]
    (-32000) "Method not allowed." None.

(** [validateSession(req, res)]: the boolean it returns and what it wrote. *)
Definition validateSession (t : Transport) (req : HttpRequest) (res : Res)
  : bool * Trace :=
  if negb (_initialized t) then
    (false, answer_error res 400 [] (-32000)
              "Bad Request: Server not initialized" None)
  else
    match sessionId t with
    | None => (true, [])
    | Some this_sessionId =>
        match req_mcp_session_id req with
        | HeaderAbsent =>
            (false, answer_error res 400 [] (-32000)
                      "Bad Request: Mcp-Session-Id header is required" None)
        | HeaderSingle [] =>
            (false, answer_error res 400 [] (-32000)
                      "Bad Request: Mcp-Session-Id header is required" None)
        | HeaderMulti _ =>
            (false, answer_error res 400 [] (-32000)
                      "Bad Request: Mcp-Session-Id header must be a single value"
                      None)
        | HeaderSingle sessionId =>
            if negb (JsString.eqb sessionId this_sessionId) then
              (false, answer_error res 404 [] (-32001) "Session not found" None)
            else (true, [])
        end
    end.

(** [close()] *)
Definition close (t : Transport) : Transport * Trace :=
  ( with_mapping t (JsMap.empty RequestId Res),
    List.map (fun response => ResEnd response None)
      (JsMap.values (_sseResponseMapping t))
    ++ [MappingClear; OnClose] ).

(** [handleDeleteRequest(req, res)] *)
Definition handleDeleteRequest (t : Transport) (req : HttpRequest)
    (res : Res) : Transport * Trace :=
  let (valid, written) := validateSession t req res in
  if negb valid then (t, written)
  else
    let (t', closed) := close t in
    (t', written ++ closed ++ [ResWriteHead res 200 []; ResEnd res None]).

(** The listener of [res.on("close", ...)]: every entry that refers to
    [res] is deleted. *)
Definition res_close_listener (t : Transport) (res : Res)
  : Transport * Trace :=
  ( with_mapping t
      (filter (fun e => negb (Nat.eqb (snd e) res)) (_sseResponseMapping t)),
    List.map (fun e => MappingDelete (fst e))
      (filter (fun e => Nat.eqb (snd e) res)
         (JsMap.entries (_sseResponseMapping t))) ).

(** [acceptHeader?.includes(what)] *)
Definition accepts (req : HttpRequest) (what : string) : bool :=
  match req_accept req with
  | None => false
  | Some acceptHeader => JsString.includes acceptHeader (js what)
  end.

(** [ct && ct.includes("application/json")] *)
Definition is_json_content (req : HttpRequest) : bool :=
  match req_content_type req with
  | None => false
  | Some ct => JsString.truthy ct && JsString.includes ct (js "application/json")
  end.

(** The request passes the checks of [Accept] and [Content-Type]. *)
Definition acceptable (req : HttpRequest) : bool :=
  accepts req "application/json" && accepts req "text/event-stream"
  && is_json_content req.

(** The routing id is falsy: [undefined], [0] or ['']. *)
Definition falsy_id (requestId : option RequestId) : bool :=
  match requestId with
  | None => true
  | Some (IdNumber n) => Z.eqb n 0
  | Some (IdString s) => negb (JsString.truthy s)
  end.

Section WithPlatform.
  Context {P : Platform}.

(** [send(message, options)], [relatedRequestId] being
    [options?.relatedRequestId]. *)
Definition send (t : Transport) (message : JSONRPCMessage)
    (relatedRequestId : option RequestId)
  : Transport * Trace * result unit :=
  let is_response := has_result message || has_error message in
  let requestId := if is_response then msg_id message else relatedRequestId in
  let shouldCloseConnection := is_response in
  if falsy_id requestId then (t, [], Throw NoRequestIdError)
  else
    match requestId with
    | None => (t, [], Throw NoRequestIdError)
    | Some requestId =>
        match JsMap.get RequestId_eqb (_sseResponseMapping t) requestId with
        | None => (t, [], Throw (NoSseConnectionError requestId))
        | Some sseResponse =>
            let written := ResWrite sseResponse (sse_frame message) in
            if shouldCloseConnection then
              let mapping :=
                JsMap.delete RequestId_eqb (_sseResponseMapping t) requestId in
              let canCloseConnection :=
                negb (existsb
                        (fun e => Nat.eqb (snd e) sseResponse
                                  && negb (RequestId_eqb (fst e) requestId))
                        (JsMap.entries mapping)) in
              ( with_mapping t mapping,
                [written; MappingDelete requestId]
                ++ (if canCloseConnection then [ResEnd sseResponse None]
                    else []),
                Ok tt )
            else (t, [written], Ok tt)
        end
    end.

(** [rawMessage]: the body given by the framework, or the one read. *)
Definition rawMessage (req : HttpRequest) (parsedBody : option Json)
  : result Json :=
  match parsedBody with
  | Some v => Ok v
  | None =>
      match req_body req with
      | None => Throw BodyReadError
      | Some text =>
          match JSON_parse text with
          | Some v => Ok v
          | None => Throw (JsonSyntaxError text)
          end
      end
  end.

Definition isInitialize (msg : JSONRPCMessage) : bool :=
  has_method msg && method_is msg (js "initialize").
Definition isNotificationOrResponse (msg : JSONRPCMessage) : bool :=
  (has_method msg && negb (has_id msg)) || (has_result msg || has_error msg).

(** [for (const message of messages) if ('method' in message && 'id' in
    message) this._sseResponseMapping.set(message.id, res)] *)
Fixpoint store_requests (m : JsMap.t RequestId Res) (res : Res)
    (messages : list JSONRPCMessage) : JsMap.t RequestId Res * Trace :=
  match messages with
  | [] => (m, [])
  | message :: rest =>
      match (if isRequest message then msg_id message else None) with
      | Some i =>
          let (m', tr) :=
            store_requests (JsMap.set RequestId_eqb m i res) res rest in
          (m', MappingSet i res :: tr)
      | None => store_requests m res rest
      end
  end.

Definition sse_headers (t : Transport) : Headers :=
  [ (js "Content-Type", js "text/event-stream");
    (js "Cache-Control", js "no-cache");
    (js "Connection", js "keep-alive") ]
  ++ match sessionId t with
     | Some sid => [(js "mcp-session-id", sid)]
     | None => []
     end.

(** The [catch] of [handlePostRequest]. *)
Definition parse_error (res : Res) (error : JsError) : Trace :=
  answer_error res 400 [] (-32700) "Parse error" (Some error)
  ++ [OnError error].

(** [handlePostRequest(req, res, parsedBody)] *)
Definition handlePostRequest (t : Transport) (req : HttpRequest)
    (res : Res) (parsedBody : option Json) : Transport * Trace :=
  if negb (accepts req "application/json")
     || negb (accepts req "text/event-stream")
  then
    (t, answer_error res 406 [] (-32000)
          "Not Acceptable: Client must accept both application/json and text/event-stream"
          None)
  else if negb (is_json_content req)
  then
    (t, answer_error res 415 [] (-32000)
          "Unsupported Media Type: Content-Type must be application/json"
          None)
  else
    match rawMessage req parsedBody with
    | Throw error => (t, parse_error res error)
    | Ok raw =>
    match parse_messages raw with
    | Throw error => (t, parse_error res error)
    | Ok messages =>
        let isInitializationRequest := existsb isInitialize messages in
        if isInitializationRequest then
          if _initialized t then
            (t, answer_error res 400 [] (-32600)
                  "Invalid Request: Server already initialized" None)
          else if Nat.ltb 1 (length messages) then
            (t, answer_error res 400 [] (-32600)
                  "Invalid Request: Only one initialization request is allowed"
                  None)
          else
            let sid := sessionIdGenerator t tt in
            let t' := {| _started := _started t;
                         _sseResponseMapping := _sseResponseMapping t;
                         _initialized := true;
                         sessionId := sid;
                         sessionIdGenerator := sessionIdGenerator t |} in
            let headers := match sid with
                           | Some s => [(js "mcp-session-id", s)]
                           | None => []
                           end in
            (t', List.map OnMessage messages
                 ++ [ResWriteHead res 200 headers; ResEnd res None])
        else
          let (valid, written) := validateSession t req res in
          if negb valid then (t, written)
          else
            let hasRequests := existsb isRequest messages in
            let hasOnlyNotificationsOrResponses :=
              forallb isNotificationOrResponse messages in
            if hasOnlyNotificationsOrResponses then
              (t, written
                  ++ [ResWriteHead res 202 []; ResEnd res None]
                  ++ List.map OnMessage messages)
            else if hasRequests then
              let (mapping, stored) :=
                store_requests (_sseResponseMapping t) res messages in
              (with_mapping t mapping,
               written
               ++ [ResWriteHead res 200 (sse_headers t)]
               ++ stored
               ++ [ResOnClose res]
               ++ List.map OnMessage messages)
            else (t, written)
    end
    end.

(** [handleRequest(req, res, parsedBody)] *)
Definition handleRequest (t : Transport) (req : HttpRequest)
    (res : Res) (parsedBody : option Json) : Transport * Trace :=
  if JsString.eqb (req_method req) (js "POST")
  then handlePostRequest t req res parsedBody
  else if JsString.eqb (req_method req) (js "DELETE")
  then handleDeleteRequest t req res
  else (t, handleUnsupportedRequest res).

End WithPlatform.
End Server.

(* ================================================================== *)
(** ** The client transport: [StreamableHTTPClientTransport] *)

(** The body of a [fetch] response, as a stream: the chunks [reader.read()]
    yields, after which the stream is done or, when [broken], [read] rejects. *)
Record BodyStream : Type := {
  chunks : list (list N);
  broken : bool
}.

(** A [fetch] response, as far as the client reads it.  [resp_text] is what
    [response.text()] resolves to and [resp_json] what [response.json()]
    does; [None] when the promise rejects. *)
Record HttpResponse : Type := {
  status : nat;
  resp_mcp_session_id : option jsstring;
  resp_content_type : option jsstring;
  resp_body : option BodyStream;
  resp_text : option jsstring;
  resp_json : option Json
}.

(** [response.ok] *)
Definition ok (response : HttpResponse) : bool :=
  Nat.leb 200 (status response) && Nat.leb (status response) 299.

(** What [auth(provider, ...)] does: it returns a result and leaves the
    provider with some tokens, or it throws. *)
Inductive AuthResult : Type := AUTHORIZED | REDIRECT.
Inductive AuthAnswer : Type :=
  | AuthReturns (result : AuthResult) (tokens_after : option jsstring)
  | AuthThrows (error : JsError).

(** The world a client talks to: the answers [fetch] will get, in order
    ([None]: the promise rejects), the answers of the auth flow, in order, the
    access token [authProvider.tokens()] has now, and [Date.now()]. *)
Record World : Type := {
  fetch_answers : list (option HttpResponse);
  auth_answers : list AuthAnswer;
  access_token : option jsstring;
  now : nat
}.

(** A stream id: [`initial-${Date.now()}`] or
    [`req-${requestIds.join('-')}-${Date.now()}`], kept in parts. *)
Inductive StreamId : Type :=
  | InitialStream (timestamp : nat)
  | RequestStream (requestIds : list RequestId) (timestamp : nat).

Fixpoint RequestIds_eqb (a b : list RequestId) : bool :=
  match a, b with
  | [], [] => true
  | x :: a', y :: b' => RequestId_eqb x y && RequestIds_eqb a' b'
  | _, _ => false
  end.

Definition StreamId_eqb (a b : StreamId) : bool :=
  match a, b with
  | InitialStream x, InitialStream y => Nat.eqb x y
  | RequestStream i x, RequestStream j y => RequestIds_eqb i j && Nat.eqb x y
  | _, _ => false
  end.

Module Client.

(** The transport; [_authProvider] tells whether a provider was given
    (the provider itself is part of the [World]). *)
Record Transport : Type := {
  _activeStreams : JsMap.t StreamId BodyStream;
  _authProvider : bool;
  _sessionId : option jsstring;
  _lastEventId : option jsstring
}.

(** [constructor(url, opts)], without [requestInit]. *)
Definition new (authProvider : bool) : Transport :=
  {| _activeStreams := JsMap.empty StreamId BodyStream;
     _authProvider := authProvider;
     _sessionId := None;
     _lastEventId := None |}.

Definition with_streams (t : Transport) (m : JsMap.t StreamId BodyStream)
  : Transport :=
  {| _activeStreams := m;
     _authProvider := _authProvider t;
     _sessionId := _sessionId t;
     _lastEventId := _lastEventId t |}.

Definition with_lastEventId (t : Transport) (id : option jsstring)
  : Transport :=
  {| _activeStreams := _activeStreams t;
     _authProvider := _authProvider t;
     _sessionId := _sessionId t;
     _lastEventId := id |}.

Definition with_sessionId (t : Transport) (id : option jsstring)
  : Transport :=
  {| _activeStreams := _activeStreams t;
     _authProvider := _authProvider t;
     _sessionId := id;
     _lastEventId := _lastEventId t |}.

(** The fields of one SSE event: [id], [eventType], [data]. *)
Record SseFields : Type := {
  id : option jsstring;
  eventType : option jsstring;
  data : option jsstring
}.

Definition no_fields : SseFields :=
  {| id := None; eventType := None; data := None |}.

(** The body of [for (const line of lines)]. *)
Definition parse_line (f : SseFields) (line : jsstring) : SseFields :=
  if JsString.startsWith line (js "id:") then
    {| id := Some (JsString.trim (JsString.slice 3 line));
       eventType := eventType f; data := data f |}
  else if JsString.startsWith line (js "event:") then
    {| id := id f;
       eventType := Some (JsString.trim (JsString.slice 6 line));
       data := data f |}
  else if JsString.startsWith line (js "data:") then
    {| id := id f; eventType := eventType f;
       data := Some (JsString.trim (JsString.slice 5 line)) |}
  else f.

Definition parse_event (event : jsstring) : SseFields :=
  fold_left parse_line (JsString.split [LF] event) no_fields.

(** [events.pop() || ''] and what is left of [events]. *)
Definition pop (events : list jsstring) : list jsstring * jsstring :=
  (removelast events, last events []).

Section WithPlatform.
  Context {P : Platform}.

(** [decoder.decode(value, {stream: true})] *)
Fixpoint decode (d : decoder_state) (value : list N)
  : decoder_state * jsstring :=
  match value with
  | [] => (d, [])
  | b :: rest =>
      let (d1, out1) := decoder_byte d b in
      let (d2, out2) := decode d1 rest in
      (d2, out1 ++ out2)
  end.

(** The body of [for (const event of events)]. *)
Definition handle_event (t : Transport) (event : jsstring)
  : Transport * Trace :=
  let f := parse_event event in
  let t' := if truthy_opt (id f) then with_lastEventId t (id f) else t in
  match data f with
  | Some ((_ :: _) as data) =>
      if negb (truthy_opt (eventType f))
         || match eventType f with
            | Some e => JsString.eqb e (js "message")
            | None => false
            end
      then
        match JSON_parse data with
        | None => (t', [OnError (JsonSyntaxError data)])
        | Some value =>
            match JSONRPCMessageSchema_parse value with
            | None => (t', [OnError (SchemaError value)])
            | Some message => (t', [OnMessage message])
            end
        end
      else (t', [])
  | _ => (t', [])
  end.

Fixpoint handle_events (t : Transport) (events : list jsstring)
  : Transport * Trace :=
  match events with
  | [] => (t, [])
  | event :: rest =>
      let (t1, tr1) := handle_event t event in
      let (t2, tr2) := handle_events t1 rest in
      (t2, tr1 ++ tr2)
  end.

(** The variables of [processStream]: the decoder and the buffer. *)
Record Reading : Type := {
  decoder : decoder_state;
  buffer : jsstring
}.

(** One turn of the [while (true)] loop with [done] false. *)
Definition read_chunk (r : Reading) (t : Transport) (value : list N)
  : Reading * Transport * Trace :=
  let (d, text) := decode (decoder r) value in
  let buffer := buffer r ++ text in
  let (events, buffer) := pop (JsString.split [LF; LF] buffer) in
  let (t', tr) := handle_events t events in
  ({| decoder := d; buffer := buffer |}, t', tr).

Fixpoint read_chunks (r : Reading) (t : Transport) (values : list (list N))
  : Reading * Transport * Trace :=
  match values with
  | [] => (r, t, [])
  | value :: rest =>
      let '(r1, t1, tr1) := read_chunk r t value in
      let '(r2, t2, tr2) := read_chunks r1 t1 rest in
      (r2, t2, tr1 ++ tr2)
  end.

(** [processStream()], run until the stream is done or breaks. *)
Definition processStream (t : Transport) (stream : BodyStream)
    (streamId : StreamId) : Transport * Trace :=
  let '(_, t1, tr) :=
    read_chunks {| decoder := decoder_new; buffer := [] |} t
      (chunks stream) in
  let t2 :=
    with_streams t1 (JsMap.delete StreamId_eqb (_activeStreams t1) streamId) in
  (t2, tr ++ if broken stream then [OnError NetworkError] else []).

(** [_handleSseStream(stream, streamId)] *)
Definition _handleSseStream (t : Transport) (stream : option BodyStream)
    (streamId : StreamId) : Transport * Trace :=
  match stream with
  | None => (t, [])
  | Some stream =>
      let t1 :=
        with_streams t
          (JsMap.set StreamId_eqb (_activeStreams t) streamId stream) in
      processStream t1 stream streamId
  end.

(** [_commonHeaders()]: [Authorization] and [mcp-session-id]. *)
Definition _commonHeaders (t : Transport) (w : World)
  : option jsstring * HeaderValue :=
  ( if _authProvider t then
      match access_token w with
      | Some token => Some (js "Bearer " ++ token)
      | None => None
      end
    else None,
    match _sessionId t with
    | Some ((_ :: _) as sid) => HeaderSingle sid
    | _ => HeaderAbsent
    end ).

(** The POST of [send]. *)
Definition post_request (t : Transport) (w : World) (message : Outgoing)
  : HttpRequest :=
  {| req_method := js "POST";
     req_accept := Some (js "application/json, text/event-stream");
     req_content_type := Some (js "application/json");
     req_mcp_session_id := snd (_commonHeaders t w);
     req_authorization := fst (_commonHeaders t w);
     req_last_event_id := None;
     req_body := Some (JSON_stringify message) |}.

Definition next_fetch (w : World) : option HttpResponse * World :=
  match fetch_answers w with
  | [] => (None, w)
  | answer :: rest =>
      (answer, {| fetch_answers := rest; auth_answers := auth_answers w;
                  access_token := access_token w; now := now w |})
  end.

Definition next_auth (w : World) : AuthAnswer * World :=
  match auth_answers w with
  | [] => (AuthThrows NetworkError, w)
  | AuthThrows e :: rest =>
      (AuthThrows e,
       {| fetch_answers := fetch_answers w; auth_answers := rest;
          access_token := access_token w; now := now w |})
  | AuthReturns r tokens :: rest =>
      (AuthReturns r tokens,
       {| fetch_answers := fetch_answers w; auth_answers := rest;
          access_token := tokens; now := now w |})
  end.

(** [send(message)].  The call of [send] on itself after a 401 has no
    bound in the source, so the embedding counts calls down from [fuel]
    and gives [None] when they run out.  The stream of an SSE answer,
    which the source reads in a task of its own, is read here at once. *)
Fixpoint send (fuel : nat) (t : Transport) (w : World) (message : Outgoing)
  : option (Transport * World * Trace * result unit) :=
  match fuel with
  | O => None
  | S fuel' =>
      let request := post_request t w message in
      match next_fetch w with
      | (None, w1) =>
          Some (t, w1, [Fetch request; OnError NetworkError],
                Throw NetworkError)
      | (Some response, w1) =>
          let t1 := if truthy_opt (resp_mcp_session_id response)
                    then with_sessionId t (resp_mcp_session_id response)
                    else t in
          if negb (ok response) then
            if Nat.eqb (status response) 401 && _authProvider t1 then
              match next_auth w1 with
              | (AuthThrows e, w2) =>
                  Some (t1, w2, [Fetch request; AuthFlow; OnError e], Throw e)
              | (AuthReturns REDIRECT _, w2) =>
                  Some (t1, w2,
                        [Fetch request; AuthFlow; OnError UnauthorizedError],
                        Throw UnauthorizedError)
              | (AuthReturns AUTHORIZED _, w2) =>
                  match send fuel' t1 w2 message with
                  | None => None
                  | Some (t', w', tr, r) =>
                      Some (t', w', [Fetch request; AuthFlow] ++ tr, r)
                  end
              end
            else
              let error :=
                PostFailedError (status response) (resp_text response) in
              Some (t1, w1, [Fetch request; OnError error], Throw error)
          else if Nat.eqb (status response) 202 then
            Some (t1, w1, [Fetch request], Ok tt)
          else
            let messages := match message with
                            | Batch ms => ms
                            | Single m => [m]
                            end in
            let requestIds := requestIds_of messages in
            let hasRequests := Nat.ltb 0 (length requestIds) in
            let includes (what : string) :=
              match resp_content_type response with
              | None => false
              | Some contentType => JsString.includes contentType (js what)
              end in
            if hasRequests then
              if includes "text/event-stream" then
                let (t2, tr) :=
                  _handleSseStream t1 (resp_body response)
                    (RequestStream requestIds (now w1)) in
                Some (t2, w1, Fetch request :: tr, Ok tt)
              else if includes "application/json" then
                match resp_json response with
                | None =>
                    Some (t1, w1, [Fetch request; OnError JsonBodyError],
                          Throw JsonBodyError)
                | Some data =>
                    match parse_messages data with
                    | Throw e =>
                        Some (t1, w1, [Fetch request; OnError e], Throw e)
                    | Ok responseMessages =>
                        Some (t1, w1,
                              Fetch request
                              :: List.map OnMessage responseMessages,
                              Ok tt)
                    end
                end
              else Some (t1, w1, [Fetch request], Ok tt)
            else Some (t1, w1, [Fetch request], Ok tt)
      end
  end.

End WithPlatform.
End Client.

(* ================================================================== *)
(** ** A platform to run the transports on

    A compact JSON printer, the messages as JSON objects and back, a parser
    that knows the printed form of a finite list of values, and a decoder
    for ASCII.  The examples below run on it. *)

Module Demo.

Definition quote : jsstring := [34%N].
Definition backslash : jsstring := [92%N].

Definition hex_digit (n : N) : code_unit :=
  (if n <? 10 then 48 + n else 87 + n)%N.

Definition escape (c : code_unit) : jsstring :=
  if N.eqb c 34 then backslash ++ quote
  else if N.eqb c 92 then backslash ++ backslash
  else if N.eqb c 10 then backslash ++ js "n"
  else if N.eqb c 13 then backslash ++ js "r"
  else if N.eqb c 9 then backslash ++ js "t"
  else if N.ltb c 32 then
    backslash ++ js "u00" ++ [hex_digit (c / 16); hex_digit (c mod 16)]
  else [c].

Definition print_string (s : jsstring) : jsstring :=
  quote ++ flat_map escape s ++ quote.

Definition print_number (z : Z) : jsstring :=
  js (DecimalString.NilZero.string_of_int (Z.to_int z)).

(** [JSON.stringify(value)], without indentation. *)
Fixpoint print (v : Json) : jsstring :=
  match v with
  | JNull => js "null"
  | JBool true => js "true"
  | JBool false => js "false"
  | JNumber z => print_number z
  | JString s => print_string s
  | JArray items =>
      js "["
      ++ (fix each (l : list Json) : jsstring :=
            match l with
            | [] => []
            | x :: l' =>
                print x ++ match l' with [] => [] | _ :: _ => js "," ++ each l' end
            end) items
      ++ js "]"
  | JObject members =>
      js "{"
      ++ (fix each (l : list (jsstring * Json)) : jsstring :=
            match l with
            | [] => []
            | (k, x) :: l' =>
                print_string k ++ js ":" ++ print x
                ++ match l' with [] => [] | _ :: _ => js "," ++ each l' end
            end) members
      ++ js "}"
  end.

Definition id_json (i : RequestId) : Json :=
  match i with
  | IdNumber n => JNumber n
  | IdString s => JString s
  end.

(** A message as the object it is. *)
Definition to_json (m : JSONRPCMessage) : Json :=
  let params_member (p : option Json) :=
    match p with Some v => [(js "params", v)] | None => [] end in
  match m with
  | Request i meth p =>
      JObject ([(js "jsonrpc", JString (js "2.0")); (js "id", id_json i);
                (js "method", JString meth)] ++ params_member p)
  | Notification meth p =>
      JObject ([(js "jsonrpc", JString (js "2.0"));
                (js "method", JString meth)] ++ params_member p)
  | Response i r =>
      JObject [(js "jsonrpc", JString (js "2.0")); (js "id", id_json i);
               (js "result", r)]
  | ErrorResponse i e =>
      JObject [(js "jsonrpc", JString (js "2.0")); (js "id", id_json i);
               (js "error", e)]
  end.

Fixpoint member (key : jsstring) (members : list (jsstring * Json))
  : option Json :=
  match members with
  | [] => None
  | (k, v) :: rest => if JsString.eqb k key then Some v else member key rest
  end.

Definition json_id (v : option Json) : option RequestId :=
  match v with
  | Some (JNumber n) => Some (IdNumber n)
  | Some (JString s) => Some (IdString s)
  | _ => None
  end.

(** The four shapes of [JSONRPCMessageSchema]. *)
Definition schema_parse (v : Json) : option JSONRPCMessage :=
  match v with
  | JObject members =>
      match member (js "jsonrpc") members with
      | Some (JString version) =>
          if negb (JsString.eqb version (js "2.0")) then None
          else
            match member (js "method") members,
                  json_id (member (js "id") members),
                  member (js "result") members,
                  member (js "error") members with
            | Some (JString meth), Some i, None, None =>
                Some (Request i meth (member (js "params") members))
            | Some (JString meth), None, None, None =>
                match member (js "id") members with
                | None => Some (Notification meth (member (js "params") members))
                | Some _ => None
                end
            | None, Some i, Some r, None => Some (Response i r)
            | None, Some i, None, Some e => Some (ErrorResponse i e)
            | _, _, _, _ => None
            end
      | _ => None
      end
  | _ => None
  end.

(** Messages the examples use. *)
Definition initialize_request : JSONRPCMessage :=
  Request (IdNumber 1) (js "initialize") (Some (JObject [])).
Definition ping (i : Z) : JSONRPCMessage :=
  Request (IdNumber i) (js "ping") None.
Definition pong (i : Z) : JSONRPCMessage :=
  Response (IdNumber i) (JObject []).
Definition initialized_notification : JSONRPCMessage :=
  Notification (js "notifications/initialized") None.

(** The values the parser knows. *)
Definition known_values : list Json :=
  [ JArray [];
    to_json initialize_request;
    to_json (ping 0); to_json (ping 2); to_json (ping 3);
    to_json (pong 0); to_json (pong 2); to_json (pong 3);
    to_json initialized_notification;
    JArray [to_json (ping 2); to_json (ping 3)] ].

#[export] Instance platform : Platform := {|
    JSON_parse := fun text =>
      find (fun v => JsString.eqb (print v) text) known_values;
    JSON_stringify := fun message =>
      match message with
      | Single m => print (to_json m)
      | Batch ms => print (JArray (List.map to_json ms))
      end;
    JSONRPCMessageSchema_parse := schema_parse;
    decoder_state := unit;
    decoder_new := tt;
    decoder_byte := fun d b => (d, [b])
  |}.

(** The headers of a well-formed POST. *)
Definition post (session : HeaderValue) (body : option jsstring)
  : HttpRequest :=
  {| req_method := js "POST";
     req_accept := Some (js "application/json, text/event-stream");
     req_content_type := Some (js "application/json");
     req_mcp_session_id := session;
     req_authorization := None;
     req_last_event_id := None;
     req_body := body |}.

Definition delete (session : HeaderValue) : HttpRequest :=
  {| req_method := js "DELETE";
     req_accept := None;
     req_content_type := None;
     req_mcp_session_id := session;
     req_authorization := None;
     req_last_event_id := None;
     req_body := None |}.

(** A stateful server after its initialize exchange, session id [S1]. *)
Definition S1 : jsstring := js "S1".
Definition stateful (mapping : JsMap.t RequestId Res) : Server.Transport :=
  {| Server._started := true;
     Server._sseResponseMapping := mapping;
     Server._initialized := true;
     Server.sessionId := Some S1;
     Server.sessionIdGenerator := fun _ => Some S1 |}.

(** The text of a trace's writes to one response. *)
Fixpoint written_to (res : Res) (tr : Trace) : jsstring :=
  match tr with
  | [] => []
  | ResWrite r chunk :: rest =>
      (if Nat.eqb r res then chunk else []) ++ written_to res rest
  | _ :: rest => written_to res rest
  end.

End Demo.

(* ================================================================== *)
(** ** Reading traces *)

(** The effect writes the head of an SSE answer. *)
Definition writes_event_stream (e : Effect) : bool :=
  match e with
  | ResWriteHead _ _ headers =>
      existsb (fun h => JsString.eqb (fst h) (js "Content-Type")
                        && JsString.eqb (snd h) (js "text/event-stream"))
        headers
  | _ => false
  end.

Definition is_mapping_set (e : Effect) : bool :=
  match e with MappingSet _ _ => true | _ => false end.

Definition is_onmessage (e : Effect) : bool :=
  match e with OnMessage _ => true | _ => false end.

Definition is_fetch (e : Effect) : bool :=
  match e with Fetch _ => true | _ => false end.

Definition is_auth_flow (e : Effect) : bool :=
  match e with AuthFlow => true | _ => false end.

(** The status codes written to one response. *)
Fixpoint statuses (res : Res) (tr : Trace) : list nat :=
  match tr with
  | [] => []
  | ResWriteHead r st _ :: rest =>
      (if Nat.eqb r res then [st] else []) ++ statuses res rest
  | _ :: rest => statuses res rest
  end.

(** An answer of [fetch] with a status and nothing else. *)
Definition answer (code : nat) : HttpResponse :=
  {| status := code;
     resp_mcp_session_id := None;
     resp_content_type := None;
     resp_body := None;
     resp_text := None;
     resp_json := None |}.

(** The codec as the specification words it: the value of a field is the
    line without its prefix and without one leading space, if there is one. *)
Definition spec_strip_one_space (s : jsstring) : jsstring :=
  match s with
  | 32%N :: s' => s'
  | _ => s
  end.

Definition spec_field_value (prefix : nat) (line : jsstring) : jsstring :=
  spec_strip_one_space (JsString.slice prefix line).

(** [v] is [s] without the white space at its two ends. *)
Definition trimmed (s v : jsstring) : Prop :=
  exists l r,
    s = l ++ v ++ r
    /\ forallb JsString.isWhiteSpace l = true
    /\ forallb JsString.isWhiteSpace r = true
    /\ (forall c v', v = c :: v' -> JsString.isWhiteSpace c = false)
    /\ (forall c v', v = v' ++ [c] -> JsString.isWhiteSpace c = false).





(* ================================================================== *)
(** ** The server transport over a sequence of calls *)

Module ServerRun.

(** What happens to a server transport: the host hands it a request, the
    protocol layer calls [start], [send] or [close], or a response emits
    "close". *)
Inductive Call : Type :=
  | HandleRequest (req : HttpRequest) (res : Res) (parsedBody : option Json)
  | Send (message : JSONRPCMessage) (relatedRequestId : option RequestId)
  | Close
  | Start
  | ResClosed (res : Res).

(** [res.on("close", listener)] was called on [res]. *)
Definition listens (history : Trace) (res : Res) : bool :=
  existsb (fun e => match e with
                    | ResOnClose r => Nat.eqb r res
                    | _ => false
                    end) history.

Section WithPlatform.
  Context {P : Platform}.

(** One call; [history] is what the transport did before, which tells
    whether a listener waits for the "close" of a response. *)
Definition step (history : Trace) (t : Server.Transport) (c : Call)
  : Server.Transport * Trace :=
  match c with
  | HandleRequest req res parsedBody => Server.handleRequest t req res parsedBody
  | Send message relatedRequestId =>
      let '(t', tr, _) := Server.send t message relatedRequestId in (t', tr)
  | Close => Server.close t
  | Start => (fst (Server.start t), [])
  | ResClosed res =>
      if listens history res then Server.res_close_listener t res else (t, [])
  end.

Fixpoint run_from (history : Trace) (t : Server.Transport) (calls : list Call)
  : Server.Transport * Trace :=
  match calls with
  | [] => (t, history)
  | c :: rest =>
      let (t', tr) := step history t c in
      run_from (history ++ tr) t' rest
  end.

(** The calls on a transport just constructed. *)
Definition run (generator : unit -> option jsstring) (calls : list Call)
  : Server.Transport * Trace :=
  run_from [] (Server.new generator) calls.

End WithPlatform.

(** The responses of the requests among the calls, in order. *)
Fixpoint requests_of (calls : list Call) : list Res :=
  match calls with
  | [] => []
  | HandleRequest _ res _ :: rest => res :: requests_of rest
  | _ :: rest => requests_of rest
  end.

(** The responses whose head a trace writes, in order. *)
Fixpoint heads (tr : Trace) : list Res :=
  match tr with
  | [] => []
  | ResWriteHead res _ _ :: rest => res :: heads rest
  | _ :: rest => heads rest
  end.

(** The responses a trace ends, in order. *)
Fixpoint ends (tr : Trace) : list Res :=
  match tr with
  | [] => []
  | ResEnd res _ :: rest => res :: ends rest
  | _ :: rest => ends rest
  end.

(** The responses a trace writes a chunk to, in order. *)
Fixpoint writes (tr : Trace) : list Res :=
  match tr with
  | [] => []
  | ResWrite res _ :: rest => res :: writes rest
  | _ :: rest => writes rest
  end.

(** The responses whose head a trace writes with
    [Content-Type: text/event-stream]. *)
Definition streams (tr : Trace) : list Res :=
  heads (filter writes_event_stream tr).

(** The trace touches no response: it calls callbacks or updates the
    routing table only. *)
Definition quiet (tr : Trace) : Prop :=
  heads tr = [] /\ ends tr = [] /\ writes tr = []
  /\ forall res, listens tr res = false.

(** Every route of the table leads to a response that was given the head
    of an SSE stream, has a listener for its "close" and was not ended. *)
Definition routes_open (history : Trace) (t : Server.Transport) : Prop :=
  forall k res,
    In (k, res) (JsMap.entries (Server._sseResponseMapping t)) ->
    In res (streams history) /\ ~ In res (ends history)
    /\ listens history res = true.

(** The state of the session of a transport made with [generator]: not
    initialized, without session id and without routes; or initialized, with
    the session id the generator gave. *)
Definition session_of (generator : unit -> option jsstring)
    (t : Server.Transport) : Prop :=
  Server.sessionIdGenerator t = generator
  /\ if Server._initialized t
     then Server.sessionId t = generator tt
     else Server.sessionId t = None
          /\ Server._sseResponseMapping t = JsMap.empty RequestId Res.

(** No chunk is written to a response after the response was ended. *)
Fixpoint never_writes_after_end (tr : Trace) : Prop :=
  match tr with
  | [] => True
  | ResEnd res _ :: rest => ~ In res (writes rest) /\ never_writes_after_end rest
  | _ :: rest => never_writes_after_end rest
  end.

(** What the trace of a run keeps: the routes are open, no chunk follows
    the end of its response, a response that was ended had its head
    written, and a chunk goes to a response opened as an event stream. *)
Definition sound (history : Trace) (t : Server.Transport) : Prop :=
  routes_open history t
  /\ never_writes_after_end history
  /\ (forall res, In res (ends history) -> In res (heads history))
  /\ forall res, In res (writes history) -> In res (streams history).

End ServerRun.

(** A session the examples use: initialize, a batch of two requests, the
    reply to one of them; then the peer closes the connection, the other
    reply comes too late, and the session is deleted. *)
Module DemoRun.

Definition generator : unit -> option jsstring := fun _ => Some Demo.S1.

Definition batch : list ServerRun.Call :=
  [ ServerRun.Start;
    ServerRun.HandleRequest
      (Demo.post HeaderAbsent
         (Some (Demo.print (Demo.to_json Demo.initialize_request))))
      1 None;
    ServerRun.HandleRequest
      (Demo.post (HeaderSingle Demo.S1)
         (Some (Demo.print
                  (JArray [Demo.to_json (Demo.ping 2);
                           Demo.to_json (Demo.ping 3)]))))
      2 None ].

Definition opening : list ServerRun.Call :=
  batch ++ [ServerRun.Send (Demo.pong 2) None].

Definition ending : list ServerRun.Call :=
  [ ServerRun.ResClosed 2;
    ServerRun.Send (Demo.pong 3) None;
    ServerRun.HandleRequest (Demo.delete (HeaderSingle Demo.S1)) 3 None;
    ServerRun.Close ].

Definition session : list ServerRun.Call := opening ++ ending.

End DemoRun.

Definition is_onerror (e : Effect) : bool :=
  match e with OnError _ => true | _ => false end.

(** The effect is a call of [onmessage] or [onerror]. *)
Definition is_callback (e : Effect) : bool := is_onmessage e || is_onerror e.

(* ================================================================== *)
(** ** The client transport: [start], [finishAuth], [close]

    The methods of [StreamableHTTPClientTransport] around [send].  They
    share [this._abortController], whose signal every [fetch] of the
    transport is given. *)

Module ClientLifecycle.

(** Values thrown, besides those of [JsError]. *)
Inductive LifecycleError : Type :=
  | Thrown (e : JsError)
  | NoAuthProviderError       (* UnauthorizedError("No auth provider") *)
  | FailedToAuthorizeError    (* UnauthorizedError("Failed to authorize") *)
  | ClientAlreadyStartedError (* "StreamableHTTPClientTransport already started! ..." *)
  | OpenFailedError (status : nat)
                              (* `Failed to open SSE stream: ${status} ${statusText}` *)
  | TerminateFailedError (status : nat) (text : option jsstring)
                              (* `Error terminating session (HTTP ${status}): ${text}` *)
  | AbortError.               (* [fetch] given a signal that is aborted *)

Inductive Outcome : Type :=
  | Returns
  | Throws (e : LifecycleError).

(** What these methods do to the world around the transport. *)
Inductive Action : Type :=
  | Did (e : Effect)           (* [onmessage], [onclose], the auth flow *)
  | FetchCall (req : HttpRequest) (aborted : bool)
                               (* fetch(this._url, {..., signal}) *)
  | Reported (e : LifecycleError)      (* this.onerror?.(e) *)
  | ReaderCancel (streamId : StreamId) (* reader.cancel() *)
  | StreamsClear               (* this._activeStreams.clear() *)
  | NewAbortController         (* this._abortController = new AbortController() *)
  | Abort.                     (* this._abortController?.abort() *)

(** An effect of [send] or of the stream handler, as an action. *)
Definition lift (e : Effect) : Action :=
  match e with
  | OnError x => Reported (Thrown x)
  | Fetch req => FetchCall req false
  | _ => Did e
  end.

(** The transport with [this._abortController]: [None] is [undefined],
    [Some aborted] a controller and whether [abort()] was called on it. *)
Record Connection : Type := {
  transport : Client.Transport;
  _abortController : option bool
}.

Definition with_transport (c : Connection) (t : Client.Transport)
  : Connection :=
  {| transport := t; _abortController := _abortController c |}.

(** [this._abortController?.signal] is aborted. *)
Definition signal_aborted (c : Connection) : bool :=
  match _abortController c with
  | Some aborted => aborted
  | None => false
  end.

(** [await fetch(url, {..., signal})]: given a signal that is aborted,
    [fetch] rejects and makes no request. *)
Inductive Fetched : Type :=
  | Answered (response : HttpResponse)
  | Rejected (e : LifecycleError).

Definition fetch (c : Connection) (w : World) : Fetched * World :=
  if signal_aborted c then (Rejected AbortError, w)
  else
    match Client.next_fetch w with
    | (Some response, w1) => (Answered response, w1)
    | (None, w1) => (Rejected (Thrown NetworkError), w1)
    end.

Definition Result : Type := Connection * World * list Action * Outcome.

(** The GET of [_startOrAuth]. *)
Definition get_request (t : Client.Transport) (w : World) : HttpRequest :=
  {| req_method := js "GET";
     req_accept := Some (js "text/event-stream");
     req_content_type := None;
     req_mcp_session_id := snd (Client._commonHeaders t w);
     req_authorization := fst (Client._commonHeaders t w);
     req_last_event_id :=
       if truthy_opt (Client._lastEventId t) then Client._lastEventId t
       else None;
     req_body := None |}.

(** The DELETE of [close]. *)
Definition delete_request (t : Client.Transport) (w : World) : HttpRequest :=
  {| req_method := js "DELETE";
     req_accept := None;
     req_content_type := None;
     req_mcp_session_id := snd (Client._commonHeaders t w);
     req_authorization := fst (Client._commonHeaders t w);
     req_last_event_id := None;
     req_body := None |}.

(** [_authThenStart()], given what [this._startOrAuth()] does. *)
Definition _authThenStart (_startOrAuth : Connection -> World -> option Result)
    (c : Connection) (w : World) : option Result :=
  if negb (Client._authProvider (transport c)) then
    Some (c, w, [], Throws NoAuthProviderError)
  else
    match Client.next_auth w with
    | (AuthThrows e, w1) =>
        Some (c, w1, [Did AuthFlow; Reported (Thrown e)], Throws (Thrown e))
    | (AuthReturns REDIRECT _, w1) =>
        Some (c, w1, [Did AuthFlow], Throws (Thrown UnauthorizedError))
    | (AuthReturns AUTHORIZED _, w1) =>
        match _startOrAuth c w1 with
        | None => None
        | Some (c', w', tr, r) => Some (c', w', Did AuthFlow :: tr, r)
        end
    end.

Section WithPlatform.
  Context {P : Platform}.

(** [_startOrAuth()].  It and [_authThenStart] call each other without a
    bound in the source; the embedding counts the calls of [_startOrAuth]
    down from [fuel] and gives [None] when they run out.  The stream of an
    answer is read at once, as in [Client.send]. *)
Fixpoint _startOrAuth (fuel : nat) (c : Connection) (w : World)
  : option Result :=
  match fuel with
  | O => None
  | S fuel' =>
      let request := get_request (transport c) w in
      let called := FetchCall request (signal_aborted c) in
      match fetch c w with
      | (Rejected e, w1) => Some (c, w1, [called; Reported e], Throws e)
      | (Answered response, w1) =>
          if Nat.eqb (status response) 405 then
            Some (c, w1, [called], Returns)
          else if negb (ok response) then
            if Nat.eqb (status response) 401
               && Client._authProvider (transport c)
            then
              match _authThenStart (_startOrAuth fuel') c w1 with
              | None => None
              | Some (c', w', tr, Returns) =>
                  Some (c', w', called :: tr, Returns)
              | Some (c', w', tr, Throws e) =>
                  Some (c', w', called :: tr ++ [Reported e], Throws e)
              end
            else
              let error := OpenFailedError (status response) in
              Some (c, w1, [called; Reported error; Reported error],
                    Throws error)
          else
            let (t', tr) :=
              Client._handleSseStream (transport c) (resp_body response)
                (InitialStream (now w1)) in
            Some (with_transport c t', w1, called :: List.map lift tr,
                  Returns)
      end
  end.

(** [start()] *)
Definition start (fuel : nat) (c : Connection) (w : World) : option Result :=
  if Nat.ltb 0 (JsMap.size (Client._activeStreams (transport c))) then
    Some (c, w, [], Throws ClientAlreadyStartedError)
  else
    let c1 := {| transport := transport c; _abortController := Some false |} in
    match _startOrAuth fuel c1 w with
    | None => None
    | Some (c', w', tr, r) => Some (c', w', NewAbortController :: tr, r)
    end.

(** [send(message)], with the signal its [fetch] is given. *)
Definition send (fuel : nat) (c : Connection) (w : World) (message : Outgoing)
  : option Result :=
  if signal_aborted c then
    Some (c, w,
          [FetchCall (Client.post_request (transport c) w message) true;
           Reported AbortError],
          Throws AbortError)
  else
    match Client.send fuel (transport c) w message with
    | None => None
    | Some (t', w', tr, r) =>
        Some (with_transport c t', w', List.map lift tr,
              match r with
              | Ok _ => Returns
              | Throw e => Throws (Thrown e)
              end)
    end.

End WithPlatform.

(** [finishAuth(authorizationCode)] *)
Definition finishAuth (c : Connection) (w : World)
  : Connection * World * list Action * Outcome :=
  if negb (Client._authProvider (transport c)) then
    (c, w, [], Throws NoAuthProviderError)
  else
    match Client.next_auth w with
    | (AuthThrows e, w1) => (c, w1, [Did AuthFlow], Throws (Thrown e))
    | (AuthReturns AUTHORIZED _, w1) => (c, w1, [Did AuthFlow], Returns)
    | (AuthReturns REDIRECT _, w1) =>
        (c, w1, [Did AuthFlow], Throws FailedToAuthorizeError)
    end.

(** [close()]; it does not throw. *)
Definition close (c : Connection) (w : World)
  : Connection * World * list Action :=
  let t := transport c in
  let cancels :=
    List.map (fun e => ReaderCancel (fst e))
      (JsMap.entries (Client._activeStreams t)) in
  let t1 := Client.with_streams t (JsMap.empty StreamId BodyStream) in
  let c1 :=
    {| transport := t1;
       _abortController := match _abortController c with
                           | Some _ => Some true
                           | None => None
                           end |} in
  let aborts := match _abortController c with
                | Some _ => [Abort]
                | None => []
                end in
  let before := cancels ++ [StreamsClear] ++ aborts in
  if truthy_opt (Client._sessionId t) then
    let called := FetchCall (delete_request t1 w) (signal_aborted c1) in
    match fetch c1 w with
    | (Rejected e, w1) =>
        (c1, w1, before ++ [called; Reported e; Did OnClose])
    | (Answered response, w1) =>
        if negb (ok response) && negb (Nat.eqb (status response) 405) then
          let error :=
            TerminateFailedError (status response) (resp_text response) in
          (c1, w1, before ++ [called; Reported error; Did OnClose])
        else (c1, w1, before ++ [called; Did OnClose])
    end
  else (c1, w, before ++ [Did OnClose]).

(** Readings of a list of actions. *)
Definition is_reported (a : Action) : bool :=
  match a with Reported _ => true | _ => false end.

Definition is_fetch_call (a : Action) : bool :=
  match a with FetchCall _ _ => true | _ => false end.

Definition is_auth (a : Action) : bool :=
  match a with Did AuthFlow => true | _ => false end.

Definition is_onclose (a : Action) : bool :=
  match a with Did OnClose => true | _ => false end.

Definition is_delivery (a : Action) : bool :=
  match a with Did (OnMessage _) => true | _ => false end.

End ClientLifecycle.

(* ================================================================== *)
(** ** The client: capability checks

    [Client] of client/index.js, as far as it stands on its own: the three
    checks that [Protocol] calls before a request, a notification or the
    registration of a request handler.  A capability is read for its
    truthiness only. *)

Module McpClient.

(** [capabilities.resources]: [subscribe] is truthy or not. *)
Record ResourcesCapability : Type := {
  subscribe : bool
}.

(** [this._serverCapabilities]: each field is truthy or not; [resources]
    is [None] when it is not. *)
Record ServerCapabilities : Type := {
  logging : bool;
  prompts : bool;
  resources : option ResourcesCapability;
  tools : bool;
  completions : bool
}.

(** [capabilities.roots]: [listChanged] is truthy or not. *)
Record RootsCapability : Type := {
  listChanged : bool
}.

(** [this._capabilities] *)
Record ClientCapabilities : Type := {
  roots : option RootsCapability;
  sampling : bool
}.

(** The client; [_serverCapabilities] is [None] until [connect] has the
    result of initialize. *)
Record Client : Type := {
  _serverCapabilities : option ServerCapabilities;
  _capabilities : ClientCapabilities
}.

(** [`Server does not support ${what} (required for ${method})`] and
    [`Client does not support ${what} (required for ${method})`] *)
Inductive CapabilityError : Type :=
  | ServerDoesNotSupport (what : string) (method : jsstring)
  | ClientDoesNotSupport (what : string) (method : jsstring).

Inductive Checked : Type :=
  | Passes
  | Fails (e : CapabilityError).

(** [method === name], the test of a [case]. *)
Definition matches (method : jsstring) (name : string) : bool :=
  JsString.eqb method (js name).

(** [this._serverCapabilities?.field] is truthy. *)
Definition server_has (c : Client) (field : ServerCapabilities -> bool)
  : bool :=
  match _serverCapabilities c with
  | Some capabilities => field capabilities
  | None => false
  end.

Definition has_resources (capabilities : ServerCapabilities) : bool :=
  match resources capabilities with Some _ => true | None => false end.

Definition has_subscribe (capabilities : ServerCapabilities) : bool :=
  match resources capabilities with
  | Some r => subscribe r
  | None => false
  end.

(** [assertCapabilityForMethod(method)] *)
Definition assertCapabilityForMethod (c : Client) (method : jsstring)
  : Checked :=
  if matches method "logging/setLevel" then
    if negb (server_has c logging)
    then Fails (ServerDoesNotSupport "logging" method)
    else Passes
  else if matches method "prompts/get" || matches method "prompts/list" then
    if negb (server_has c prompts)
    then Fails (ServerDoesNotSupport "prompts" method)
    else Passes
  else if matches method "resources/list"
          || matches method "resources/templates/list"
          || matches method "resources/read"
          || matches method "resources/subscribe"
          || matches method "resources/unsubscribe" then
    if negb (server_has c has_resources)
    then Fails (ServerDoesNotSupport "resources" method)
    else if matches method "resources/subscribe"
            && negb (server_has c has_subscribe)
    then Fails (ServerDoesNotSupport "resource subscriptions" method)
    else Passes
  else if matches method "tools/call" || matches method "tools/list" then
    if negb (server_has c tools)
    then Fails (ServerDoesNotSupport "tools" method)
    else Passes
  else if matches method "completion/complete" then
    if negb (server_has c completions)
    then Fails (ServerDoesNotSupport "completions" method)
    else Passes
  else if matches method "initialize" then Passes
  else if matches method "ping" then Passes
  else Passes.

(** [assertNotificationCapability(method)] *)
Definition assertNotificationCapability (c : Client) (method : jsstring)
  : Checked :=
  if matches method "notifications/roots/list_changed" then
    if negb match roots (_capabilities c) with
            | Some r => listChanged r
            | None => false
            end
    then Fails (ClientDoesNotSupport "roots list changed notifications" method)
    else Passes
  else if matches method "notifications/initialized" then Passes
  else if matches method "notifications/cancelled" then Passes
  else if matches method "notifications/progress" then Passes
  else Passes.

(** [assertRequestHandlerCapability(method)] *)
Definition assertRequestHandlerCapability (c : Client) (method : jsstring)
  : Checked :=
  if matches method "sampling/createMessage" then
    if negb (sampling (_capabilities c))
    then Fails (ClientDoesNotSupport "sampling capability" method)
    else Passes
  else if matches method "roots/list" then
    if negb match roots (_capabilities c) with
            | Some _ => true
            | None => false
            end
    then Fails (ClientDoesNotSupport "roots capability" method)
    else Passes
  else if matches method "ping" then Passes
  else Passes.

(** The requests that [assertCapabilityForMethod] binds to a capability of
    the server. *)
Definition bound_methods : list string :=
  [ "logging/setLevel"; "prompts/get"; "prompts/list"; "resources/list";
    "resources/templates/list"; "resources/read"; "resources/subscribe";
    "resources/unsubscribe"; "tools/call"; "tools/list";
    "completion/complete" ]%string.

(** One client has every capability of another, its own and its
    server's. *)
Definition implies (a b : bool) : Prop := a = true -> b = true.

Definition server_le (a b : option ServerCapabilities) : Prop :=
  match a, b with
  | None, _ => True
  | Some _, None => False
  | Some x, Some y =>
      implies (logging x) (logging y)
      /\ implies (prompts x) (prompts y)
      /\ implies (has_resources x) (has_resources y)
      /\ implies (has_subscribe x) (has_subscribe y)
      /\ implies (tools x) (tools y)
      /\ implies (completions x) (completions y)
  end.

Definition client_le (a b : ClientCapabilities) : Prop :=
  implies (sampling a) (sampling b)
  /\ match roots a, roots b with
     | None, _ => True
     | Some _, None => False
     | Some x, Some y => implies (listChanged x) (listChanged y)
     end.

Definition le (a b : Client) : Prop :=
  server_le (_serverCapabilities a) (_serverCapabilities b)
  /\ client_le (_capabilities a) (_capabilities b).

End McpClient.

(* ================================================================== *)
(** ** Strings and maps: basic facts *)

Unset Implicit Arguments.

Lemma JsString_eqb_eq (a b : jsstring) : JsString.eqb a b = true <-> a = b.
Proof.
  revert b; induction a as [|x a IH]; intros [|y b]; simpl;
    try (split; [discriminate | congruence]); try tauto.
  rewrite andb_true_iff, N.eqb_eq, IH. split.
  - intros [-> ->]; reflexivity.
  - intros E; injection E; auto.
Qed.

Lemma JsString_eqb_refl (a : jsstring) : JsString.eqb a a = true.
Proof. apply JsString_eqb_eq; reflexivity. Qed.

Lemma RequestId_eqb_eq (a b : RequestId) : RequestId_eqb a b = true <-> a = b.
Proof.
  destruct a, b; simpl; try (split; [discriminate | congruence]).
  - rewrite Z.eqb_eq; split; congruence.
  - rewrite JsString_eqb_eq; split; congruence.
Qed.

Lemma RequestId_eqb_refl (a : RequestId) : RequestId_eqb a a = true.
Proof. apply RequestId_eqb_eq; reflexivity. Qed.

Lemma RequestId_eqb_neq (a b : RequestId) : RequestId_eqb a b = false <-> a <> b.
Proof.
  rewrite <- RequestId_eqb_eq. destruct (RequestId_eqb a b); split; congruence.
Qed.

Section MappingFacts.
  Variable V : Type.
  Implicit Type m : JsMap.t RequestId V.

Lemma get_set_same m k (v : V) : JsMap.get RequestId_eqb (JsMap.set RequestId_eqb m k v) k = Some v.
Proof.
  induction m as [|[k' v'] m IH]; simpl.
  - rewrite RequestId_eqb_refl; reflexivity.
  - destruct (RequestId_eqb k' k) eqn:E; simpl; rewrite E; auto.
Qed.

Lemma get_set_other m k k' (v : V) :
  k <> k' -> JsMap.get RequestId_eqb (JsMap.set RequestId_eqb m k v) k' = JsMap.get RequestId_eqb m k'.
Proof.
  intros N. induction m as [|[k0 v0] m IH]; simpl.
  - apply RequestId_eqb_neq in N. rewrite N; reflexivity.
  - destruct (RequestId_eqb k0 k) eqn:E; simpl.
    + apply RequestId_eqb_eq in E; subst k0.
      apply RequestId_eqb_neq in N. rewrite N; reflexivity.
    + destruct (RequestId_eqb k0 k'); auto.
Qed.

Lemma get_delete_same m k : JsMap.get RequestId_eqb (JsMap.delete RequestId_eqb m k) k = None.
Proof.
  induction m as [|[k0 v0] m IH]; simpl; auto.
  destruct (RequestId_eqb k0 k) eqn:E; simpl; auto. rewrite E; auto.
Qed.

Lemma get_delete_other m k k' : k <> k' -> JsMap.get RequestId_eqb (JsMap.delete RequestId_eqb m k) k' = JsMap.get RequestId_eqb m k'.
Proof.
  intros N. induction m as [|[k0 v0] m IH]; simpl; auto.
  destruct (RequestId_eqb k0 k) eqn:E; simpl.
  - apply RequestId_eqb_eq in E; subst k0.
    apply RequestId_eqb_neq in N. rewrite N; auto.
  - rewrite IH; reflexivity.
Qed.

Lemma get_Some_In m k (v : V) : JsMap.get RequestId_eqb m k = Some v -> In (k, v) m.
Proof.
  induction m as [|[k0 v0] m IH]; simpl; [discriminate|].
  destruct (RequestId_eqb k0 k) eqn:E.
  - apply RequestId_eqb_eq in E; subst k0. intros [= ->]; auto.
  - auto.
Qed.

End MappingFacts.

(* ================================================================== *)
(** ** The server transport: what a POST does *)

Section ServerPost.
  Context {P : Platform}.

Lemma validateSession_true t req res :
  fst (Server.validateSession t req res) = true ->
  Server.validateSession t req res = (true, []).
Proof.
  unfold Server.validateSession.
  destruct (Server._initialized t); simpl; [|intros; discriminate].
  destruct (Server.sessionId t) as [sid|]; auto.
  destruct (req_mcp_session_id req) as [|[|c v]|vs];
    try (simpl; intros; discriminate).
  destruct (JsString.eqb (c :: v) sid); simpl; [auto|intros; discriminate].
Qed.

Lemma request_is_not_notification_or_response msg :
  isRequest msg = true -> Server.isNotificationOrResponse msg = false.
Proof. destruct msg; simpl; auto; intros; discriminate. Qed.

Lemma request_in_batch_not_only_notifications msgs :
  existsb isRequest msgs = true ->
  forallb Server.isNotificationOrResponse msgs = false.
Proof.
  induction msgs as [|m msgs IH]; simpl; [intros; discriminate|].
  destruct (isRequest m) eqn:E; simpl.
  - intros _. now rewrite (request_is_not_notification_or_response _ E).
  - intros H. rewrite (IH H). apply andb_false_r.
Qed.

Lemma store_requests_trace m res msgs :
  snd (Server.store_requests m res msgs)
  = List.map (fun i => MappingSet i res) (requestIds_of msgs).
Proof.
  revert m; induction msgs as [|msg msgs IH]; intros m; simpl; auto.
  destruct (if isRequest msg then msg_id msg else None) as [i|]; auto.
  specialize (IH (JsMap.set RequestId_eqb m i res)).
  destruct (Server.store_requests _ res msgs); simpl in *. now f_equal.
Qed.

Lemma store_requests_keeps m res msgs i :
  JsMap.get RequestId_eqb m i = Some res ->
  JsMap.get RequestId_eqb (fst (Server.store_requests m res msgs)) i = Some res.
Proof.
  revert m; induction msgs as [|msg msgs IH]; intros m H; simpl; auto.
  destruct (if isRequest msg then msg_id msg else None) as [j|]; auto.
  specialize (IH (JsMap.set RequestId_eqb m j res)).
  destruct (Server.store_requests _ res msgs); simpl in *. apply IH.
  destruct (RequestId_eqb j i) eqn:E.
  - apply RequestId_eqb_eq in E; subst. apply get_set_same.
  - apply RequestId_eqb_neq in E. rewrite get_set_other; auto.
Qed.

Lemma store_requests_routes m res msgs i :
  In i (requestIds_of msgs) ->
  JsMap.get RequestId_eqb (fst (Server.store_requests m res msgs)) i = Some res.
Proof.
  revert m; induction msgs as [|msg msgs IH]; intros m; simpl; [tauto|].
  destruct (if isRequest msg then msg_id msg else None) as [j|]; auto.
  intros H; destruct H as [E|H]; [subst j|].
  - pose proof (store_requests_keeps (JsMap.set RequestId_eqb m i res) res msgs i
                  (get_set_same _ m i res)) as K.
    destruct (Server.store_requests _ res msgs); exact K.
  - specialize (IH (JsMap.set RequestId_eqb m j res) H).
    destruct (Server.store_requests _ res msgs); exact IH.
Qed.

Lemma requestIds_count msgs :
  length (requestIds_of msgs) = length (filter isRequest msgs).
Proof.
  induction msgs as [|msg msgs IH]; simpl; auto.
  destruct msg; simpl; auto.
Qed.

Lemma no_event_stream_in_sets res ids :
  filter writes_event_stream (List.map (fun i => MappingSet i res) ids) = [].
Proof. induction ids; simpl; auto. Qed.

Lemma no_event_stream_in_deliveries msgs :
  filter writes_event_stream (List.map OnMessage msgs) = [].
Proof. induction msgs; simpl; auto. Qed.

Lemma no_onmessage_in_sets res ids :
  filter is_onmessage (List.map (fun i => MappingSet i res) ids) = [].
Proof. induction ids; simpl; auto. Qed.

Lemma no_set_in_deliveries msgs :
  filter is_mapping_set (List.map OnMessage msgs) = [].
Proof. induction msgs; simpl; auto. Qed.

Lemma sse_headers_event_stream t res :
  writes_event_stream (ResWriteHead res 200 (Server.sse_headers t)) = true.
Proof. reflexivity. Qed.

End ServerPost.

Section ServerPostClaims.
  Context {P : Platform}.

Lemma acceptable_passes req :
  Server.acceptable req = true ->
  negb (Server.accepts req "application/json")
  || negb (Server.accepts req "text/event-stream") = false
  /\ negb (Server.is_json_content req) = false.
Proof.
  unfold Server.acceptable. intros H.
  apply andb_true_iff in H as [H H3]. apply andb_true_iff in H as [H1 H2].
  rewrite H1, H2, H3. split; reflexivity.
Qed.

(** C10.  A POST with acceptable headers whose body is the empty batch,
    handled by an initialized server whose session check passes, is answered
    202 with an empty body; no message is delivered and the transport is
    left as it was. *)
Theorem post_empty_batch_accepted t req res parsedBody :
  Server.acceptable req = true ->
  Server.rawMessage req parsedBody = Ok (JArray []) ->
  Server._initialized t = true ->
  fst (Server.validateSession t req res) = true ->
  Server.handlePostRequest t req res parsedBody
  = (t, [ResWriteHead res 202 []; ResEnd res None])
  /\ filter is_onmessage (snd (Server.handlePostRequest t req res parsedBody))
     = [].
Proof.
  intros Hacc Hraw Hinit Hvalid.
  assert (E : Server.handlePostRequest t req res parsedBody
              = (t, [ResWriteHead res 202 []; ResEnd res None])).
  { unfold Server.handlePostRequest.
    destruct (acceptable_passes req Hacc) as [-> ->].
    rewrite Hraw. cbn [parse_messages parse_each existsb].
    rewrite (validateSession_true t req res Hvalid).
    reflexivity. }
  rewrite E. split; reflexivity.
Qed.

(** C5, as amended.  On an initialized server, a POST with acceptable
    headers whose body parses to messages one of which is an initialize is
    answered 400 with code -32600, "Invalid Request: Server already
    initialized"; nothing is delivered and the transport is left as it was. *)
Theorem second_initialize_rejected t req res parsedBody raw msgs :
  Server.acceptable req = true ->
  Server.rawMessage req parsedBody = Ok raw ->
  parse_messages raw = Ok msgs ->
  existsb Server.isInitialize msgs = true ->
  Server._initialized t = true ->
  Server.handlePostRequest t req res parsedBody
  = (t, [ ResWriteHead res 400 [];
          ResEnd res (Some {| code := -32600;
                              message := js "Invalid Request: Server already initialized";
                              data := None |}) ]).
Proof.
  intros Hacc Hraw Hparse Hinit Hdone.
  unfold Server.handlePostRequest.
  destruct (acceptable_passes req Hacc) as [-> ->].
  rewrite Hraw, Hparse, Hinit, Hdone. reflexivity.
Qed.

(** C1, as amended.  Take a POST with acceptable headers whose body parses
    to a batch with at least one request.  When no message of the batch is
    an initialize and the session check passes, the head of an SSE answer is
    written once, then one entry per request message is set in the routing
    table, and only then are the messages delivered, in order.  When the
    batch is one initialize request and the server is not initialized yet,
    the message is delivered first and the answer is a plain 200 that is
    ended at once: no SSE head is written and the routing table is left as
    it was. *)
Theorem post_requests_routed_before_delivery t req res parsedBody raw msgs :
  Server.acceptable req = true ->
  Server.rawMessage req parsedBody = Ok raw ->
  parse_messages raw = Ok msgs ->
  existsb isRequest msgs = true ->
  let out := Server.handlePostRequest t req res parsedBody in
  (existsb Server.isInitialize msgs = false ->
   fst (Server.validateSession t req res) = true ->
   let sets := List.map (fun i => MappingSet i res) (requestIds_of msgs) in
   let before := ResWriteHead res 200 (Server.sse_headers t) :: sets
                 ++ [ResOnClose res] in
   exists mapping,
     out = (Server.with_mapping t mapping, before ++ List.map OnMessage msgs)
     /\ length (filter writes_event_stream (snd out)) = 1
     /\ length (filter is_mapping_set before) = length (filter isRequest msgs)
     /\ filter is_onmessage before = []
     /\ filter is_mapping_set (List.map OnMessage msgs) = []
     /\ (forall i, In i (requestIds_of msgs) ->
                   JsMap.get RequestId_eqb mapping i = Some res))
  /\ (existsb Server.isInitialize msgs = true ->
      Server._initialized t = false ->
      length msgs = 1 ->
      snd out
      = List.map OnMessage msgs
        ++ [ ResWriteHead res 200
               match Server.sessionIdGenerator t tt with
               | Some sid => [(js "mcp-session-id", sid)]
               | None => []
               end;
             ResEnd res None ]
      /\ filter writes_event_stream (snd out) = []
      /\ filter is_mapping_set (snd out) = []
      /\ Server._sseResponseMapping (fst out) = Server._sseResponseMapping t).
Proof.
  intros Hacc Hraw Hparse Hreq out.
  assert (E : out
              = let isInitializationRequest := existsb Server.isInitialize msgs in
                if isInitializationRequest then
                  if Server._initialized t then
                    (t, Server.answer_error res 400 [] (-32600)
                          "Invalid Request: Server already initialized" None)
                  else if Nat.ltb 1 (length msgs) then
                    (t, Server.answer_error res 400 [] (-32600)
                          "Invalid Request: Only one initialization request is allowed"
                          None)
                  else
                    ({| Server._started := Server._started t;
                        Server._sseResponseMapping := Server._sseResponseMapping t;
                        Server._initialized := true;
                        Server.sessionId := Server.sessionIdGenerator t tt;
                        Server.sessionIdGenerator := Server.sessionIdGenerator t |},
                     List.map OnMessage msgs
                     ++ [ ResWriteHead res 200
                            match Server.sessionIdGenerator t tt with
                            | Some s => [(js "mcp-session-id", s)]
                            | None => []
                            end;
                          ResEnd res None ])
                else
                  let (valid, written) := Server.validateSession t req res in
                  if negb valid then (t, written)
                  else
                    let (mapping, stored) :=
                      Server.store_requests (Server._sseResponseMapping t) res msgs in
                    (Server.with_mapping t mapping,
                     written ++ [ResWriteHead res 200 (Server.sse_headers t)]
                     ++ stored ++ [ResOnClose res] ++ List.map OnMessage msgs)).
  { unfold out, Server.handlePostRequest.
    destruct (acceptable_passes req Hacc) as [-> ->].
    rewrite Hraw, Hparse.
    rewrite (request_in_batch_not_only_notifications msgs Hreq), Hreq.
    reflexivity. }
  clearbody out. subst out. split.
  - intros Hinit Hvalid. cbn zeta. rewrite Hinit.
    rewrite (validateSession_true t req res Hvalid). cbn [negb].
    pose proof (store_requests_trace (Server._sseResponseMapping t) res msgs) as T.
    pose proof (store_requests_routes (Server._sseResponseMapping t) res msgs) as R.
    destruct (Server.store_requests (Server._sseResponseMapping t) res msgs)
      as [mapping stored].
    cbn [fst snd] in *. subst stored. exists mapping.
    split; [|split; [|split; [|split; [|split]]]].
    + cbn [app]. rewrite <- app_assoc. reflexivity.
    + cbn [snd app filter]. rewrite sse_headers_event_stream.
      rewrite filter_app, no_event_stream_in_sets.
      cbn [app filter writes_event_stream].
      rewrite no_event_stream_in_deliveries. reflexivity.
    + cbn [filter is_mapping_set].
      rewrite filter_app. cbn [filter is_mapping_set]. rewrite app_nil_r.
      rewrite <- requestIds_count. clear R.
      induction (requestIds_of msgs) as [|i ids IH]; cbn; auto.
      all: idtac.
    + cbn [filter is_onmessage].
      rewrite filter_app, no_onmessage_in_sets. reflexivity.
    + apply no_set_in_deliveries.
    + exact R.
  - intros Hinit Hfresh Hone. cbn zeta.
    rewrite Hinit, Hfresh, Hone. cbn [Nat.ltb Nat.leb].
    cbn [fst snd Server._sseResponseMapping].
    split; [reflexivity|]. split; [|split; [|reflexivity]].
    + rewrite filter_app, no_event_stream_in_deliveries.
      destruct (Server.sessionIdGenerator t tt); reflexivity.
    + rewrite filter_app, no_set_in_deliveries. reflexivity.
Qed.

End ServerPostClaims.

Section ServerPostExamples.
  #[local] Existing Instance Demo.platform.

(** C10, at the empty batch sent to a stateful server with its session id. *)
Lemma post_empty_batch_accepted_witness :
  let t := Demo.stateful [] in
  let req := Demo.post (HeaderSingle Demo.S1) (Some (js "[]")) in
  Server.handlePostRequest t req 7 None
  = (t, [ResWriteHead 7 202 []; ResEnd 7 None])
  /\ filter is_onmessage (snd (Server.handlePostRequest t req 7 None)) = [].
Proof.
  apply (@post_empty_batch_accepted Demo.platform); vm_compute; reflexivity.
Defined.

(** C5, at a second initialize. *)
Lemma second_initialize_rejected_witness :
  let t := Demo.stateful [] in
  let req := Demo.post HeaderAbsent None in
  Server.handlePostRequest t req 7 (Some (Demo.to_json Demo.initialize_request))
  = (t, [ ResWriteHead 7 400 [];
          ResEnd 7 (Some {| code := -32600;
                            message := js "Invalid Request: Server already initialized";
                            data := None |}) ]).
Proof.
  apply (@second_initialize_rejected Demo.platform) with
    (raw := Demo.to_json Demo.initialize_request)
    (msgs := [Demo.initialize_request]);
    vm_compute; reflexivity.
Defined.

(** C5 as stated fails: the server is initialized and the body is an
    initialize request, but the POST has no [Accept] header; the answer is
    406 with code -32000, not 400 with code -32600. *)
Lemma second_initialize_without_accept_is_406 :
  let t := Demo.stateful [] in
  let req := {| req_method := js "POST";
                req_accept := None;
                req_content_type := Some (js "application/json");
                req_mcp_session_id := HeaderSingle Demo.S1;
                req_authorization := None;
                req_last_event_id := None;
                req_body := None |} in
  let body := Demo.to_json Demo.initialize_request in
  Server._initialized t = true
  /\ parse_messages body = Ok [Demo.initialize_request]
  /\ existsb Server.isInitialize [Demo.initialize_request] = true
  /\ Server.handlePostRequest t req 7 (Some body)
     = (t, [ ResWriteHead 7 406 [];
             ResEnd 7 (Some {| code := -32000;
                               message := js "Not Acceptable: Client must accept both application/json and text/event-stream";
                               data := None |}) ])
  /\ statuses 7 (snd (Server.handlePostRequest t req 7 (Some body))) = [406].
Proof. vm_compute. repeat split; reflexivity. Qed.

(** C1, at a batch of two requests. *)
Lemma post_requests_routed_before_delivery_witness :
  let t := Demo.stateful [] in
  let msgs := [Demo.ping 2; Demo.ping 3] in
  let req := Demo.post (HeaderSingle Demo.S1)
               (Some (JSON_stringify (Batch msgs))) in
  let out := Server.handlePostRequest t req 7 None in
  let sets := [MappingSet (IdNumber 2) 7; MappingSet (IdNumber 3) 7] in
  let before := ResWriteHead 7 200 (Server.sse_headers t) :: sets
                ++ [ResOnClose 7] in
  exists mapping,
    out = (Server.with_mapping t mapping, before ++ List.map OnMessage msgs)
    /\ length (filter writes_event_stream (snd out)) = 1
    /\ length (filter is_mapping_set before) = length (filter isRequest msgs)
    /\ filter is_onmessage before = []
    /\ filter is_mapping_set (List.map OnMessage msgs) = []
    /\ (forall i, In i (requestIds_of msgs) ->
                  JsMap.get RequestId_eqb mapping i = Some 7).
Proof.
  destruct (@post_requests_routed_before_delivery Demo.platform
              (Demo.stateful [])
              (Demo.post (HeaderSingle Demo.S1)
                 (Some (JSON_stringify (Batch [Demo.ping 2; Demo.ping 3]))))
              7 None
              (JArray [Demo.to_json (Demo.ping 2); Demo.to_json (Demo.ping 3)])
              [Demo.ping 2; Demo.ping 3])
    as [routed _]; try (vm_compute; reflexivity).
  apply routed; vm_compute; reflexivity.
Defined.

(** C1 as stated fails for an initialize request: the batch holds one
    request, the initialize; it is delivered first, the answer is a plain 200
    without [Content-Type: text/event-stream], and nothing is set in the
    routing table. *)
Lemma initialize_request_is_not_routed :
  let t := Server.new (fun _ => Some Demo.S1) in
  let req := Demo.post HeaderAbsent
               (Some (JSON_stringify (Single Demo.initialize_request))) in
  let out := Server.handlePostRequest t req 7 None in
  existsb isRequest [Demo.initialize_request] = true
  /\ snd out = [ OnMessage Demo.initialize_request;
                 ResWriteHead 7 200 [(js "mcp-session-id", Demo.S1)];
                 ResEnd 7 None ]
  /\ filter writes_event_stream (snd out) = []
  /\ filter is_mapping_set (snd out) = []
  /\ JsMap.get RequestId_eqb (Server._sseResponseMapping (fst out)) (IdNumber 1)
     = None.
Proof. vm_compute. repeat split; reflexivity. Qed.

End ServerPostExamples.

(* ================================================================== *)
(** ** The server transport: sessions and their end *)

Section ServerSessionClaims.
  Context {P : Platform}.

Lemma statuses_app res tr1 tr2 :
  statuses res (tr1 ++ tr2) = statuses res tr1 ++ statuses res tr2.
Proof.
  induction tr1 as [|e tr1 IH]; simpl; auto.
  destruct e; auto. rewrite IH, app_assoc. reflexivity.
Qed.

Lemma statuses_sets res res' ids :
  statuses res (List.map (fun i => MappingSet i res') ids) = [].
Proof. induction ids; simpl; auto. Qed.

Lemma statuses_deliveries res msgs :
  statuses res (List.map OnMessage msgs) = [].
Proof. induction msgs; simpl; auto. Qed.

Lemma session_header_passes t S1 req res :
  Server._initialized t = true ->
  Server.sessionId t = Some S1 ->
  S1 <> [] ->
  req_mcp_session_id req = HeaderSingle S1 ->
  Server.validateSession t req res = (true, []).
Proof.
  intros Hinit Hsid Hne Hreq. unfold Server.validateSession.
  rewrite Hinit, Hsid, Hreq. cbn [negb].
  destruct S1 as [|c S1]; [congruence|].
  rewrite JsString_eqb_refl. reflexivity.
Qed.

(** No answer of [handlePostRequest] is a 404 once the session check
    passes. *)
Lemma post_not_404 t req res parsedBody :
  Server.validateSession t req res = (true, []) ->
  ~ In 404 (statuses res (snd (Server.handlePostRequest t req res parsedBody))).
Proof.
  intros Hvalid. unfold Server.handlePostRequest.
  destruct (negb (Server.accepts req "application/json")
            || negb (Server.accepts req "text/event-stream")).
  { simpl. rewrite Nat.eqb_refl. simpl. intros [H|[]]; discriminate. }
  destruct (negb (Server.is_json_content req)).
  { simpl. rewrite Nat.eqb_refl. simpl. intros [H|[]]; discriminate. }
  destruct (Server.rawMessage req parsedBody) as [raw|e].
  2:{ simpl. rewrite Nat.eqb_refl. simpl. intros [H|[]]; discriminate. }
  destruct (parse_messages raw) as [msgs|e].
  2:{ simpl. rewrite Nat.eqb_refl. simpl. intros [H|[]]; discriminate. }
  destruct (existsb Server.isInitialize msgs).
  { destruct (Server._initialized t).
    { simpl. rewrite Nat.eqb_refl. simpl. intros [H|[]]; discriminate. }
    destruct (Nat.ltb 1 (length msgs)).
    { simpl. rewrite Nat.eqb_refl. simpl. intros [H|[]]; discriminate. }
    cbn [snd]. rewrite statuses_app, statuses_deliveries.
    simpl. rewrite Nat.eqb_refl. simpl. intros [H|[]]; discriminate. }
  rewrite Hvalid. cbn [negb].
  destruct (forallb Server.isNotificationOrResponse msgs).
  { cbn [snd app]. simpl statuses. rewrite Nat.eqb_refl.
    rewrite statuses_deliveries. simpl. intros [H|[]]; discriminate. }
  destruct (existsb isRequest msgs); [|simpl; tauto].
  pose proof (store_requests_trace (Server._sseResponseMapping t) res msgs) as T.
  destruct (Server.store_requests (Server._sseResponseMapping t) res msgs)
    as [mapping stored].
  cbn [fst snd] in *. subst stored. cbn [app].
  simpl statuses. rewrite Nat.eqb_refl.
  rewrite statuses_app, statuses_sets. simpl statuses.
  rewrite statuses_deliveries. simpl. intros [H|[]]; discriminate.
Qed.

(** C2, as amended.  A stateful, initialized server with session id [S1]
    that handles a DELETE carrying [S1] ends every response of the routing
    table, clears the table, calls [onclose] and answers 200; [initialized]
    and [sessionId] stay as they were, so a later POST carrying [S1] still
    passes the session check and is never answered 404. *)
Theorem delete_ends_streams_and_keeps_session t req res S1 :
  Server._initialized t = true ->
  Server.sessionId t = Some S1 ->
  S1 <> [] ->
  req_mcp_session_id req = HeaderSingle S1 ->
  let after := Server.with_mapping t (JsMap.empty RequestId Res) in
  Server.handleDeleteRequest t req res
  = ( after,
      List.map (fun response => ResEnd response None)
        (JsMap.values (Server._sseResponseMapping t))
      ++ [MappingClear; OnClose; ResWriteHead res 200 []; ResEnd res None] )
  /\ Server._initialized after = true
  /\ Server.sessionId after = Some S1
  /\ forall req' res' parsedBody,
       req_mcp_session_id req' = HeaderSingle S1 ->
       Server.validateSession after req' res' = (true, [])
       /\ ~ In 404 (statuses res'
                      (snd (Server.handlePostRequest after req' res' parsedBody))).
Proof.
  intros Hinit Hsid Hne Hreq after.
  split; [|split; [|split]]; auto.
  - unfold Server.handleDeleteRequest.
    rewrite (session_header_passes t S1 req res Hinit Hsid Hne Hreq).
    cbn [negb Server.close app]. rewrite <- app_assoc. reflexivity.
  - intros req' res' parsedBody Hreq'.
    assert (V : Server.validateSession after req' res' = (true, []))
      by (apply (session_header_passes after S1); auto).
    split; [exact V | now apply post_not_404].
Qed.

End ServerSessionClaims.

Section ServerSessionExamples.
  #[local] Existing Instance Demo.platform.

(** C2, at a session with one open stream. *)
Lemma delete_ends_streams_and_keeps_session_witness :
  let t := Demo.stateful [(IdNumber 2, 5)] in
  let after := Server.with_mapping t (JsMap.empty RequestId Res) in
  Server.handleDeleteRequest t (Demo.delete (HeaderSingle Demo.S1)) 6
  = ( after,
      List.map (fun response => ResEnd response None)
        (JsMap.values (Server._sseResponseMapping t))
      ++ [MappingClear; OnClose; ResWriteHead 6 200 []; ResEnd 6 None] )
  /\ Server._initialized after = true
  /\ Server.sessionId after = Some Demo.S1
  /\ forall req' res' parsedBody,
       req_mcp_session_id req' = HeaderSingle Demo.S1 ->
       Server.validateSession after req' res' = (true, [])
       /\ ~ In 404 (statuses res'
                      (snd (Server.handlePostRequest after req' res' parsedBody))).
Proof.
  apply (@delete_ends_streams_and_keeps_session Demo.platform
           (Demo.stateful [(IdNumber 2, 5)])
           (Demo.delete (HeaderSingle Demo.S1)) 6 Demo.S1);
    try reflexivity.
  discriminate.
Defined.

(** C2 as stated fails in its last part: after the DELETE carrying [S1], a
    POST of a request carrying [S1] is answered 200 with an SSE stream and
    the request is delivered; it is not answered 404. *)
Lemma post_after_delete_is_served :
  let t := Demo.stateful [(IdNumber 2, 5)] in
  let deleted := Server.handleRequest t (Demo.delete (HeaderSingle Demo.S1)) 6 None in
  let req := Demo.post (HeaderSingle Demo.S1)
               (Some (JSON_stringify (Single (Demo.ping 3)))) in
  let out := Server.handleRequest (fst deleted) req 7 None in
  statuses 6 (snd deleted) = [200]
  /\ In OnClose (snd deleted)
  /\ statuses 7 (snd out) = [200]
  /\ filter is_onmessage (snd out) = [OnMessage (Demo.ping 3)].
Proof. vm_compute. repeat split; auto. Qed.

End ServerSessionExamples.

(* ================================================================== *)
(** ** The server transport: [send] *)

Section ServerSendFacts.
  Context {P : Platform}.

(** Some other id of the table refers to [res]. *)
Lemma shared_after_delete (m : JsMap.t RequestId Res) r res :
  existsb (fun e => Nat.eqb (snd e) res && negb (RequestId_eqb (fst e) r))
    (JsMap.entries (JsMap.delete RequestId_eqb m r)) = true
  <-> exists k, k <> r /\ In (k, res) (JsMap.entries m).
Proof.
  unfold JsMap.entries, JsMap.delete. rewrite existsb_exists. split.
  - intros [[k v] [Hin Hk]]. apply filter_In in Hin as [Hin _].
    cbn [fst snd] in Hk. apply andb_true_iff in Hk as [Hv Hk].
    apply Nat.eqb_eq in Hv; subst v.
    apply negb_true_iff, RequestId_eqb_neq in Hk. exists k; auto.
  - intros [k [Hk Hin]]. exists (k, res). cbn [fst snd].
    apply RequestId_eqb_neq in Hk. split.
    + apply filter_In. cbn [fst]. rewrite Hk. auto.
    + rewrite Nat.eqb_refl, Hk. reflexivity.
Qed.

(** A reply whose id is truthy and routed: [send] writes the frame to the
    response the id maps to and removes the id from the routing table; the
    response is ended exactly when no other id of the table refers to it. *)
Theorem send_response_releases_route t message relatedRequestId r res :
  has_result message || has_error message = true ->
  msg_id message = Some r ->
  Server.falsy_id (Some r) = false ->
  JsMap.get RequestId_eqb (Server._sseResponseMapping t) r = Some res ->
  exists t' tr,
    Server.send t message relatedRequestId = (t', tr, Ok tt)
    /\ In (ResWrite res (sse_frame message)) tr
    /\ JsMap.get RequestId_eqb (Server._sseResponseMapping t') r = None
    /\ (forall k, k <> r ->
          JsMap.get RequestId_eqb (Server._sseResponseMapping t') k
          = JsMap.get RequestId_eqb (Server._sseResponseMapping t) k)
    /\ (In (ResEnd res None) tr
        <-> ~ exists k, k <> r
                        /\ In (k, res) (JsMap.entries (Server._sseResponseMapping t))).
Proof.
  intros Hresp Hid Htruthy Hget. unfold Server.send.
  rewrite Hresp, Hid, Htruthy, Hget.
  pose proof (shared_after_delete (Server._sseResponseMapping t) r res) as S.
  destruct (existsb _ _) eqn:E; cbn [negb];
    eexists; eexists; (split; [reflexivity|]);
    (split; [left; reflexivity|]);
    (split; [apply get_delete_same|]);
    (split; [intros k Hk; now apply get_delete_other|]).
  - split.
    + cbn. intros [H|[H|[]]]; discriminate.
    + intros N. exfalso. apply N, S. reflexivity.
  - split.
    + intros _ H. apply S in H. discriminate.
    + intros _. cbn. auto.
Qed.

(** How [send] ends: it throws for a falsy routing id, throws for a routing
    id the table does not hold, and returns otherwise. *)
Theorem send_outcome t message relatedRequestId :
  let requestId := if has_result message || has_error message
                   then msg_id message else relatedRequestId in
  snd (Server.send t message relatedRequestId)
  = if Server.falsy_id requestId then Throw NoRequestIdError
    else match requestId with
         | None => Throw NoRequestIdError
         | Some r =>
             match JsMap.get RequestId_eqb (Server._sseResponseMapping t) r with
             | None => Throw (NoSseConnectionError r)
             | Some _ => Ok tt
             end
         end.
Proof.
  intros requestId. unfold Server.send. fold requestId.
  destruct (Server.falsy_id requestId); [reflexivity|].
  destruct requestId as [r|]; [|reflexivity].
  destruct (JsMap.get RequestId_eqb (Server._sseResponseMapping t) r);
    [|reflexivity].
  destruct (has_result message || has_error message); reflexivity.
Qed.

End ServerSendFacts.

Section ServerSendExamples.
  #[local] Existing Instance Demo.platform.

Lemma send_response_releases_route_witness :
  let t := Demo.stateful [(IdNumber 2, 7); (IdNumber 3, 7)] in
  exists t' tr,
    Server.send t (Demo.pong 2) None = (t', tr, Ok tt)
    /\ In (ResWrite 7 (sse_frame (Demo.pong 2))) tr
    /\ JsMap.get RequestId_eqb (Server._sseResponseMapping t') (IdNumber 2) = None
    /\ (forall k, k <> IdNumber 2 ->
          JsMap.get RequestId_eqb (Server._sseResponseMapping t') k
          = JsMap.get RequestId_eqb (Server._sseResponseMapping t) k)
    /\ (In (ResEnd 7 None) tr
        <-> ~ exists k, k <> IdNumber 2
                        /\ In (k, 7) (JsMap.entries (Server._sseResponseMapping t))).
Proof.
  apply (@send_response_releases_route Demo.platform
           (Demo.stateful [(IdNumber 2, 7); (IdNumber 3, 7)])
           (Demo.pong 2) None (IdNumber 2) 7);
    reflexivity.
Defined.

(** C3, where the code departs from it: ids 0 and 2 of one batch share the
    response 7; the reply to id 0 is refused with the no-request-id error,
    nothing is written, and id 0 stays in the routing table. *)
Lemma reply_to_id_zero_is_not_routed :
  let t := Demo.stateful [(IdNumber 0, 7); (IdNumber 2, 7)] in
  JsMap.get RequestId_eqb (Server._sseResponseMapping t) (IdNumber 0) = Some 7
  /\ Server.send t (Demo.pong 0) None = (t, [], Throw NoRequestIdError)
  /\ JsMap.get RequestId_eqb
       (Server._sseResponseMapping (fst (fst (Server.send t (Demo.pong 0) None))))
       (IdNumber 0) = Some 7.
Proof. vm_compute. repeat split; reflexivity. Qed.

(** C4, where the code departs from it: a request with id 0 is posted and
    routed to response 7; the routing id 0 is present and in the table, yet
    [send] throws the no-request-id error, for the reply as for a
    notification related to the request. *)
Lemma routing_id_zero_counts_as_absent :
  let t := Demo.stateful [] in
  let req := Demo.post (HeaderSingle Demo.S1)
               (Some (JSON_stringify (Single (Demo.ping 0)))) in
  let t1 := fst (Server.handleRequest t req 7 None) in
  JsMap.get RequestId_eqb (Server._sseResponseMapping t1) (IdNumber 0) = Some 7
  /\ snd (Server.send t1 (Demo.pong 0) None) = Throw NoRequestIdError
  /\ snd (Server.send t1 Demo.initialized_notification (Some (IdNumber 0)))
     = Throw NoRequestIdError
  /\ snd (Server.send t1 (Demo.pong 2) None)
     = Throw (NoSseConnectionError (IdNumber 2)).
Proof. vm_compute. repeat split; reflexivity. Qed.

End ServerSendExamples.

(* ================================================================== *)
(** ** [split]: cutting a text that arrives in pieces *)

Section SplitFacts.
  Variable sep : jsstring.
  Hypothesis sep_not_empty : sep <> [].

Lemma startsWith_length s p :
  JsString.startsWith s p = true -> length p <= length s.
Proof.
  revert s; induction p as [|c p IH]; intros s; simpl; [lia|].
  destruct s as [|d s]; [discriminate|].
  intros H. apply andb_true_iff in H as [_ H]. apply IH in H. simpl; lia.
Qed.

Lemma startsWith_app_long s p t :
  length p <= length s ->
  JsString.startsWith (s ++ t) p = JsString.startsWith s p.
Proof.
  revert s; induction p as [|c p IH]; intros s; simpl; auto.
  destruct s as [|d s]; simpl; [intros; lia|].
  intros H. rewrite IH by lia. reflexivity.
Qed.

Lemma startsWith_app s p t :
  JsString.startsWith s p = true -> JsString.startsWith (s ++ t) p = true.
Proof.
  intros H. rewrite startsWith_app_long; auto. now apply startsWith_length.
Qed.

Lemma cons_head_not_nil c l : JsString.cons_head c l <> [].
Proof. destruct l; discriminate. Qed.

Lemma split_from_not_nil k s : JsString.split_from sep k s <> [].
Proof.
  revert k; induction s as [|c s IH]; intros k; simpl; [discriminate|].
  destruct k; auto.
  destruct (JsString.startsWith (c :: s) sep);
    [discriminate | apply cons_head_not_nil].
Qed.

Lemma split_not_nil s : JsString.split sep s <> [].
Proof. apply split_from_not_nil. Qed.

Lemma split_from_skip k s :
  k <= length s ->
  JsString.split_from sep k s = JsString.split sep (skipn k s).
Proof.
  revert s; induction k as [|k IH]; intros [|c s]; simpl; auto;
    try (intros; lia).
  intros H. apply IH. lia.
Qed.

(** A separator at the head of the text ends an empty piece. *)
Lemma split_match s :
  JsString.startsWith s sep = true ->
  JsString.split sep s = [] :: JsString.split sep (skipn (length sep) s).
Proof.
  intros H. pose proof (startsWith_length _ _ H) as L.
  destruct s as [|c s].
  - destruct sep; [congruence | discriminate].
  - unfold JsString.split at 1. cbn [JsString.split_from]. rewrite H.
    rewrite split_from_skip by (simpl in L; lia).
    destruct sep as [|d sep']; [congruence|].
    simpl. rewrite Nat.sub_0_r. reflexivity.
Qed.

Lemma split_no_match c s :
  JsString.startsWith (c :: s) sep = false ->
  JsString.split sep (c :: s) = JsString.cons_head c (JsString.split sep s).
Proof.
  intros H. unfold JsString.split. cbn [JsString.split_from]. now rewrite H.
Qed.

Lemma startsWith_short s :
  length s < length sep -> JsString.startsWith s sep = false.
Proof.
  intros L. destruct (JsString.startsWith s sep) eqn:E; auto.
  apply startsWith_length in E. lia.
Qed.

(** A text shorter than the separator is one piece. *)
Lemma split_short s :
  length s < length sep -> JsString.split sep s = [s].
Proof.
  induction s as [|c s IH]; intros L; [reflexivity|].
  rewrite split_no_match by now apply startsWith_short.
  rewrite IH by (simpl in L; lia). reflexivity.
Qed.

(** A text that [split] leaves in one piece is that piece. *)
Lemma split_singleton s x : JsString.split sep s = [x] -> x = s.
Proof.
  revert x; induction s as [|c s IH]; intros x.
  - unfold JsString.split; simpl. congruence.
  - destruct (JsString.startsWith (c :: s) sep) eqn:E.
    + rewrite split_match by exact E.
      pose proof (split_not_nil (skipn (length sep) (c :: s))) as N.
      destruct (JsString.split sep (skipn (length sep) (c :: s)));
        [congruence | discriminate].
    + rewrite split_no_match by exact E.
      pose proof (split_not_nil s) as N.
      destruct (JsString.split sep s) as [|y [|z l]] eqn:S;
        [congruence | | discriminate].
      simpl. intros [= <-]. f_equal. now apply IH.
Qed.

Lemma removelast_cons_head c l :
  2 <= length l ->
  removelast (JsString.cons_head c l)
  = JsString.cons_head c (removelast l)
  /\ last (JsString.cons_head c l) [] = last l [].
Proof. destruct l as [|x [|y l]]; simpl; intros; try lia. auto. Qed.

(** The pieces of [s ++ t]: the complete pieces of [s], then the pieces of
    what [s] left over followed by [t]. *)
Lemma split_app s t :
  JsString.split sep (s ++ t)
  = removelast (JsString.split sep s)
    ++ JsString.split sep (last (JsString.split sep s) [] ++ t).
Proof.
  remember (length s) as n eqn:Hn. revert s Hn.
  induction n as [n IH] using lt_wf_ind. intros s Hn.
  destruct s as [|c s]; [reflexivity|].
  destruct (JsString.startsWith (c :: s) sep) eqn:E.
  - (* a separator at the head *)
    pose proof (startsWith_length _ _ E) as L.
    rewrite (split_match (c :: s)) by exact E.
    rewrite (split_match ((c :: s) ++ t)) by now apply startsWith_app.
    rewrite skipn_app.
    replace (length sep - length (c :: s)) with 0 by lia.
    cbn [skipn].
    assert (D : length (skipn (length sep) (c :: s)) < n).
    { rewrite length_skipn. subst n. destruct sep; [congruence|simpl; lia]. }
    rewrite (IH _ D _ eq_refl).
    pose proof (split_not_nil (skipn (length sep) (c :: s))) as N.
    destruct (JsString.split sep (skipn (length sep) (c :: s))) as [|x l];
      [congruence|].
    reflexivity.
  - destruct (Nat.ltb (length (c :: s)) (length sep)) eqn:Short.
    + (* too short to hold a separator: one piece, all left over *)
      apply Nat.ltb_lt in Short. rewrite (split_short (c :: s)) by exact Short.
      reflexivity.
    + apply Nat.ltb_ge in Short.
      rewrite <- app_comm_cons.
      rewrite split_no_match
        by (rewrite app_comm_cons, startsWith_app_long; auto).
      rewrite split_no_match by exact E.
      assert (D : length s < n) by (subst n; simpl; lia).
      rewrite (IH _ D _ eq_refl).
      pose proof (split_not_nil s) as N.
      destruct (JsString.split sep s) as [|x [|y l]] eqn:S; [congruence| |].
      * (* no separator in [s] either *)
        apply split_singleton in S. subst x. cbn [removelast last app].
        cbn [JsString.cons_head removelast last app].
        rewrite <- split_no_match
          by (rewrite app_comm_cons, startsWith_app_long; auto).
        reflexivity.
      * destruct (removelast_cons_head c (x :: y :: l)) as [-> ->];
          [simpl; lia|].
        reflexivity.
Qed.

End SplitFacts.

(* ================================================================== *)
(** ** The client's SSE stream handler: chunks *)

Section ClientStreamFacts.
  Context {P : Platform}.

Lemma decode_app d v w :
  Client.decode d (v ++ w)
  = let (d1, out1) := Client.decode d v in
    let (d2, out2) := Client.decode d1 w in
    (d2, out1 ++ out2).
Proof.
  revert d; induction v as [|b v IH]; intros d; cbn [app Client.decode].
  - destruct (Client.decode d w); reflexivity.
  - destruct (decoder_byte d b) as [d1 o1]. rewrite IH.
    destruct (Client.decode d1 v) as [d2 o2].
    destruct (Client.decode d2 w) as [d3 o3].
    now rewrite app_assoc.
Qed.

Lemma handle_events_app t es1 es2 :
  Client.handle_events t (es1 ++ es2)
  = let (t1, tr1) := Client.handle_events t es1 in
    let (t2, tr2) := Client.handle_events t1 es2 in
    (t2, tr1 ++ tr2).
Proof.
  revert t; induction es1 as [|e es1 IH]; intros t;
    cbn [app Client.handle_events].
  - destruct (Client.handle_events t es2); reflexivity.
  - destruct (Client.handle_event t e) as [t1 tr1]. rewrite IH.
    destruct (Client.handle_events t1 es1) as [t2 tr2].
    destruct (Client.handle_events t2 es2) as [t3 tr3].
    now rewrite app_assoc.
Qed.

Lemma last_app_not_nil (A : Type) (l1 l2 : list A) d :
  l2 <> [] -> last (l1 ++ l2) d = last l2 d.
Proof.
  intros N. induction l1 as [|x l1 IH]; auto.
  cbn [app]. destruct (l1 ++ l2) eqn:E; [|exact IH].
  apply app_eq_nil in E as [_ E]. congruence.
Qed.

(** Reading [v ++ w] at once is reading [v] and then [w]. *)
Lemma read_chunk_app r t v w :
  Client.read_chunk r t (v ++ w)
  = let '(r1, t1, tr1) := Client.read_chunk r t v in
    let '(r2, t2, tr2) := Client.read_chunk r1 t1 w in
    (r2, t2, tr1 ++ tr2).
Proof.
  unfold Client.read_chunk, Client.pop. rewrite decode_app.
  destruct (Client.decode (Client.decoder r) v) as [d1 o1].
  destruct (Client.handle_events t
              (removelast (JsString.split [LF; LF] (Client.buffer r ++ o1))))
    as [t1 tr1] eqn:E1.
  cbn [Client.decoder Client.buffer].
  destruct (Client.decode d1 w) as [d2 o2].
  rewrite app_assoc, (split_app [LF; LF]) by discriminate.
  rewrite removelast_app, last_app_not_nil
    by (apply split_not_nil; discriminate).
  rewrite handle_events_app, E1.
  destruct (Client.handle_events t1 _) as [t2 tr2].
  reflexivity.
Qed.

Lemma read_chunks_concat r t value values :
  Client.read_chunks r t (value :: values)
  = Client.read_chunk r t (concat (value :: values)).
Proof.
  revert r t value; induction values as [|w values IH]; intros r t value.
  - cbn [concat Client.read_chunks]. rewrite app_nil_r.
    destruct (Client.read_chunk r t value) as [[r1 t1] tr1].
    now rewrite app_nil_r.
  - change (concat (value :: w :: values))
      with (value ++ concat (w :: values)).
    rewrite read_chunk_app.
    change (Client.read_chunks r t (value :: w :: values))
      with (let '(r1, t1, tr1) := Client.read_chunk r t value in
            let '(r2, t2, tr2) := Client.read_chunks r1 t1 (w :: values) in
            (r2, t2, tr1 ++ tr2)).
    destruct (Client.read_chunk r t value) as [[r1 t1] tr1].
    rewrite IH. reflexivity.
Qed.

(** From the start of a stream, the chunks read one by one leave what
    their concatenation read at once leaves. *)
Lemma read_chunks_whole t values :
  Client.read_chunks {| Client.decoder := decoder_new; Client.buffer := [] |}
    t values
  = Client.read_chunks {| Client.decoder := decoder_new; Client.buffer := [] |}
      t [concat values].
Proof.
  destruct values as [|value values].
  - reflexivity.
  - rewrite read_chunks_concat. cbn [Client.read_chunks].
    destruct (Client.read_chunk _ t (concat (value :: values))) as [[r1 t1] tr1].
    now rewrite app_nil_r.
Qed.

Lemma RequestIds_eqb_refl ids : RequestIds_eqb ids ids = true.
Proof.
  induction ids as [|i ids IH]; simpl; auto.
  now rewrite RequestId_eqb_refl, IH.
Qed.

Lemma StreamId_eqb_refl sid : StreamId_eqb sid sid = true.
Proof.
  destruct sid; simpl.
  - apply Nat.eqb_refl.
  - now rewrite RequestIds_eqb_refl, Nat.eqb_refl.
Qed.

Lemma delete_set_stream (m : JsMap.t StreamId BodyStream) sid stream :
  JsMap.delete StreamId_eqb (JsMap.set StreamId_eqb m sid stream) sid
  = JsMap.delete StreamId_eqb m sid.
Proof.
  unfold JsMap.delete.
  induction m as [|[k v] m IH]; cbn [JsMap.set filter fst].
  - now rewrite StreamId_eqb_refl.
  - destruct (StreamId_eqb k sid) eqn:E; cbn [filter fst]; rewrite E;
      cbn [negb]; [reflexivity | now rewrite IH].
Qed.

(** Reading a stream does not look at [_activeStreams]. *)
Lemma handle_event_streams t m e :
  Client.handle_event (Client.with_streams t m) e
  = let (t1, tr) := Client.handle_event t e in (Client.with_streams t1 m, tr).
Proof.
  unfold Client.handle_event.
  destruct (truthy_opt (Client.id (Client.parse_event e)));
    destruct (Client.data (Client.parse_event e)) as [[|c d]|];
    try reflexivity;
    (destruct (_ || _); [|reflexivity]);
    (destruct (JSON_parse (c :: d)); [|reflexivity]);
    destruct (JSONRPCMessageSchema_parse _); reflexivity.
Qed.

Lemma handle_events_streams t m es :
  Client.handle_events (Client.with_streams t m) es
  = let (t1, tr) := Client.handle_events t es in (Client.with_streams t1 m, tr).
Proof.
  revert t; induction es as [|e es IH]; intros t; cbn [Client.handle_events].
  - reflexivity.
  - rewrite handle_event_streams.
    destruct (Client.handle_event t e) as [t1 tr1]. rewrite IH.
    destruct (Client.handle_events t1 es); reflexivity.
Qed.

Lemma read_chunks_streams r t m values :
  Client.read_chunks r (Client.with_streams t m) values
  = let '(r1, t1, tr) := Client.read_chunks r t values in
    (r1, Client.with_streams t1 m, tr).
Proof.
  revert r t; induction values as [|v values IH]; intros r t;
    cbn [Client.read_chunks].
  - reflexivity.
  - unfold Client.read_chunk.
    destruct (Client.decode (Client.decoder r) v) as [d o].
    destruct (Client.pop _) as [es b].
    rewrite handle_events_streams.
    destruct (Client.handle_events t es) as [t1 tr1]. rewrite IH.
    destruct (Client.read_chunks _ t1 values) as [[r2 t2] tr2]. reflexivity.
Qed.

(** What [_handleSseStream] leaves: what reading the chunks leaves, and the
    stream id gone from [_activeStreams]. *)
Lemma handleSseStream_reads t stream sid :
  Client._handleSseStream t (Some stream) sid
  = let '(_, t1, tr) :=
      Client.read_chunks
        {| Client.decoder := decoder_new; Client.buffer := [] |}
        t (chunks stream) in
    (Client.with_streams t1
       (JsMap.delete StreamId_eqb (Client._activeStreams t) sid),
     tr ++ if broken stream then [OnError NetworkError] else []).
Proof.
  unfold Client._handleSseStream, Client.processStream.
  rewrite read_chunks_streams.
  destruct (Client.read_chunks _ t (chunks stream)) as [[r1 t1] tr1].
  cbn [Client._activeStreams Client.with_streams].
  rewrite delete_set_stream. reflexivity.
Qed.

(** C7.  Whatever way the bytes of a stream are cut into chunks, the
    client's SSE stream handler calls the callbacks with the same messages
    and errors, in the same order, and leaves the transport, its last event
    id included, as when the whole stream comes as one chunk. *)
Theorem sse_chunking_invariant t sid values ends_broken :
  Client._handleSseStream t
    (Some {| chunks := values; broken := ends_broken |}) sid
  = Client._handleSseStream t
      (Some {| chunks := [concat values]; broken := ends_broken |}) sid.
Proof.
  rewrite !handleSseStream_reads. cbn [chunks broken].
  now rewrite read_chunks_whole.
Qed.

End ClientStreamFacts.

(* ================================================================== *)
(** ** The client's SSE codec: the fields of a line *)

Section TrimFacts.

Lemma forallb_rev (A : Type) (f : A -> bool) l :
  forallb f (rev l) = forallb f l.
Proof.
  destruct (forallb f l) eqn:E.
  - apply forallb_forall. intros x Hx. apply in_rev in Hx.
    revert x Hx. now apply forallb_forall.
  - destruct (forallb f (rev l)) eqn:E'; auto.
    assert (forallb f l = true); [|congruence].
    apply forallb_forall. intros x Hx. apply in_rev in Hx.
    revert x Hx. now apply forallb_forall.
Qed.

Lemma trimStart_spec s :
  exists l,
    s = l ++ JsString.trimStart s
    /\ forallb JsString.isWhiteSpace l = true
    /\ (forall c u, JsString.trimStart s = c :: u ->
                    JsString.isWhiteSpace c = false).
Proof.
  induction s as [|c s (l & E & W & H)]; cbn [JsString.trimStart].
  - exists []. repeat split; auto. discriminate.
  - destruct (JsString.isWhiteSpace c) eqn:Wc.
    + exists (c :: l). cbn [app forallb]. rewrite Wc, W.
      repeat split; auto. now f_equal.
    + exists []. repeat split; auto. intros ? ? [= <- <-]. exact Wc.
Qed.

(** White space before a text that ends with none does not reach its end. *)
Lemma trimStart_keeps_end s c :
  JsString.isWhiteSpace c = false ->
  exists u, JsString.trimStart (s ++ [c]) = u ++ [c].
Proof.
  intros Wc. induction s as [|d s [u E]]; cbn [app JsString.trimStart].
  - rewrite Wc. now exists [].
  - destruct (JsString.isWhiteSpace d).
    + now exists u.
    + now exists (d :: s).
Qed.

Lemma trim_spec s : trimmed s (JsString.trim s).
Proof.
  unfold trimmed, JsString.trim, JsString.trimEnd.
  destruct (trimStart_spec s) as (l & El & Wl & Hl).
  set (u := JsString.trimStart s) in *.
  destruct (trimStart_spec (rev u)) as (r & Er & Wr & Hr).
  set (w := JsString.trimStart (rev u)) in *.
  exists l, (rev r). split; [|split; [|split; [|split]]].
  - rewrite El at 1. f_equal. rewrite <- rev_app_distr, <- Er.
    now rewrite rev_involutive.
  - exact Wl.
  - now rewrite forallb_rev.
  - intros c v' E.
    destruct u as [|c0 u'] eqn:U.
    + (* nothing left of [s] *)
      cbn in w. subst w. discriminate.
    + specialize (Hl c0 u' eq_refl).
      destruct (trimStart_keeps_end (rev u') c0 Hl) as [x X].
      change (rev (c0 :: u')) with (rev u' ++ [c0]) in w.
      subst w. rewrite X, rev_app_distr in E. cbn in E.
      injection E as <- _. exact Hl.
  - intros c v' E. apply (f_equal (@rev _)) in E.
    rewrite rev_involutive, rev_app_distr in E. cbn in E.
    now apply (Hr c (rev v')).
Qed.

(** White space, then a text that does not begin with white space: the
    two parts are determined by the whole. *)
Lemma leading_space_unique l l' a a' :
  l ++ a = l' ++ a' ->
  forallb JsString.isWhiteSpace l = true ->
  forallb JsString.isWhiteSpace l' = true ->
  (forall c u, a = c :: u -> JsString.isWhiteSpace c = false) ->
  (forall c u, a' = c :: u -> JsString.isWhiteSpace c = false) ->
  l = l' /\ a = a'.
Proof.
  revert l'; induction l as [|x l IH]; intros [|y l'] E W W' H H';
    cbn [app forallb] in *.
  - auto.
  - apply andb_true_iff in W' as [Wy _].
    rewrite (H y (l' ++ a') E) in Wy. discriminate.
  - apply andb_true_iff in W as [Wx _].
    rewrite (H' x (l ++ a) (eq_sym E)) in Wx. discriminate.
  - injection E as -> E.
    apply andb_true_iff in W as [_ W]. apply andb_true_iff in W' as [_ W'].
    destruct (IH l' E W W' H H') as [-> ->]. auto.
Qed.

Lemma no_text_in_space l r c v :
  forallb JsString.isWhiteSpace l = true ->
  forallb JsString.isWhiteSpace r = true ->
  JsString.isWhiteSpace c = false ->
  ~ In c (l ++ r) /\ forall l' r', l ++ r <> l' ++ (c :: v) ++ r'.
Proof.
  intros Wl Wr Wc.
  assert (N : ~ In c (l ++ r)).
  { intros I. apply in_app_or in I as [I|I];
      [rewrite forallb_forall in Wl; apply Wl in I
      |rewrite forallb_forall in Wr; apply Wr in I]; congruence. }
  split; [exact N|]. intros l' r' E. apply N. rewrite E.
  apply in_or_app. right. now left.
Qed.

(** What [trimmed] leaves of a text is one text only. *)
Lemma trimmed_unique s v v' : trimmed s v -> trimmed s v' -> v = v'.
Proof.
  intros (l & r & E & Wl & Wr & Hh & Hl) (l' & r' & E' & Wl' & Wr' & Hh' & Hl').
  destruct v as [|c v], v' as [|c' v']; auto.
  - exfalso. cbn [app] in E.
    destruct (no_text_in_space l r c' v' Wl Wr (Hh' c' v' eq_refl)) as [_ N].
    apply (N l' r'). congruence.
  - exfalso. cbn [app] in E'.
    destruct (no_text_in_space l' r' c v Wl' Wr' (Hh c v eq_refl)) as [_ N].
    apply (N l r). congruence.
  - assert (F : l ++ (c :: v) ++ r = l' ++ (c' :: v') ++ r') by congruence.
    apply leading_space_unique in F as [_ F]; auto;
      try (intros d u [= <- _]; eauto).
    apply (f_equal (@rev _)) in F. rewrite !rev_app_distr in F.
    apply leading_space_unique in F as [_ F];
      try (rewrite forallb_rev; assumption).
    + apply (f_equal (@rev _)) in F. now rewrite !rev_involutive in F.
    + intros d u Ed. apply (Hl d (rev u)).
      apply (f_equal (@rev _)) in Ed. rewrite rev_involutive in Ed.
      rewrite Ed. reflexivity.
    + intros d u Ed. apply (Hl' d (rev u)).
      apply (f_equal (@rev _)) in Ed. rewrite rev_involutive in Ed.
      rewrite Ed. reflexivity.
Qed.

End TrimFacts.

Section ClientLineClaims.

Lemma not_id_when_event line :
  JsString.startsWith line (js "event:") = true ->
  JsString.startsWith line (js "id:") = false.
Proof.
  destruct line as [|c line]; [discriminate|].
  cbn. destruct (N.eqb_spec c 101); [subst c; reflexivity | discriminate].
Qed.

Lemma not_id_when_data line :
  JsString.startsWith line (js "data:") = true ->
  JsString.startsWith line (js "id:") = false.
Proof.
  destruct line as [|c line]; [discriminate|].
  cbn. destruct (N.eqb_spec c 100); [subst c; reflexivity | discriminate].
Qed.

Lemma not_event_when_data line :
  JsString.startsWith line (js "data:") = true ->
  JsString.startsWith line (js "event:") = false.
Proof.
  destruct line as [|c line]; [discriminate|].
  cbn. destruct (N.eqb_spec c 100); [subst c; reflexivity | discriminate].
Qed.

(** [v] is the one text that [trimmed] leaves of [s]. *)
Lemma trim_is_the_trimmed s :
  trimmed s (JsString.trim s)
  /\ forall v, trimmed s v -> v = JsString.trim s.
Proof.
  split; [apply trim_spec|].
  intros v H. exact (trimmed_unique s v _ H (trim_spec s)).
Qed.

(** C9, as amended.  For a line that begins with "id:", "event:" or
    "data:", the codec takes as the field's value the rest of the line
    without the white space at its two ends (all of it, not one space): the
    one text [v] that [trimmed] leaves of the rest; the other fields are
    kept.  A line that begins with none of the three is ignored. *)
Theorem sse_line_fields f line :
  (JsString.startsWith line (js "id:") = true ->
     exists v,
       trimmed (JsString.slice 3 line) v
       /\ (forall v', trimmed (JsString.slice 3 line) v' -> v' = v)
       /\ Client.parse_line f line
          = {| Client.id := Some v;
               Client.eventType := Client.eventType f;
               Client.data := Client.data f |})
  /\ (JsString.startsWith line (js "event:") = true ->
        exists v,
          trimmed (JsString.slice 6 line) v
          /\ (forall v', trimmed (JsString.slice 6 line) v' -> v' = v)
          /\ Client.parse_line f line
             = {| Client.id := Client.id f;
                  Client.eventType := Some v;
                  Client.data := Client.data f |})
  /\ (JsString.startsWith line (js "data:") = true ->
        exists v,
          trimmed (JsString.slice 5 line) v
          /\ (forall v', trimmed (JsString.slice 5 line) v' -> v' = v)
          /\ Client.parse_line f line
             = {| Client.id := Client.id f;
                  Client.eventType := Client.eventType f;
                  Client.data := Some v |})
  /\ (JsString.startsWith line (js "id:") = false ->
      JsString.startsWith line (js "event:") = false ->
      JsString.startsWith line (js "data:") = false ->
      Client.parse_line f line = f).
Proof.
  unfold Client.parse_line. split; [|split; [|split]].
  - intros H. exists (JsString.trim (JsString.slice 3 line)).
    destruct (trim_is_the_trimmed (JsString.slice 3 line)) as [T U].
    rewrite H. auto.
  - intros H. exists (JsString.trim (JsString.slice 6 line)).
    destruct (trim_is_the_trimmed (JsString.slice 6 line)) as [T U].
    rewrite (not_id_when_event line H), H. auto.
  - intros H. exists (JsString.trim (JsString.slice 5 line)).
    destruct (trim_is_the_trimmed (JsString.slice 5 line)) as [T U].
    rewrite (not_id_when_data line H), (not_event_when_data line H), H. auto.
  - intros -> -> ->. reflexivity.
Qed.

(** C9 as stated fails: of the line "data:  x " the codec keeps "x", where
    stripping the prefix and one leading space leaves " x ". *)
Lemma sse_value_loses_more_than_one_space :
  JsString.startsWith (js "data:  x ") (js "data:") = true
  /\ Client.data (Client.parse_line Client.no_fields (js "data:  x "))
     = Some (js "x")
  /\ spec_field_value 5 (js "data:  x ") = js " x "
  /\ js "x" <> js " x ".
Proof. vm_compute. repeat split; auto. discriminate. Qed.

End ClientLineClaims.

(* ================================================================== *)
(** ** Round trips between the two transports *)

Section FrameFacts.






End FrameFacts.

Section RoundTrip.
  Context {P : Platform}.






End RoundTrip.

Section RoundTripClaims.
  Context {P : Platform}.







End RoundTripClaims.

Section RoundTripExamples.
  #[local] Existing Instance Demo.platform.




(** The round trip at work: the server's reply to request 2, cut in three
    chunks, reaches the client's [onmessage]; the client's request 3 reaches
    the server's. *)
Example round_trip_runs :
  let st := Demo.stateful [(IdNumber 2, 7)] in
  let ct := Client.with_sessionId (Client.new false) (Some Demo.S1) in
  let w := {| fetch_answers := []; auth_answers := [];
              access_token := None; now := 0 |} in
  let frame := Demo.written_to 7 (snd (fst (Server.send st (Demo.pong 2) None))) in
  snd (Client._handleSseStream ct
         (Some {| chunks := [firstn 9 frame; firstn 30 (skipn 9 frame);
                             skipn 39 frame];
                  broken := false |})
         (RequestStream [IdNumber 2] 0))
  = [OnMessage (Demo.pong 2)]
  /\ filter is_onmessage
       (snd (Server.handleRequest st
               (Client.post_request ct w (Single (Demo.ping 3))) 8 None))
     = [OnMessage (Demo.ping 3)].
Proof. vm_compute. split; reflexivity. Qed.


End RoundTripExamples.

(* ================================================================== *)
(** ** The client's [send]: 401 and the auth flow *)

Section ClientAuthClaims.
  Context {P : Platform}.

(** C6, as amended.  With an auth provider, a POST answered 401 is followed
    by the auth flow and, when that is AUTHORIZED, by [send] called again
    with the same message.  The repeated [send] is a [send] like any other:
    when [n] answers in a row are 401, each followed by an AUTHORIZED auth
    flow, and the next answer is 202, [send] returns after [n + 1] POSTs of the
    message and [n] auth flows, for every [n]; the calls are not bounded by
    one repetition. *)
Theorem send_repeats_after_every_401 n :
  forall ct w message fetches auths tokens fuel,
  Client._authProvider ct = true ->
  fetch_answers w = repeat (Some (answer 401)) n ++ Some (answer 202) :: fetches ->
  auth_answers w = repeat (AuthReturns AUTHORIZED tokens) n ++ auths ->
  n < fuel ->
  exists ct' w' tr,
    Client.send fuel ct w message = Some (ct', w', tr, Ok tt)
    /\ length (filter is_fetch tr) = S n
    /\ length (filter is_auth_flow tr) = n
    /\ (forall req, In (Fetch req) tr ->
                    req_body req = Some (JSON_stringify message))
    /\ fetch_answers w' = fetches
    /\ auth_answers w' = auths.
Proof.
  induction n as [|n IH]; intros ct w message fetches auths tokens fuel
    Hprov Hfetch Hauth Hfuel;
    (destruct fuel as [|fuel]; [lia|]);
    cbn [repeat app] in Hfetch, Hauth; cbn [Client.send];
    unfold Client.next_fetch; rewrite Hfetch.
  - change (negb (ok (answer 202))) with false.
    change (Nat.eqb (status (answer 202)) 202) with true.
    change (truthy_opt (resp_mcp_session_id (answer 202))) with false.
    cbn iota. do 3 eexists. split; [reflexivity|].
    cbn. repeat split; auto.
    intros req [[= <-]|[]]. reflexivity.
  - change (negb (ok (answer 401))) with true.
    change (Nat.eqb (status (answer 401)) 401) with true.
    change (truthy_opt (resp_mcp_session_id (answer 401))) with false.
    cbn iota. rewrite Hprov. cbn [andb].
    unfold Client.next_auth. cbn [auth_answers]. rewrite Hauth.
    match goal with
    | |- context [Client.send fuel ct ?w2 message] =>
        destruct (IH ct w2 message fetches auths tokens fuel)
          as (ct' & w' & tr & E & Hf & Ha & Hb & Hw1 & Hw2);
        [exact Hprov | reflexivity | reflexivity | lia |]
    end.
    rewrite E. do 3 eexists. split; [reflexivity|].
    cbn [app filter is_fetch is_auth_flow length].
    repeat split; auto.
    intros req [[= <-]|[[=]|I]]; [reflexivity | now apply Hb].
Qed.

End ClientAuthClaims.

Section ClientAuthExamples.
  #[local] Existing Instance Demo.platform.

(** C6, at two 401 answers in a row. *)
Lemma send_repeats_after_every_401_witness :
  let ct := Client.new true in
  let w := {| fetch_answers := [Some (answer 401); Some (answer 401);
                                Some (answer 202)];
              auth_answers := [AuthReturns AUTHORIZED (Some (js "token"));
                               AuthReturns AUTHORIZED (Some (js "token"))];
              access_token := None; now := 0 |} in
  let message := Single (Demo.ping 2) in
  exists ct' w' tr,
    Client.send 3 ct w message = Some (ct', w', tr, Ok tt)
    /\ length (filter is_fetch tr) = 3
    /\ length (filter is_auth_flow tr) = 2
    /\ (forall req, In (Fetch req) tr ->
                    req_body req = Some (JSON_stringify message))
    /\ fetch_answers w' = []
    /\ auth_answers w' = [].
Proof.
  apply (@send_repeats_after_every_401 Demo.platform 2 (Client.new true) _
           (Single (Demo.ping 2)) [] [] (Some (js "token")) 3);
    try reflexivity.
  lia.
Defined.

(** C6 as stated fails: the resend after the first 401 is answered 401
    too; the auth flow runs again and the message is posted a third time. *)
Lemma second_401_is_retried_too :
  let ct := Client.new true in
  let w := {| fetch_answers := [Some (answer 401); Some (answer 401);
                                Some (answer 202)];
              auth_answers := [AuthReturns AUTHORIZED (Some (js "token"));
                               AuthReturns AUTHORIZED (Some (js "token"))];
              access_token := None; now := 0 |} in
  let message := Single (Demo.ping 2) in
  exists ct' w' r1 r2 r3,
    Client.send 3 ct w message
    = Some (ct', w', [Fetch r1; AuthFlow; Fetch r2; AuthFlow; Fetch r3], Ok tt)
    /\ req_body r1 = Some (JSON_stringify message)
    /\ req_body r2 = Some (JSON_stringify message)
    /\ req_body r3 = Some (JSON_stringify message).
Proof. vm_compute. do 5 eexists. repeat split. Qed.

End ClientAuthExamples.

(* ================================================================== *)
(** ** The server transport: answers at the boundaries *)

Section ServerBoundaries.
  Context {P : Platform}.

(** Stateless mode: an initialized server without session id checks no
    header, and the head of its SSE answers carries no session id. *)
Theorem stateless_session_never_checked t req res :
  Server.sessionId t = None ->
  Server._initialized t = true ->
  Server.validateSession t req res = (true, [])
  /\ Server.sse_headers t
     = [ (js "Content-Type", js "text/event-stream");
         (js "Cache-Control", js "no-cache");
         (js "Connection", js "keep-alive") ].
Proof.
  intros Hsid Hinit. unfold Server.validateSession, Server.sse_headers.
  rewrite Hsid, Hinit. split; reflexivity.
Qed.

(** Before initialize, a DELETE is answered 400, "Bad Request: Server not
    initialized", and nothing is closed. *)
Theorem delete_before_initialize_rejected t req res :
  Server._initialized t = false ->
  Server.handleDeleteRequest t req res
  = (t, [ ResWriteHead res 400 [];
          ResEnd res (Some {| code := -32000;
                              message := js "Bad Request: Server not initialized";
                              data := None |}) ]).
Proof.
  intros Hinit. unfold Server.handleDeleteRequest, Server.validateSession.
  rewrite Hinit. reflexivity.
Qed.

(** A stateful server answers a session id other than its own with 404,
    "Session not found", on POST (no initialize in the body) and leaves the
    transport as it was. *)
Theorem post_with_other_session_is_404 t req res parsedBody raw msgs mine theirs :
  Server.acceptable req = true ->
  Server.rawMessage req parsedBody = Ok raw ->
  parse_messages raw = Ok msgs ->
  existsb Server.isInitialize msgs = false ->
  Server._initialized t = true ->
  Server.sessionId t = Some mine ->
  req_mcp_session_id req = HeaderSingle theirs ->
  theirs <> [] ->
  theirs <> mine ->
  Server.handlePostRequest t req res parsedBody
  = (t, [ ResWriteHead res 404 [];
          ResEnd res (Some {| code := -32001;
                              message := js "Session not found";
                              data := None |}) ]).
Proof.
  intros Hacc Hraw Hparse Hinit Hdone Hsid Hreq Hne Hdiff.
  unfold Server.handlePostRequest.
  destruct (acceptable_passes req Hacc) as [-> ->].
  rewrite Hraw, Hparse, Hinit. unfold Server.validateSession.
  rewrite Hdone, Hsid, Hreq. cbn [negb].
  destruct theirs as [|c theirs]; [congruence|].
  destruct (JsString.eqb (c :: theirs) mine) eqn:E.
  - apply JsString_eqb_eq in E. congruence.
  - reflexivity.
Qed.

(** A batch of notifications and responses only is answered 202 with an
    empty body before its messages are delivered, in order; the transport
    stays as it was. *)
Theorem post_notifications_accepted t req res parsedBody raw msgs :
  Server.acceptable req = true ->
  Server.rawMessage req parsedBody = Ok raw ->
  parse_messages raw = Ok msgs ->
  existsb Server.isInitialize msgs = false ->
  fst (Server.validateSession t req res) = true ->
  forallb Server.isNotificationOrResponse msgs = true ->
  Server.handlePostRequest t req res parsedBody
  = (t, [ResWriteHead res 202 []; ResEnd res None] ++ List.map OnMessage msgs).
Proof.
  intros Hacc Hraw Hparse Hinit Hvalid Honly.
  unfold Server.handlePostRequest.
  destruct (acceptable_passes req Hacc) as [-> ->].
  rewrite Hraw, Hparse, Hinit, (validateSession_true t req res Hvalid), Honly.
  reflexivity.
Qed.

(** A method other than POST and DELETE is answered 405 with [Allow: POST,
    DELETE]. *)
Theorem other_methods_not_allowed t req res parsedBody :
  req_method req <> js "POST" ->
  req_method req <> js "DELETE" ->
  Server.handleRequest t req res parsedBody
  = (t, [ ResWriteHead res 405 [(js "Allow", js "POST, DELETE")];
          ResEnd res (Some {| code := -32000;
                              message := js "Method not allowed.";
                              data := None |}) ]).
Proof.
  intros Hpost Hdelete. unfold Server.handleRequest.
  destruct (JsString.eqb (req_method req) (js "POST")) eqn:E1;
    [apply JsString_eqb_eq in E1; congruence|].
  destruct (JsString.eqb (req_method req) (js "DELETE")) eqn:E2;
    [apply JsString_eqb_eq in E2; congruence|].
  reflexivity.
Qed.

End ServerBoundaries.

Section ServerBoundaryExamples.
  #[local] Existing Instance Demo.platform.

Lemma stateless_session_never_checked_witness :
  let t := {| Server._started := true;
              Server._sseResponseMapping := [];
              Server._initialized := true;
              Server.sessionId := None;
              Server.sessionIdGenerator := fun _ => None |} in
  let req := Demo.post (HeaderSingle (js "anything")) None in
  Server.validateSession t req 7 = (true, [])
  /\ Server.sse_headers t
     = [ (js "Content-Type", js "text/event-stream");
         (js "Cache-Control", js "no-cache");
         (js "Connection", js "keep-alive") ].
Proof.
  apply stateless_session_never_checked; reflexivity.
Defined.

Lemma delete_before_initialize_rejected_witness :
  let t := Server.new (fun _ => Some Demo.S1) in
  Server.handleDeleteRequest t (Demo.delete (HeaderSingle Demo.S1)) 7
  = (t, [ ResWriteHead 7 400 [];
          ResEnd 7 (Some {| code := -32000;
                            message := js "Bad Request: Server not initialized";
                            data := None |}) ]).
Proof.
  apply delete_before_initialize_rejected; reflexivity.
Defined.

Lemma post_with_other_session_is_404_witness :
  let t := Demo.stateful [] in
  let req := Demo.post (HeaderSingle (js "S2"))
               (Some (JSON_stringify (Single (Demo.ping 2)))) in
  Server.handlePostRequest t req 7 None
  = (t, [ ResWriteHead 7 404 [];
          ResEnd 7 (Some {| code := -32001;
                            message := js "Session not found";
                            data := None |}) ]).
Proof.
  apply (@post_with_other_session_is_404 Demo.platform) with
    (raw := Demo.to_json (Demo.ping 2)) (msgs := [Demo.ping 2])
    (mine := Demo.S1) (theirs := js "S2");
    try (vm_compute; reflexivity); discriminate.
Defined.

Lemma post_notifications_accepted_witness :
  let t := Demo.stateful [] in
  let msgs := [Demo.initialized_notification] in
  let req := Demo.post (HeaderSingle Demo.S1)
               (Some (JSON_stringify (Single Demo.initialized_notification))) in
  Server.handlePostRequest t req 7 None
  = (t, [ResWriteHead 7 202 []; ResEnd 7 None] ++ List.map OnMessage msgs).
Proof.
  apply (@post_notifications_accepted Demo.platform) with
    (raw := Demo.to_json Demo.initialized_notification);
    vm_compute; reflexivity.
Defined.

Lemma other_methods_not_allowed_witness :
  let t := Demo.stateful [] in
  let req := {| req_method := js "GET";
                req_accept := Some (js "text/event-stream");
                req_content_type := None;
                req_mcp_session_id := HeaderSingle Demo.S1;
                req_authorization := None;
                req_last_event_id := None;
                req_body := None |} in
  Server.handleRequest t req 7 None
  = (t, [ ResWriteHead 7 405 [(js "Allow", js "POST, DELETE")];
          ResEnd 7 (Some {| code := -32000;
                            message := js "Method not allowed.";
                            data := None |}) ]).
Proof.
  apply (@other_methods_not_allowed Demo.platform); discriminate.
Defined.

End ServerBoundaryExamples.
(* ================================================================== *)
(** ** The server transport over a sequence of calls: what every run keeps *)

Section TraceReadings.

Lemma heads_app tr1 tr2 :
  ServerRun.heads (tr1 ++ tr2) = ServerRun.heads tr1 ++ ServerRun.heads tr2.
Proof.
  induction tr1 as [|e tr1 IH]; [reflexivity|].
  destruct e; cbn [app ServerRun.heads]; rewrite IH; reflexivity.
Qed.

Lemma ends_app tr1 tr2 :
  ServerRun.ends (tr1 ++ tr2) = ServerRun.ends tr1 ++ ServerRun.ends tr2.
Proof.
  induction tr1 as [|e tr1 IH]; [reflexivity|].
  destruct e; cbn [app ServerRun.ends]; rewrite IH; reflexivity.
Qed.

Lemma writes_app tr1 tr2 :
  ServerRun.writes (tr1 ++ tr2) = ServerRun.writes tr1 ++ ServerRun.writes tr2.
Proof.
  induction tr1 as [|e tr1 IH]; [reflexivity|].
  destruct e; cbn [app ServerRun.writes]; rewrite IH; reflexivity.
Qed.

Lemma streams_app tr1 tr2 :
  ServerRun.streams (tr1 ++ tr2)
  = ServerRun.streams tr1 ++ ServerRun.streams tr2.
Proof. unfold ServerRun.streams. now rewrite filter_app, heads_app. Qed.

Lemma listens_app tr1 tr2 res :
  ServerRun.listens (tr1 ++ tr2) res
  = ServerRun.listens tr1 res || ServerRun.listens tr2 res.
Proof. unfold ServerRun.listens. apply existsb_app. Qed.

Lemma streams_are_heads tr res :
  In res (ServerRun.streams tr) -> In res (ServerRun.heads tr).
Proof.
  unfold ServerRun.streams. induction tr as [|e tr IH]; [auto|].
  cbn [filter]. destruct (writes_event_stream e) eqn:W.
  - destruct e; try discriminate. cbn. intros [H|H]; auto.
  - intros H. apply IH in H. destruct e; cbn; auto.
Qed.

Lemma quiet_sets res ids :
  let tr := List.map (fun i => MappingSet i res) ids in
  ServerRun.heads tr = [] /\ ServerRun.ends tr = [] /\ ServerRun.writes tr = []
  /\ ServerRun.listens tr res = false.
Proof. induction ids as [|i ids IH]; cbn in *; auto. Qed.

Lemma quiet_deliveries msgs res :
  let tr := List.map OnMessage msgs in
  ServerRun.heads tr = [] /\ ServerRun.ends tr = [] /\ ServerRun.writes tr = []
  /\ ServerRun.listens tr res = false.
Proof. induction msgs as [|m msgs IH]; cbn in *; auto. Qed.

Lemma quiet_deletes (es : list (RequestId * Res)) res :
  let tr := List.map (fun e => MappingDelete (fst e)) es in
  ServerRun.heads tr = [] /\ ServerRun.ends tr = [] /\ ServerRun.writes tr = []
  /\ ServerRun.listens tr res = false.
Proof. induction es as [|e es IH]; cbn in *; auto. Qed.

Lemma ends_of_closing (rs : list Res) :
  let tr := List.map (fun response => ResEnd response None) rs in
  ServerRun.heads tr = [] /\ ServerRun.ends tr = rs /\ ServerRun.writes tr = [].
Proof.
  induction rs as [|r rs (H & E & W)]; cbn in *; auto.
  repeat split; auto. now f_equal.
Qed.

End TraceReadings.

Section RoutingTableFacts.

Lemma In_set (m : JsMap.t RequestId Res) i v k r :
  In (k, r) (JsMap.set RequestId_eqb m i v) ->
  (k = i /\ r = v) \/ In (k, r) m.
Proof.
  induction m as [|[k0 v0] m IH]; cbn [JsMap.set].
  - intros [[= <- <-]|[]]. auto.
  - destruct (RequestId_eqb k0 i) eqn:E.
    + apply RequestId_eqb_eq in E. subst k0.
      intros [[= <- <-]|H]; [auto | right; now right].
    + intros [H|H]; [right; now left|].
      destruct (IH H) as [?|?]; [auto | right; now right].
Qed.

Lemma keys_set (m : JsMap.t RequestId Res) i v k :
  In k (JsMap.keys (JsMap.set RequestId_eqb m i v))
  <-> k = i \/ In k (JsMap.keys m).
Proof.
  unfold JsMap.keys. induction m as [|[k0 v0] m IH]; cbn [JsMap.set List.map fst In].
  - intuition.
  - destruct (RequestId_eqb k0 i) eqn:E; cbn [List.map fst In].
    + apply RequestId_eqb_eq in E. subst k0. intuition.
    + rewrite IH. intuition.
Qed.

Lemma NoDup_keys_set (m : JsMap.t RequestId Res) i v :
  NoDup (JsMap.keys m) -> NoDup (JsMap.keys (JsMap.set RequestId_eqb m i v)).
Proof.
  unfold JsMap.keys. induction m as [|[k0 v0] m IH]; intros N;
    cbn [JsMap.set List.map fst].
  - constructor; [intros [] | constructor].
  - inversion N as [|? ? Hn Hm]; subst.
    destruct (RequestId_eqb k0 i) eqn:E; cbn [List.map fst].
    + constructor; auto.
    + constructor; [|auto].
      intros H. apply (keys_set m i v k0) in H as [H|H]; [|auto].
      subst k0. now rewrite RequestId_eqb_refl in E.
Qed.

Lemma NoDup_keys_filter (m : JsMap.t RequestId Res) f :
  NoDup (JsMap.keys m) -> NoDup (JsMap.keys (filter f m)).
Proof.
  unfold JsMap.keys. induction m as [|[k0 v0] m IH]; intros N; cbn [filter].
  - constructor.
  - inversion N as [|? ? Hn Hm]; subst.
    destruct (f (k0, v0)); cbn [List.map fst]; auto.
    constructor; auto.
    intros H. apply Hn. apply in_map_iff in H as ((k, r) & Ek & H).
    apply filter_In in H as [H _]. apply in_map_iff. now exists (k, r).
Qed.

Lemma get_of_In (m : JsMap.t RequestId Res) k r :
  NoDup (JsMap.keys m) -> In (k, r) m ->
  JsMap.get RequestId_eqb m k = Some r.
Proof.
  unfold JsMap.keys. induction m as [|[k0 v0] m IH]; intros N; [intros []|].
  inversion N as [|? ? Hn Hm]; subst. cbn [JsMap.get In].
  intros [[= -> ->]|H].
  - now rewrite RequestId_eqb_refl.
  - destruct (RequestId_eqb k0 k) eqn:E; [|auto].
    apply RequestId_eqb_eq in E. subst k0. exfalso. apply Hn.
    apply in_map_iff. now exists (k, r).
Qed.

End RoutingTableFacts.

Section ServerAnswers.
  Context {P : Platform}.

Lemma quiet_nil : ServerRun.quiet [].
Proof. repeat split. Qed.

Lemma quiet_app tr1 tr2 :
  ServerRun.quiet tr1 -> ServerRun.quiet tr2 -> ServerRun.quiet (tr1 ++ tr2).
Proof.
  intros (H1 & E1 & W1 & L1) (H2 & E2 & W2 & L2). unfold ServerRun.quiet.
  rewrite heads_app, ends_app, writes_app, H1, H2, E1, E2, W1, W2.
  repeat split. intros res. now rewrite listens_app, L1, L2.
Qed.

Lemma quiet_map_sets res ids :
  ServerRun.quiet (List.map (fun i => MappingSet i res) ids).
Proof. induction ids as [|i ids IH]; [apply quiet_nil | exact IH]. Qed.

Lemma quiet_map_deliveries msgs : ServerRun.quiet (List.map OnMessage msgs).
Proof. induction msgs as [|m msgs IH]; [apply quiet_nil | exact IH]. Qed.

Lemma quiet_map_deletes (es : list (RequestId * Res)) :
  ServerRun.quiet (List.map (fun e => MappingDelete (fst e)) es).
Proof. induction es as [|e es IH]; [apply quiet_nil | exact IH]. Qed.

Lemma quiet_no_stream tr : ServerRun.quiet tr -> ServerRun.streams tr = [].
Proof.
  intros (H & _). unfold ServerRun.streams.
  induction tr as [|e tr IH]; [reflexivity|].
  destruct e; cbn in *; try discriminate; auto.
Qed.

(** Every message is a request, a notification or a response: a batch
    that is not made of notifications and responses only holds a request. *)
Lemma not_only_notifications_has_request msgs :
  forallb Server.isNotificationOrResponse msgs = false ->
  existsb isRequest msgs = true.
Proof.
  induction msgs as [|m msgs IH]; cbn [forallb existsb]; [discriminate|].
  destruct m; cbn; auto.
Qed.

Lemma validateSession_cases t req res :
  (Server.validateSession t req res = (true, [])
   /\ Server._initialized t = true)
  \/ (exists status c m,
        Server.validateSession t req res
        = (false, Server.answer_error res status [] c m None)).
Proof.
  unfold Server.validateSession.
  destruct (Server._initialized t); cbn [negb]; [|right; eauto].
  destruct (Server.sessionId t) as [sid|]; [|auto].
  destruct (req_mcp_session_id req) as [|[|c v]|vs]; try (right; eauto; fail).
  destruct (negb (JsString.eqb (c :: v) sid)); [right; eauto | auto].
Qed.

(** The ways a POST is answered: with one head and the end of the
    response, around calls of callbacks, the routing table kept; or with the
    head of an SSE stream, the routes of the batch's requests set, a listener
    put on the response and the batch delivered. *)
Lemma handlePostRequest_cases t req res parsedBody :
  let out := Server.handlePostRequest t req res parsedBody in
  (exists pre status headers body post,
      snd out = pre ++ [ResWriteHead res status headers; ResEnd res body] ++ post
      /\ ServerRun.quiet pre /\ ServerRun.quiet post
      /\ writes_event_stream (ResWriteHead res status headers) = false
      /\ (fst out = t
          \/ (Server._initialized t = false
              /\ fst out
                 = {| Server._started := Server._started t;
                      Server._sseResponseMapping := Server._sseResponseMapping t;
                      Server._initialized := true;
                      Server.sessionId := Server.sessionIdGenerator t tt;
                      Server.sessionIdGenerator := Server.sessionIdGenerator t |})))
  \/ (exists msgs,
        Server._initialized t = true
        /\ out = ( Server.with_mapping t
                     (fst (Server.store_requests
                             (Server._sseResponseMapping t) res msgs)),
                   [ResWriteHead res 200 (Server.sse_headers t)]
                   ++ List.map (fun i => MappingSet i res) (requestIds_of msgs)
                   ++ [ResOnClose res] ++ List.map OnMessage msgs )).
Proof.
  cbn zeta. unfold Server.handlePostRequest.
  destruct (negb (Server.accepts req "application/json")
            || negb (Server.accepts req "text/event-stream")).
  { left. exists []. do 4 eexists. split; [reflexivity|].
    repeat split; auto. }
  destruct (negb (Server.is_json_content req)).
  { left. exists []. do 4 eexists. split; [reflexivity|].
    repeat split; auto. }
  destruct (Server.rawMessage req parsedBody) as [raw|e].
  2:{ left. exists []. do 4 eexists. split; [reflexivity|].
      repeat split; auto. }
  destruct (parse_messages raw) as [msgs|e].
  2:{ left. exists []. do 4 eexists. split; [reflexivity|].
      repeat split; auto. }
  cbn zeta. destruct (existsb Server.isInitialize msgs).
  { left. destruct (Server._initialized t).
    { exists []. do 4 eexists. split; [reflexivity|]. repeat split; auto. }
    destruct (Nat.ltb 1 (length msgs)).
    { exists []. do 4 eexists. split; [reflexivity|]. repeat split; auto. }
    exists (List.map OnMessage msgs). do 3 eexists. exists [].
    split; [reflexivity|]. cbn [fst].
    repeat split; auto; try apply quiet_map_deliveries.
    destruct (Server.sessionIdGenerator t tt); reflexivity. }
  destruct (validateSession_cases t req res) as [[-> Hinit] | (st & c & m & ->)];
    cbn [negb].
  2:{ left. exists []. do 4 eexists. split; [reflexivity|].
      repeat split; auto. }
  destruct (forallb Server.isNotificationOrResponse msgs) eqn:Honly.
  - left. exists []. do 3 eexists. exists (List.map OnMessage msgs).
    split; [reflexivity|]. repeat split; auto; apply quiet_map_deliveries.
  - rewrite (not_only_notifications_has_request msgs Honly).
    right. exists msgs. split; [exact Hinit|].
    pose proof (store_requests_trace (Server._sseResponseMapping t) res msgs) as T.
    destruct (Server.store_requests (Server._sseResponseMapping t) res msgs)
      as [mapping stored].
    cbn [fst snd] in *. now subst stored.
Qed.

(** The ways a request is answered: as a POST is, or, for a DELETE that
    passes the session check, with the end of every routed response, an
    empty routing table and a 200. *)
Lemma handleRequest_cases t req res parsedBody :
  let out := Server.handleRequest t req res parsedBody in
  (exists pre status headers body post,
      snd out = pre ++ [ResWriteHead res status headers; ResEnd res body] ++ post
      /\ ServerRun.quiet pre /\ ServerRun.quiet post
      /\ writes_event_stream (ResWriteHead res status headers) = false
      /\ (fst out = t
          \/ (Server._initialized t = false
              /\ fst out
                 = {| Server._started := Server._started t;
                      Server._sseResponseMapping := Server._sseResponseMapping t;
                      Server._initialized := true;
                      Server.sessionId := Server.sessionIdGenerator t tt;
                      Server.sessionIdGenerator := Server.sessionIdGenerator t |})))
  \/ (exists msgs,
        Server._initialized t = true
        /\ out = ( Server.with_mapping t
                     (fst (Server.store_requests
                             (Server._sseResponseMapping t) res msgs)),
                   [ResWriteHead res 200 (Server.sse_headers t)]
                   ++ List.map (fun i => MappingSet i res) (requestIds_of msgs)
                   ++ [ResOnClose res] ++ List.map OnMessage msgs ))
  \/ (Server._initialized t = true
      /\ out = ( Server.with_mapping t (JsMap.empty RequestId Res),
                 List.map (fun response => ResEnd response None)
                   (JsMap.values (Server._sseResponseMapping t))
                 ++ [MappingClear; OnClose; ResWriteHead res 200 [];
                     ResEnd res None] )).
Proof.
  cbn zeta. unfold Server.handleRequest.
  destruct (JsString.eqb (req_method req) (js "POST")).
  { destruct (handlePostRequest_cases t req res parsedBody) as [H|H]; auto. }
  destruct (JsString.eqb (req_method req) (js "DELETE")).
  - unfold Server.handleDeleteRequest.
    destruct (validateSession_cases t req res) as [[-> Hinit] | (st & c & m & ->)];
      cbn [negb].
    + right. right. split; [exact Hinit|].
      cbn [Server.close app]. now rewrite <- app_assoc.
    + left. exists []. do 4 eexists. split; [reflexivity|].
      repeat split; auto.
  - left. exists []. do 4 eexists. split; [reflexivity|].
    repeat split; auto.
Qed.

End ServerAnswers.

Section ServerRunFacts.
  Context {P : Platform}.

(** The ways [send] ends: nothing done; a chunk written for a message that
    is no response; a chunk written for a response and its route deleted,
    the response ended when no route to it is left. *)
Lemma send_cases t message relatedRequestId :
  let out := Server.send t message relatedRequestId in
  (fst out = (t, []) /\ snd out <> Ok tt)
  \/ (exists i s,
        JsMap.get RequestId_eqb (Server._sseResponseMapping t) i = Some s
        /\ out = (t, [ResWrite s (sse_frame message)], Ok tt))
  \/ (exists i s,
        JsMap.get RequestId_eqb (Server._sseResponseMapping t) i = Some s
        /\ let mapping :=
             JsMap.delete RequestId_eqb (Server._sseResponseMapping t) i in
           (out = (Server.with_mapping t mapping,
                   [ResWrite s (sse_frame message); MappingDelete i], Ok tt)
            \/ (out = (Server.with_mapping t mapping,
                       [ResWrite s (sse_frame message); MappingDelete i;
                        ResEnd s None], Ok tt)
                /\ forall k, ~ In (k, s) mapping))).
Proof.
  cbn zeta. unfold Server.send.
  destruct (Server.falsy_id _); [left; split; [reflexivity | discriminate]|].
  destruct (if has_result message || has_error message
            then msg_id message else relatedRequestId) as [i|];
    [|left; split; [reflexivity | discriminate]].
  destruct (JsMap.get RequestId_eqb (Server._sseResponseMapping t) i)
    as [s|] eqn:G; [|left; split; [reflexivity | discriminate]].
  destruct (has_result message || has_error message).
  - right. right. exists i, s. split; [exact G|].
    destruct (existsb _ _) eqn:E; cbn [negb app]; [left; reflexivity|].
    right. split; [reflexivity|]. intros k Hin.
    assert (X : existsb
                  (fun e => Nat.eqb (snd e) s && negb (RequestId_eqb (fst e) i))
                  (JsMap.entries
                     (JsMap.delete RequestId_eqb (Server._sseResponseMapping t) i))
                = true); [|congruence].
    apply existsb_exists. exists (k, s). split; [exact Hin|].
    cbn [fst snd]. rewrite Nat.eqb_refl.
    apply filter_In in Hin as [_ Hk]. exact Hk.
  - right. left. exists i, s. auto.
Qed.

Lemma In_store_requests m res msgs k r :
  In (k, r) (fst (Server.store_requests m res msgs)) ->
  r = res \/ In (k, r) m.
Proof.
  revert m; induction msgs as [|msg msgs IH]; intros m; cbn [Server.store_requests].
  - auto.
  - destruct (if isRequest msg then msg_id msg else None) as [i|]; [|apply IH].
    specialize (IH (JsMap.set RequestId_eqb m i res)).
    destruct (Server.store_requests _ res msgs) as [m' tr]. cbn [fst] in *.
    intros H. destruct (IH H) as [?|H']; [auto|].
    apply In_set in H' as [[_ ?]|?]; auto.
Qed.

Lemma NoDup_keys_store_requests m res msgs :
  NoDup (JsMap.keys m) ->
  NoDup (JsMap.keys (fst (Server.store_requests m res msgs))).
Proof.
  revert m; induction msgs as [|msg msgs IH]; intros m N;
    cbn [Server.store_requests]; [exact N|].
  destruct (if isRequest msg then msg_id msg else None) as [i|]; [|now apply IH].
  specialize (IH (JsMap.set RequestId_eqb m i res) (NoDup_keys_set m i res N)).
  destruct (Server.store_requests _ res msgs). exact IH.
Qed.

Lemma never_writes_after_end_app tr1 tr2 :
  ServerRun.never_writes_after_end tr1 ->
  ServerRun.never_writes_after_end tr2 ->
  (forall res, In res (ServerRun.ends tr1) -> ~ In res (ServerRun.writes tr2)) ->
  ServerRun.never_writes_after_end (tr1 ++ tr2).
Proof.
  induction tr1 as [|e tr1 IH]; intros N1 N2 H; [exact N2|].
  destruct e; cbn [app ServerRun.never_writes_after_end ServerRun.ends] in *;
    try (apply IH; auto; fail).
  destruct N1 as [Nw N1]. split.
  - rewrite writes_app. intros I. apply in_app_or in I as [I|I]; [auto|].
    apply (H res); [now left | exact I].
  - apply IH; auto. intros r Hr. apply H. now right.
Qed.

(** What [never_writes_after_end] says, with the trace cut at an end. *)
Lemma never_writes_after_end_cut tr :
  ServerRun.never_writes_after_end tr ->
  forall tr1 res body tr2,
    tr = tr1 ++ ResEnd res body :: tr2 -> ~ In res (ServerRun.writes tr2).
Proof.
  intros N tr1. revert tr N. induction tr1 as [|e tr1 IH];
    intros tr N res body tr2 ->; cbn [app] in N.
  - now destruct N.
  - apply (IH (tr1 ++ ResEnd res body :: tr2)) with (body := body); [|reflexivity].
    destruct e; cbn [ServerRun.never_writes_after_end] in N; tauto.
Qed.

End ServerRunFacts.

Section ServerRunSteps.
  Context {P : Platform}.

Lemma session_of_with_mapping generator t m :
  ServerRun.session_of generator t ->
  (Server._initialized t = false -> m = JsMap.empty RequestId Res) ->
  ServerRun.session_of generator (Server.with_mapping t m).
Proof.
  intros [Hg Hs] Hm. split; [exact Hg|]. cbn.
  destruct (Server._initialized t); [exact Hs|]. split; [apply Hs | now apply Hm].
Qed.

Lemma heads_of_answer res pre status headers body post :
  ServerRun.quiet pre -> ServerRun.quiet post ->
  let tr := pre ++ [ResWriteHead res status headers; ResEnd res body] ++ post in
  ServerRun.heads tr = [res] /\ ServerRun.ends tr = [res]
  /\ ServerRun.writes tr = []
  /\ (forall r, ServerRun.listens tr r = false)
  /\ (writes_event_stream (ResWriteHead res status headers) = false ->
      ServerRun.streams tr = []).
Proof.
  intros (H1 & E1 & W1 & L1) (H2 & E2 & W2 & L2). cbn zeta.
  rewrite !heads_app, !ends_app, !writes_app, H1, H2, E1, E2, W1, W2.
  repeat split.
  - intros r. now rewrite !listens_app, L1, L2.
  - intros Wh. rewrite !streams_app.
    rewrite (quiet_no_stream pre), (quiet_no_stream post) by (repeat split; auto).
    unfold ServerRun.streams. cbn [filter]. now rewrite Wh.
Qed.

Lemma heads_of_stream t res msgs :
  let tr := [ResWriteHead res 200 (Server.sse_headers t)]
            ++ List.map (fun i => MappingSet i res) (requestIds_of msgs)
            ++ [ResOnClose res] ++ List.map OnMessage msgs in
  ServerRun.heads tr = [res] /\ ServerRun.ends tr = []
  /\ ServerRun.writes tr = [] /\ ServerRun.streams tr = [res]
  /\ ServerRun.listens tr res = true.
Proof.
  cbn zeta.
  destruct (quiet_map_sets res (requestIds_of msgs)) as (H1 & E1 & W1 & L1).
  destruct (quiet_map_deliveries msgs) as (H2 & E2 & W2 & L2).
  rewrite !heads_app, !ends_app, !writes_app, !streams_app, !listens_app.
  rewrite H1, H2, E1, E2, W1, W2, L1, L2.
  rewrite (quiet_no_stream _ (quiet_map_sets res (requestIds_of msgs))).
  rewrite (quiet_no_stream _ (quiet_map_deliveries msgs)).
  cbn. rewrite Nat.eqb_refl. repeat split; auto using orb_true_r.
Qed.

Lemma heads_of_closing res (rs : list Res) :
  let tr := List.map (fun response => ResEnd response None) rs
            ++ [MappingClear; OnClose; ResWriteHead res 200 []; ResEnd res None] in
  ServerRun.heads tr = [res] /\ ServerRun.ends tr = rs ++ [res]
  /\ ServerRun.writes tr = [].
Proof.
  cbn zeta. destruct (ends_of_closing rs) as (H & E & W).
  rewrite heads_app, ends_app, writes_app, H, E, W. repeat split.
Qed.

(** What every call keeps of the session and of the shape of the table,
    and the heads it writes. *)
Lemma step_session generator history t c :
  ServerRun.session_of generator t ->
  NoDup (JsMap.keys (Server._sseResponseMapping t)) ->
  let out := ServerRun.step history t c in
  ServerRun.session_of generator (fst out)
  /\ NoDup (JsMap.keys (Server._sseResponseMapping (fst out)))
  /\ (Server._initialized t = true -> Server._initialized (fst out) = true)
  /\ ServerRun.heads (snd out)
     = match c with
       | ServerRun.HandleRequest _ res _ => [res]
       | _ => []
       end.
Proof.
  intros S Hn. pose proof S as [Hg Hs]. cbn zeta.
  destruct c as [req res body|m rel| | |res]; cbn [ServerRun.step].
  - destruct (handleRequest_cases t req res body)
      as [(pre & st & h & b & post & E & Qpre & Qpost & _ & T)
         |[(msgs & Hinit & E)|(Hinit & E)]].
    + rewrite E. destruct (heads_of_answer res pre st h b post Qpre Qpost) as (-> & _).
      destruct T as [->|[Hinit ->]]; [auto|].
      repeat split; auto. cbn. now rewrite Hg.
    + rewrite E. cbn [fst snd].
      destruct (heads_of_stream t res msgs) as (-> & _).
      repeat split; auto.
      * apply session_of_with_mapping; [exact S | congruence].
      * now apply NoDup_keys_store_requests.
    + rewrite E. cbn [fst snd].
      destruct (heads_of_closing res (JsMap.values (Server._sseResponseMapping t)))
        as (-> & _).
      repeat split; auto.
      * apply session_of_with_mapping; [exact S | congruence].
      * constructor.
  - destruct (send_cases t m rel) as [[E _]|[(i & s & _ & E)|(i & s & _ & [E|[E _]])]];
      destruct (Server.send t m rel) as [[t' tr] r]; cbn [fst snd] in *;
      injection E as -> ->; repeat split; auto;
      try (apply session_of_with_mapping; [exact S|]; intros I;
           rewrite I in Hs; destruct Hs as [_ ->]; reflexivity);
      try (apply NoDup_keys_filter; exact Hn).
  - cbn [Server.close fst snd]. repeat split; auto.
    + apply session_of_with_mapping; auto.
    + constructor.
    + destruct (ends_of_closing (JsMap.values (Server._sseResponseMapping t)))
        as (H & _). now rewrite heads_app, H.
  - unfold Server.start. destruct (Server._started t); cbn; auto.
  - destruct (ServerRun.listens history res); [|auto].
    cbn [Server.res_close_listener fst snd]. repeat split; auto.
    + apply session_of_with_mapping; [exact S|]. intros I.
      rewrite I in Hs. destruct Hs as [_ ->]. reflexivity.
    + now apply NoDup_keys_filter.
    + apply quiet_map_deletes.
Qed.

Lemma no_write_never_after_end tr :
  ServerRun.writes tr = [] -> ServerRun.never_writes_after_end tr.
Proof.
  induction tr as [|e tr IH]; [constructor|].
  destruct e; cbn; intros W; try discriminate; auto.
  split; [|auto]. rewrite W. intros [].
Qed.

Lemma listens_more history tr res :
  ServerRun.listens history res = true ->
  ServerRun.listens (history ++ tr) res = true.
Proof. intros L. now rewrite listens_app, L. Qed.

(** A trace without chunk, added to a sound history. *)
Lemma sound_without_write history t t' tr :
  ServerRun.sound history t ->
  ServerRun.writes tr = [] ->
  (forall res, In res (ServerRun.ends tr) ->
               In res (ServerRun.heads (history ++ tr))) ->
  (forall k res,
      In (k, res) (Server._sseResponseMapping t') ->
      ~ In res (ServerRun.ends tr)
      /\ (In (k, res) (Server._sseResponseMapping t)
          \/ (In res (ServerRun.streams tr) /\ ~ In res (ServerRun.ends history)
              /\ ServerRun.listens tr res = true))) ->
  ServerRun.sound (history ++ tr) t'.
Proof.
  intros (R & N & E & Wr) W He Hm. split; [|split; [|split]].
  - intros k res Hin. destruct (Hm k res Hin) as [Ne [Old|(Hs & Hh & Hl)]].
    + destruct (R k res Old) as (Rs & Re & Rl).
      rewrite streams_app, ends_app. repeat split.
      * apply in_or_app; auto.
      * intros I. apply in_app_or in I as [I|I]; auto.
      * now apply listens_more.
    + rewrite streams_app, ends_app, listens_app, Hl. repeat split.
      * apply in_or_app; auto.
      * intros I. apply in_app_or in I as [I|I]; auto.
      * apply orb_true_r.
  - apply never_writes_after_end_app; auto using no_write_never_after_end.
    intros res _. rewrite W. intros [].
  - intros res. rewrite ends_app. intros I.
    apply in_app_or in I as [I|I]; [|auto].
    rewrite heads_app. apply in_or_app. left. auto.
  - intros res. rewrite writes_app, W, app_nil_r, streams_app. intros I.
    apply in_or_app. left. auto.
Qed.

(** What every call keeps of the routes and of the order of writes and
    ends, when the response of a request is one no head was written to. *)
Lemma step_sound history t c :
  ServerRun.sound history t ->
  (forall req res parsedBody,
      c = ServerRun.HandleRequest req res parsedBody ->
      ~ In res (ServerRun.heads history)) ->
  let out := ServerRun.step history t c in
  ServerRun.sound (history ++ snd out) (fst out).
Proof.
  intros S F. pose proof S as (R & N & E & Wr). cbn zeta.
  destruct c as [req res body|m rel| | |res]; cbn [ServerRun.step].
  - specialize (F req res body eq_refl).
    assert (Fe : ~ In res (ServerRun.ends history)) by (intros I; auto).
    assert (Fm : forall k r, In (k, r) (Server._sseResponseMapping t) -> r <> res).
    { intros k r Hin ->. destruct (R k res Hin) as (Rs & _).
      apply F. now apply streams_are_heads. }
    destruct (handleRequest_cases t req res body)
      as [(pre & st & h & b & post & Etr & Qpre & Qpost & Wh & T)
         |[(msgs & Hinit & Eo)|(Hinit & Eo)]].
    + rewrite Etr.
      destruct (heads_of_answer res pre st h b post Qpre Qpost)
        as (Hh & He & Hw & Hl & Hs).
      apply (sound_without_write history t); auto.
      * rewrite He, heads_app, Hh. intros r [<-|[]].
        apply in_or_app. right. now left.
      * assert (M : Server._sseResponseMapping
                      (fst (Server.handleRequest t req res body))
                    = Server._sseResponseMapping t)
          by (destruct T as [->|[_ ->]]; reflexivity).
        rewrite M, He. intros k r Hin. split; [|auto].
        intros [<-|[]]. now apply (Fm k res).
    + rewrite Eo. cbn [fst snd].
      destruct (heads_of_stream t res msgs) as (Hh & He & Hw & Hs & Hl).
      apply (sound_without_write history t); auto.
      * rewrite He. intros r [].
      * cbn [Server._sseResponseMapping Server.with_mapping]. rewrite He, Hs.
        intros k r Hin. split; [intros []|].
        apply In_store_requests in Hin as [->|Hin]; [right|auto].
        repeat split; auto. now left.
    + rewrite Eo. cbn [fst snd].
      destruct (heads_of_closing res (JsMap.values (Server._sseResponseMapping t)))
        as (Hh & He & Hw).
      apply (sound_without_write history t); auto.
      * rewrite He, heads_app, Hh. intros r I.
        apply in_or_app. apply in_app_or in I as [I|[<-|[]]]; [left | right; now left].
        apply in_map_iff in I as ((k, r') & <- & I).
        destruct (R k r' I) as (Rs & _). now apply streams_are_heads.
      * cbn. intros k r [].
  - pose proof (send_cases t m rel) as C.
    destruct (Server.send t m rel) as [[t' tr] r]. cbn [fst snd] in *.
    destruct C as [[[= -> ->] _]|[(i & s & G & [= -> -> ->])
                                 |(i & s & G & [[= -> -> ->]|[[= -> -> ->] Hno]])]].
    + now rewrite app_nil_r.
    + apply get_Some_In in G. destruct (R i s G) as (Rs & Re & Rl).
      split; [|split; [|split]].
      * intros k res Hin. destruct (R k res Hin) as (Rs' & Re' & Rl').
        rewrite streams_app, ends_app. cbn. rewrite !app_nil_r.
        repeat split; auto. now apply listens_more.
      * apply never_writes_after_end_app; cbn; auto.
        intros res I [<-|[]]. auto.
      * intros res. rewrite ends_app, heads_app. cbn. rewrite !app_nil_r. auto.
      * intros res. rewrite writes_app, streams_app. cbn. rewrite app_nil_r.
        intros I. apply in_app_or in I as [I|[<-|[]]]; auto.
    + apply get_Some_In in G. destruct (R i s G) as (Rs & Re & Rl).
      split; [|split; [|split]].
      * intros k res Hin. apply filter_In in Hin as [Hin _].
        destruct (R k res Hin) as (Rs' & Re' & Rl').
        rewrite streams_app, ends_app. cbn. rewrite !app_nil_r.
        repeat split; auto. now apply listens_more.
      * apply never_writes_after_end_app; cbn; auto.
        intros res I [<-|[]]. auto.
      * intros res. rewrite ends_app, heads_app. cbn. rewrite !app_nil_r. auto.
      * intros res. rewrite writes_app, streams_app. cbn. rewrite app_nil_r.
        intros I. apply in_app_or in I as [I|[<-|[]]]; auto.
    + apply get_Some_In in G. destruct (R i s G) as (Rs & Re & Rl).
      split; [|split; [|split]].
      * intros k res Hin.
        assert (res <> s) by (intros ->; now apply (Hno k)).
        apply filter_In in Hin as [Hin _].
        destruct (R k res Hin) as (Rs' & Re' & Rl').
        rewrite streams_app, ends_app. cbn. rewrite app_nil_r.
        repeat split; auto.
        -- intros I. apply in_app_or in I as [I|[I|[]]]; auto.
        -- now apply listens_more.
      * apply never_writes_after_end_app; cbn; auto.
        intros res I [<-|[]]. auto.
      * intros res. rewrite ends_app, heads_app. cbn. rewrite app_nil_r.
        intros I. apply in_app_or in I as [I|[<-|[]]]; auto.
        now apply streams_are_heads.
      * intros res. rewrite writes_app, streams_app. cbn. rewrite app_nil_r.
        intros I. apply in_app_or in I as [I|[<-|[]]]; auto.
  - cbn [Server.close fst snd].
    destruct (ends_of_closing (JsMap.values (Server._sseResponseMapping t)))
      as (Hh & He & Hw).
    apply (sound_without_write history t); auto.
    + rewrite writes_app, Hw. reflexivity.
    + rewrite ends_app, He, app_nil_r. intros r I.
      rewrite heads_app. apply in_or_app. left.
      apply in_map_iff in I as ((k, r') & <- & I).
      destruct (R k r' I) as (Rs & _). now apply streams_are_heads.
    + cbn. intros k r [].
  - cbn [fst snd]. rewrite app_nil_r.
    unfold Server.start. destruct (Server._started t); exact S.
  - destruct (ServerRun.listens history res); [|cbn; now rewrite app_nil_r].
    cbn [Server.res_close_listener fst snd].
    match goal with
    | |- ServerRun.sound (_ ++ ?tr) _ =>
        assert (Q : ServerRun.quiet tr) by apply quiet_map_deletes;
        destruct Q as (Hh & He & Hw & Hl)
    end.
    apply (sound_without_write history t); auto.
    + rewrite He. intros r [].
    + cbn [Server._sseResponseMapping Server.with_mapping]. rewrite He.
      intros k r Hin. apply filter_In in Hin as [Hin _]. auto.
Qed.

End ServerRunSteps.

(* ================================================================== *)
(** ** The server transport over any sequence of calls *)

Section ServerRuns.
  Context {P : Platform}.

Lemma run_from_app history t calls more :
  ServerRun.run_from history t (calls ++ more)
  = ServerRun.run_from (snd (ServerRun.run_from history t calls))
      (fst (ServerRun.run_from history t calls)) more.
Proof.
  revert history t. induction calls as [|c calls IH]; intros history t;
    cbn [app ServerRun.run_from fst snd]; [reflexivity|].
  destruct (ServerRun.step history t c) as [t' tr]. apply IH.
Qed.

Lemma run_from_session generator calls : forall history t,
  ServerRun.session_of generator t ->
  NoDup (JsMap.keys (Server._sseResponseMapping t)) ->
  let out := ServerRun.run_from history t calls in
  ServerRun.session_of generator (fst out)
  /\ NoDup (JsMap.keys (Server._sseResponseMapping (fst out)))
  /\ (Server._initialized t = true -> Server._initialized (fst out) = true)
  /\ ServerRun.heads (snd out)
     = ServerRun.heads history ++ ServerRun.requests_of calls.
Proof.
  induction calls as [|c calls IH]; intros history t S Hn;
    cbn [ServerRun.run_from ServerRun.requests_of fst snd].
  - rewrite app_nil_r. auto.
  - pose proof (step_session generator history t c S Hn) as (S' & N' & I' & H').
    cbn zeta in *.
    destruct (ServerRun.step history t c) as [t' tr]. cbn [fst snd] in *.
    destruct (IH (history ++ tr) t' S' N') as (S2 & N2 & I2 & H2).
    split; [exact S2 | split; [exact N2 | split; [auto|]]].
    rewrite H2, heads_app, H', <- app_assoc. destruct c; reflexivity.
Qed.

Lemma run_from_sound generator calls : forall history t,
  ServerRun.session_of generator t ->
  NoDup (JsMap.keys (Server._sseResponseMapping t)) ->
  ServerRun.sound history t ->
  NoDup (ServerRun.requests_of calls) ->
  (forall res, In res (ServerRun.requests_of calls) ->
               ~ In res (ServerRun.heads history)) ->
  let out := ServerRun.run_from history t calls in
  ServerRun.sound (snd out) (fst out).
Proof.
  induction calls as [|c calls IH]; intros history t S Hn So Nd Fr;
    cbn [ServerRun.run_from fst snd]; [exact So|].
  pose proof (step_session generator history t c S Hn) as (S' & N' & _ & H').
  assert (F : forall req res parsedBody,
             c = ServerRun.HandleRequest req res parsedBody ->
             ~ In res (ServerRun.heads history)).
  { intros req res body ->. apply Fr. now left. }
  pose proof (step_sound history t c So F) as So'. cbn zeta in *.
  destruct (ServerRun.step history t c) as [t' tr]. cbn [fst snd] in *.
  apply IH; auto.
  - destruct c; cbn [ServerRun.requests_of] in Nd; auto. now inversion Nd.
  - intros res I. rewrite heads_app, H'. intros J.
    apply in_app_or in J as [J|J].
    + revert J. apply Fr. destruct c; cbn [ServerRun.requests_of]; auto.
      now right.
    + destruct c; cbn [ServerRun.requests_of] in *; try contradiction.
      destruct J as [<-|[]]. now inversion Nd.
Qed.

Lemma session_of_new generator :
  ServerRun.session_of generator (Server.new generator).
Proof. repeat split. Qed.

Lemma sound_new generator : ServerRun.sound [] (Server.new generator).
Proof.
  split; [|split; [|split]]; cbn; auto.
  intros k res [].
Qed.

Lemma run_session generator calls :
  let out := ServerRun.run generator calls in
  ServerRun.session_of generator (fst out)
  /\ NoDup (JsMap.keys (Server._sseResponseMapping (fst out)))
  /\ ServerRun.heads (snd out) = ServerRun.requests_of calls.
Proof.
  destruct (run_from_session generator calls [] (Server.new generator))
    as (S & N & _ & H); [apply session_of_new | constructor |].
  auto.
Qed.

Lemma run_sound generator calls :
  NoDup (ServerRun.requests_of calls) ->
  let out := ServerRun.run generator calls in
  ServerRun.sound (snd out) (fst out).
Proof.
  intros Nd.
  apply (run_from_sound generator); auto using session_of_new, sound_new.
  constructor.
Qed.

Lemma get_absent (m : JsMap.t RequestId Res) k :
  ~ In k (JsMap.keys m) -> JsMap.get RequestId_eqb m k = None.
Proof.
  induction m as [|[k0 v0] m IH]; cbn; [reflexivity|]. intros N.
  destruct (RequestId_eqb k0 k) eqn:E.
  - apply RequestId_eqb_eq in E. tauto.
  - apply IH. tauto.
Qed.

Lemma get_after_disconnect (m : JsMap.t RequestId Res) res k :
  NoDup (JsMap.keys m) ->
  JsMap.get RequestId_eqb (filter (fun e => negb (Nat.eqb (snd e) res)) m) k
  = match JsMap.get RequestId_eqb m k with
    | Some r => if Nat.eqb r res then None else Some r
    | None => None
    end.
Proof.
  induction m as [|[k0 v0] m IH]; intros N; [reflexivity|].
  inversion N as [|? ? Hn Hm]; subst. cbn [filter snd JsMap.get].
  destruct (RequestId_eqb k0 k) eqn:E.
  - apply RequestId_eqb_eq in E. subst k0.
    destruct (Nat.eqb v0 res); cbn [negb JsMap.get].
    + rewrite IH by exact Hm. now rewrite (get_absent m k Hn).
    + now rewrite RequestId_eqb_refl.
  - destruct (Nat.eqb v0 res); cbn [negb JsMap.get]; [|rewrite E]; now apply IH.
Qed.

(** Every request the transport is handed is answered with one status
    line, and no status line is written otherwise: the heads of the trace
    of any sequence of calls are the responses of its requests, in order. *)
Theorem every_request_gets_one_head generator calls :
  ServerRun.heads (snd (ServerRun.run generator calls))
  = ServerRun.requests_of calls.
Proof.
  unfold ServerRun.run.
  destruct (run_from_session generator calls [] (Server.new generator))
    as (_ & _ & _ & H); [apply session_of_new | constructor |].
  exact H.
Qed.

(** After any sequence of calls that hands each response object to the
    transport once, an id of the routing table leads to a response that
    was opened as an event stream, was not ended, and whose "close" is
    listened to. *)
Theorem routes_lead_to_open_streams generator calls k res :
  NoDup (ServerRun.requests_of calls) ->
  let out := ServerRun.run generator calls in
  JsMap.get RequestId_eqb (Server._sseResponseMapping (fst out)) k = Some res ->
  In res (ServerRun.streams (snd out))
  /\ ~ In res (ServerRun.ends (snd out))
  /\ ServerRun.listens (snd out) res = true.
Proof.
  intros Nd out G. destruct (run_sound generator calls Nd) as (R & _).
  apply (R k res). now apply get_Some_In.
Qed.

(** After any such sequence of calls, nothing is written to a response
    after its end. *)
Theorem no_write_after_end generator calls before res body after :
  NoDup (ServerRun.requests_of calls) ->
  snd (ServerRun.run generator calls) = before ++ ResEnd res body :: after ->
  ~ In res (ServerRun.writes after).
Proof.
  intros Nd E. destruct (run_sound generator calls Nd) as (_ & N & _).
  exact (never_writes_after_end_cut _ N before res body after E).
Qed.

(** After any such sequence of calls, a chunk was only written to a
    response opened as an event stream, and a response was only ended
    after its status line. *)
Theorem chunks_go_to_event_streams generator calls res :
  NoDup (ServerRun.requests_of calls) ->
  let tr := snd (ServerRun.run generator calls) in
  (In res (ServerRun.writes tr) -> In res (ServerRun.streams tr))
  /\ (In res (ServerRun.ends tr) -> In res (ServerRun.heads tr)).
Proof.
  intros Nd tr. destruct (run_sound generator calls Nd) as (_ & _ & E & W).
  split; [apply W | apply E].
Qed.

(** Once initialized, the transport stays initialized with the session id
    it has, whatever is called afterwards: neither [close] nor a DELETE
    takes the session back. *)
Theorem initialized_for_good generator calls more :
  let t := fst (ServerRun.run generator calls) in
  let t' := fst (ServerRun.run generator (calls ++ more)) in
  Server._initialized t = true ->
  Server._initialized t' = true /\ Server.sessionId t' = Server.sessionId t.
Proof.
  intros t t' I. unfold t', ServerRun.run. rewrite run_from_app.
  destruct (run_session generator calls) as ([Hg Hs] & N & _).
  fold t in Hg, Hs, N. unfold ServerRun.run in t. fold t.
  destruct (run_from_session generator more
              (snd (ServerRun.run_from [] (Server.new generator) calls)) t)
    as ([Hg' Hs'] & _ & I' & _); [split; assumption | exact N |].
  specialize (I' I). rewrite I' in Hs'. rewrite I in Hs.
  split; [exact I' | congruence].
Qed.

(** Before the first initialize is accepted the transport has no session
    id and routes nothing, so that [send] throws and writes nothing. *)
Theorem nothing_routed_before_initialize generator calls message relatedRequestId :
  let t := fst (ServerRun.run generator calls) in
  Server._initialized t = false ->
  Server.sessionId t = None
  /\ Server._sseResponseMapping t = JsMap.empty RequestId Res
  /\ exists e, Server.send t message relatedRequestId = (t, [], Throw e).
Proof.
  intros t I. destruct (run_session generator calls) as ([Hg Hs] & _).
  fold t in Hs. rewrite I in Hs. destruct Hs as [Hs Hm].
  repeat split; auto. unfold Server.send. rewrite Hm.
  destruct (Server.falsy_id _); [eauto|].
  destruct (if has_result message || has_error message
            then msg_id message else relatedRequestId); cbn; eauto.
Qed.

(** When a response emits "close", every route to it is dropped and the
    other routes stay as they are. *)
Theorem disconnect_drops_every_route generator calls res k :
  NoDup (ServerRun.requests_of calls) ->
  let t := fst (ServerRun.run generator calls) in
  let t' := fst (ServerRun.run generator (calls ++ [ServerRun.ResClosed res])) in
  JsMap.get RequestId_eqb (Server._sseResponseMapping t') k
  = match JsMap.get RequestId_eqb (Server._sseResponseMapping t) k with
    | Some r => if Nat.eqb r res then None else Some r
    | None => None
    end.
Proof.
  intros Nd t t'. unfold t', ServerRun.run. rewrite run_from_app.
  destruct (run_session generator calls) as (_ & N & _).
  destruct (run_sound generator calls Nd) as (R & _).
  unfold ServerRun.run in t, N, R. fold t in N, R |- *.
  cbn [ServerRun.run_from ServerRun.step].
  destruct (ServerRun.listens _ res) eqn:L.
  - cbn [Server.res_close_listener fst Server.with_mapping
           Server._sseResponseMapping].
    now apply get_after_disconnect.
  - cbn [fst].
    destruct (JsMap.get RequestId_eqb (Server._sseResponseMapping t) k)
      as [r|] eqn:G; [|reflexivity].
    destruct (Nat.eqb r res) eqn:E; [|reflexivity].
    apply Nat.eqb_eq in E. subst r. apply get_Some_In in G.
    destruct (R k res G) as (_ & _ & L'). congruence.
Qed.

End ServerRuns.

Section ServerRunExamples.
  #[local] Existing Instance Demo.platform.

(** After the first reply of the batch, the route of the second is open. *)
Lemma routes_lead_to_open_streams_witness :
  let out := ServerRun.run DemoRun.generator DemoRun.opening in
  In 2 (ServerRun.streams (snd out))
  /\ ~ In 2 (ServerRun.ends (snd out))
  /\ ServerRun.listens (snd out) 2 = true.
Proof.
  apply (@routes_lead_to_open_streams Demo.platform DemoRun.generator
           DemoRun.opening (IdNumber 3) 2).
  - vm_compute. repeat constructor; cbn; intuition discriminate.
  - vm_compute. reflexivity.
Defined.

(** Nothing is written to the response of the initialize after its end. *)
Lemma no_write_after_end_witness :
  ~ In 1 (ServerRun.writes
            (skipn 3 (snd (ServerRun.run DemoRun.generator DemoRun.session)))).
Proof.
  apply (@no_write_after_end Demo.platform DemoRun.generator DemoRun.session
           (firstn 2 (snd (ServerRun.run DemoRun.generator DemoRun.session)))
           1 None).
  - vm_compute. repeat constructor; cbn; intuition discriminate.
  - vm_compute. reflexivity.
Defined.

Lemma chunks_go_to_event_streams_witness :
  let tr := snd (ServerRun.run DemoRun.generator DemoRun.session) in
  (In 2 (ServerRun.writes tr) -> In 2 (ServerRun.streams tr))
  /\ (In 2 (ServerRun.ends tr) -> In 2 (ServerRun.heads tr)).
Proof.
  apply (@chunks_go_to_event_streams Demo.platform DemoRun.generator
           DemoRun.session 2).
  vm_compute. repeat constructor; cbn; intuition discriminate.
Defined.

(** The session of the example outlives the DELETE and the [close]. *)
Lemma initialized_for_good_witness :
  let t := fst (ServerRun.run DemoRun.generator DemoRun.opening) in
  let t' := fst (ServerRun.run DemoRun.generator
                   (DemoRun.opening ++ DemoRun.ending)) in
  Server._initialized t' = true /\ Server.sessionId t' = Server.sessionId t.
Proof.
  apply (@initialized_for_good Demo.platform DemoRun.generator
           DemoRun.opening DemoRun.ending).
  vm_compute. reflexivity.
Defined.

(** A reply sent before any initialize. *)
Lemma nothing_routed_before_initialize_witness :
  let t := fst (ServerRun.run DemoRun.generator
                  [ServerRun.Start;
                   ServerRun.HandleRequest (Demo.delete HeaderAbsent) 1 None]) in
  Server.sessionId t = None
  /\ Server._sseResponseMapping t = JsMap.empty RequestId Res
  /\ exists e, Server.send t (Demo.pong 2) None = (t, [], Throw e).
Proof.
  apply (@nothing_routed_before_initialize Demo.platform DemoRun.generator
           [ServerRun.Start;
            ServerRun.HandleRequest (Demo.delete HeaderAbsent) 1 None]
           (Demo.pong 2) None).
  vm_compute. reflexivity.
Defined.

(** The peer closes the response of the batch while one reply is due. *)
Lemma disconnect_drops_every_route_witness :
  let t := fst (ServerRun.run DemoRun.generator DemoRun.opening) in
  let t' := fst (ServerRun.run DemoRun.generator
                   (DemoRun.opening ++ [ServerRun.ResClosed 2])) in
  JsMap.get RequestId_eqb (Server._sseResponseMapping t') (IdNumber 3)
  = match JsMap.get RequestId_eqb (Server._sseResponseMapping t) (IdNumber 3) with
    | Some r => if Nat.eqb r 2 then None else Some r
    | None => None
    end.
Proof.
  apply (@disconnect_drops_every_route Demo.platform DemoRun.generator
           DemoRun.opening 2 (IdNumber 3)).
  vm_compute. repeat constructor; cbn; intuition discriminate.
Defined.

End ServerRunExamples.

Section BatchReplies.
  Context {P : Platform}.

Lemma response_has_id m :
  has_result m || has_error m = true -> exists i, msg_id m = Some i.
Proof. destruct m; cbn; try discriminate; eauto. Qed.

Lemma send_reply t m i res relatedRequestId :
  has_result m || has_error m = true ->
  msg_id m = Some i ->
  Server.falsy_id (Some i) = false ->
  JsMap.get RequestId_eqb (Server._sseResponseMapping t) i = Some res ->
  let mapping := JsMap.delete RequestId_eqb (Server._sseResponseMapping t) i in
  Server.send t m relatedRequestId
  = (Server.with_mapping t mapping,
     [ResWrite res (sse_frame m); MappingDelete i]
     ++ (if existsb (fun e => Nat.eqb (snd e) res
                              && negb (RequestId_eqb (fst e) i))
              (JsMap.entries mapping)
         then [] else [ResEnd res None]),
     Ok tt).
Proof.
  intros Hm Hi Ht G. cbn zeta. unfold Server.send. rewrite Hm, Hi, Ht, G.
  destruct (existsb _ _); reflexivity.
Qed.

Lemma value_of_key (m : JsMap.t RequestId Res) k r r' :
  NoDup (JsMap.keys m) -> In (k, r) m -> In (k, r') m -> r = r'.
Proof.
  intros N H H'. apply (get_of_In m k r N) in H. apply (get_of_In m k r' N) in H'.
  congruence.
Qed.

(** The replies to the requests that share the response of a batch, sent
    in any order: each is written as one event, and the response is ended
    once, after the last of them; the other routes stay. *)
Theorem batch_stream_ends_after_last_reply replies : forall t res history,
  replies <> [] ->
  Forall (fun m => has_result m || has_error m = true) replies ->
  Forall (fun m => Server.falsy_id (msg_id m) = false) replies ->
  NoDup (List.map msg_id replies) ->
  NoDup (JsMap.keys (Server._sseResponseMapping t)) ->
  (forall k, In (k, res) (JsMap.entries (Server._sseResponseMapping t))
             <-> In (Some k) (List.map msg_id replies)) ->
  let out := ServerRun.run_from history t
               (List.map (fun m => ServerRun.Send m None) replies) in
  snd out
  = history
    ++ flat_map (fun m => match msg_id m with
                          | Some i => [ResWrite res (sse_frame m); MappingDelete i]
                          | None => []
                          end) replies
    ++ [ResEnd res None]
  /\ forall k r,
       In (k, r) (JsMap.entries (Server._sseResponseMapping (fst out)))
       <-> In (k, r) (JsMap.entries (Server._sseResponseMapping t)) /\ r <> res.
Proof.
  induction replies as [|m rest IH];
    intros t res history Hne Hresp Htruthy Hnd Hkeys Hroutes; [congruence|].
  inversion Hresp as [|? ? Hm Hrest]; subst.
  inversion Htruthy as [|? ? Tm Trest]; subst.
  destruct (response_has_id m Hm) as [i Hi].
  cbn [List.map] in Hnd, Hroutes. rewrite Hi in Hnd, Hroutes, Tm.
  inversion Hnd as [|? ? Hni Hnd']; subst.
  assert (G : JsMap.get RequestId_eqb (Server._sseResponseMapping t) i = Some res).
  { apply get_of_In; [exact Hkeys|]. apply Hroutes. now left. }
  assert (Hother : forall k r,
             In (k, r) (JsMap.entries (Server._sseResponseMapping t)) ->
             r <> res -> negb (RequestId_eqb k i) = true).
  { intros k r Hin Hr. destruct (RequestId_eqb k i) eqn:E; [|reflexivity].
    apply RequestId_eqb_eq in E. subst k. apply get_Some_In in G.
    destruct Hr. exact (value_of_key _ i r res Hkeys Hin G). }
  cbn zeta. cbn [List.map ServerRun.run_from ServerRun.step flat_map].
  rewrite (send_reply t m i res None Hm Hi Tm G), Hi.
  destruct rest as [|m' rest].
  - assert (X : existsb (fun e => Nat.eqb (snd e) res
                                  && negb (RequestId_eqb (fst e) i))
                  (JsMap.entries
                     (JsMap.delete RequestId_eqb (Server._sseResponseMapping t) i))
                = false).
    { apply not_true_is_false. intros X.
      apply existsb_exists in X as ((k, r) & Hin & Hc). cbn [fst snd] in Hc.
      apply andb_true_iff in Hc as [Hr Hk]. apply Nat.eqb_eq in Hr. subst r.
      apply filter_In in Hin as [Hin _].
      apply Hroutes in Hin as [[= ->]|[]].
      rewrite RequestId_eqb_refl in Hk. discriminate. }
    rewrite X. cbn [List.map ServerRun.run_from flat_map fst snd app
                      Server.with_mapping Server._sseResponseMapping].
    split; [reflexivity|].
    intros k r. unfold JsMap.delete, JsMap.entries. rewrite filter_In.
    cbn [fst]. split.
    + intros [Hin Hk]. split; [exact Hin|]. intros ->.
      apply Hroutes in Hin as [[= ->]|[]].
      rewrite RequestId_eqb_refl in Hk. discriminate.
    + intros [Hin Hr]. split; [exact Hin|]. exact (Hother k r Hin Hr).
  - assert (X : existsb (fun e => Nat.eqb (snd e) res
                                  && negb (RequestId_eqb (fst e) i))
                  (JsMap.entries
                     (JsMap.delete RequestId_eqb (Server._sseResponseMapping t) i))
                = true).
    { inversion Hrest as [|? ? Hm' _]; subst.
      destruct (response_has_id m' Hm') as [i' Hi'].
      assert (Hin : In (i', res) (JsMap.entries (Server._sseResponseMapping t))).
      { apply Hroutes. right. cbn [List.map]. rewrite Hi'. now left. }
      assert (Hd : negb (RequestId_eqb i' i) = true).
      { destruct (RequestId_eqb i' i) eqn:E; [|reflexivity].
        apply RequestId_eqb_eq in E. subst i'. destruct Hni.
        cbn [List.map]. rewrite Hi'. now left. }
      apply existsb_exists. exists (i', res). split.
      - apply filter_In. split; [exact Hin | exact Hd].
      - cbn [fst snd]. now rewrite Nat.eqb_refl, Hd. }
    rewrite X. cbn [app].
    destruct (IH (Server.with_mapping t
                    (JsMap.delete RequestId_eqb (Server._sseResponseMapping t) i))
                res
                (history ++ [ResWrite res (sse_frame m); MappingDelete i]))
      as [Etr Emap]; auto.
    + discriminate.
    + now apply NoDup_keys_filter.
    + intros k. cbn [Server.with_mapping Server._sseResponseMapping].
      unfold JsMap.delete, JsMap.entries. rewrite filter_In. cbn [fst]. split.
      * intros [Hin Hk]. apply Hroutes in Hin as [[= ->]|Hin]; [|exact Hin].
        rewrite RequestId_eqb_refl in Hk. discriminate.
      * intros Hin. split; [apply Hroutes; now right|].
        destruct (RequestId_eqb k i) eqn:E; [|reflexivity].
        apply RequestId_eqb_eq in E. subst k. contradiction.
    + cbn zeta in Etr, Emap. rewrite Etr. split.
      * rewrite <- !app_assoc. reflexivity.
      * intros k r. rewrite Emap.
        cbn [Server.with_mapping Server._sseResponseMapping].
        unfold JsMap.delete, JsMap.entries. rewrite filter_In. cbn [fst]. split.
        -- intros [[Hin _] Hr]. auto.
        -- intros [Hin Hr]. repeat split; auto. exact (Hother k r Hin Hr).
Qed.


End BatchReplies.

Section BatchReplyExamples.
  #[local] Existing Instance Demo.platform.

(** The two replies of the example's batch, the later request first. *)
Lemma batch_stream_ends_after_last_reply_witness :
  let t := fst (ServerRun.run DemoRun.generator DemoRun.batch) in
  let replies := [Demo.pong 3; Demo.pong 2] in
  let out := ServerRun.run_from [] t
               (List.map (fun m => ServerRun.Send m None) replies) in
  snd out
  = [] ++ flat_map (fun m => match msg_id m with
                             | Some i => [ResWrite 2 (sse_frame m); MappingDelete i]
                             | None => []
                             end) replies
    ++ [ResEnd 2 None]
  /\ forall k r,
       In (k, r) (JsMap.entries (Server._sseResponseMapping (fst out)))
       <-> In (k, r) (JsMap.entries (Server._sseResponseMapping t)) /\ r <> 2.
Proof.
  apply (@batch_stream_ends_after_last_reply Demo.platform
           [Demo.pong 3; Demo.pong 2]
           (fst (ServerRun.run DemoRun.generator DemoRun.batch)) 2 []).
  - discriminate.
  - repeat constructor.
  - repeat constructor.
  - vm_compute. repeat constructor; cbn; intuition discriminate.
  - vm_compute. repeat constructor; cbn; intuition discriminate.
  - intros k. vm_compute. split.
    + intros [[= <-]|[[= <-]|[]]]; auto.
    + intros [[= <-]|[[= <-]|[]]]; auto.
Defined.


End BatchReplyExamples.

(* ================================================================== *)
(** ** The client's SSE stream handler: what is delivered *)

Section SplitMore.
  Variable sep : jsstring.
  Hypothesis sep_not_empty : sep <> [].

(** A text without the separator is one piece. *)
Lemma split_none s :
  JsString.includes s sep = false -> JsString.split sep s = [s].
Proof.
  induction s as [|c s IH]; [reflexivity|].
  cbn [JsString.includes]. intros H. apply orb_false_iff in H as [H1 H2].
  rewrite (split_no_match sep c s H1), (IH H2). reflexivity.
Qed.

End SplitMore.

Section LineSplit.

Lemma split_line_none s : ~ In LF s -> JsString.split [LF] s = [s].
Proof.
  induction s as [|c s IH]; intros N; [reflexivity|].
  assert (E : JsString.startsWith (c :: s) [LF] = false).
  { cbn. destruct (N.eqb_spec c LF) as [->|]; [|reflexivity].
    destruct N. now left. }
  rewrite (split_no_match [LF] c s E), IH; [reflexivity|].
  intros I. apply N. now right.
Qed.

(** The lines of two texts joined by a line feed. *)
Lemma split_line_app s t :
  JsString.split [LF] (s ++ LF :: t)
  = JsString.split [LF] s ++ JsString.split [LF] t.
Proof.
  assert (NE : [LF] <> []) by discriminate.
  induction s as [|c s IH].
  - cbn [app]. rewrite (split_match [LF] NE (LF :: t)) by reflexivity.
    reflexivity.
  - cbn [app]. destruct (JsString.startsWith (c :: s) [LF]) eqn:E.
    + assert (E' : JsString.startsWith (c :: s ++ LF :: t) [LF] = true).
      { cbn in *. destruct (N.eqb c LF); [reflexivity | discriminate]. }
      rewrite (split_match [LF] NE _ E), (split_match [LF] NE _ E').
      cbn [length skipn app]. now rewrite IH.
    + assert (E' : JsString.startsWith (c :: s ++ LF :: t) [LF] = false).
      { cbn in *. destruct (N.eqb c LF); [discriminate | reflexivity]. }
      rewrite (split_no_match [LF] c _ E'), (split_no_match [LF] c _ E), IH.
      pose proof (split_not_nil [LF] s) as N.
      destruct (JsString.split [LF] s); [congruence | reflexivity].
Qed.

End LineSplit.

Section ClientStreamDelivery.
  Context {P : Platform}.

Lemma handle_event_keeps t e :
  let out := Client.handle_event t e in
  forallb is_callback (snd out) = true
  /\ Client._sessionId (fst out) = Client._sessionId t
  /\ Client._authProvider (fst out) = Client._authProvider t
  /\ Client._activeStreams (fst out) = Client._activeStreams t.
Proof.
  cbn zeta. unfold Client.handle_event.
  destruct (truthy_opt (Client.id (Client.parse_event e)));
    destruct (Client.data (Client.parse_event e)) as [[|c d]|];
    try (repeat split; reflexivity);
    (destruct (_ || _); [|repeat split; reflexivity]);
    (destruct (JSON_parse _); [|repeat split; reflexivity]);
    (destruct (JSONRPCMessageSchema_parse _); repeat split; reflexivity).
Qed.

Lemma handle_events_keeps es : forall t,
  let out := Client.handle_events t es in
  forallb is_callback (snd out) = true
  /\ Client._sessionId (fst out) = Client._sessionId t
  /\ Client._authProvider (fst out) = Client._authProvider t
  /\ Client._activeStreams (fst out) = Client._activeStreams t.
Proof.
  induction es as [|e es IH]; intros t; cbn [Client.handle_events].
  - repeat split.
  - pose proof (handle_event_keeps t e) as (C1 & S1 & A1 & M1). cbn zeta in *.
    destruct (Client.handle_event t e) as [t1 tr1]. cbn [fst snd] in *.
    pose proof (IH t1) as (C2 & S2 & A2 & M2). cbn zeta in *.
    destruct (Client.handle_events t1 es) as [t2 tr2]. cbn [fst snd] in *.
    rewrite forallb_app, C1, C2. repeat split; congruence.
Qed.

(** From the start of a stream, the chunks leave what the events of the
    whole text leave. *)
Lemma read_chunks_events t values :
  let text := snd (Client.decode decoder_new (concat values)) in
  let events := removelast (JsString.split [LF; LF] text) in
  exists r,
    Client.read_chunks {| Client.decoder := decoder_new; Client.buffer := [] |}
      t values
    = (r, fst (Client.handle_events t events),
       snd (Client.handle_events t events)).
Proof.
  cbn zeta. rewrite read_chunks_whole.
  cbn [Client.read_chunks]. unfold Client.read_chunk, Client.pop.
  cbn [Client.decoder Client.buffer app].
  destruct (Client.decode decoder_new (concat values)) as [d text].
  cbn [snd].
  destruct (Client.handle_events t
              (removelast (JsString.split [LF; LF] text))) as [t1 tr].
  cbn [fst snd]. rewrite app_nil_r. eauto.
Qed.

(** What the stream handler does with a stream: the events of the decoded
    text that a blank line ends are handled in order; what follows the last
    blank line is left in the buffer when the stream is done. *)
Theorem stream_delivers_terminated_events t stream sid :
  let text := snd (Client.decode decoder_new (concat (chunks stream))) in
  Client._handleSseStream t (Some stream) sid
  = let (t1, tr) :=
      Client.handle_events t (removelast (JsString.split [LF; LF] text)) in
    (Client.with_streams t1
       (JsMap.delete StreamId_eqb (Client._activeStreams t) sid),
     tr ++ if broken stream then [OnError NetworkError] else []).
Proof.
  cbn zeta. rewrite handleSseStream_reads.
  destruct (read_chunks_events t (chunks stream)) as [r E]. cbn zeta in E.
  rewrite E.
  destruct (Client.handle_events t _) as [t1 tr]. reflexivity.
Qed.

(** A stream whose text holds no blank line delivers nothing: no message,
    no error of the codec, no last event id. *)
Theorem stream_without_blank_line_delivers_nothing t stream sid :
  JsString.includes
    (snd (Client.decode decoder_new (concat (chunks stream)))) [LF; LF]
  = false ->
  Client._handleSseStream t (Some stream) sid
  = (Client.with_streams t
       (JsMap.delete StreamId_eqb (Client._activeStreams t) sid),
     if broken stream then [OnError NetworkError] else []).
Proof.
  intros H. rewrite handleSseStream_reads, read_chunks_whole.
  cbn [Client.read_chunks]. unfold Client.read_chunk, Client.pop.
  cbn [Client.decoder Client.buffer app].
  destruct (Client.decode decoder_new (concat (chunks stream))) as [d text].
  cbn [snd] in H. rewrite (split_none [LF; LF] text H).
  reflexivity.
Qed.

(** Of the "data:" lines of one event the last is kept: a later line
    replaces the data of the earlier ones and leaves the other fields. *)
Theorem later_data_line_replaces_earlier event value :
  ~ In LF value ->
  Client.parse_event (event ++ [LF] ++ js "data:" ++ value)
  = {| Client.id := Client.id (Client.parse_event event);
       Client.eventType := Client.eventType (Client.parse_event event);
       Client.data := Some (JsString.trim value) |}.
Proof.
  intros N. unfold Client.parse_event. cbn [app].
  rewrite split_line_app, fold_left_app.
  rewrite split_line_none.
  - reflexivity.
  - intros [E|[E|[E|[E|[E|I]]]]]; try discriminate. contradiction.
Qed.

End ClientStreamDelivery.

Section ClientStreamDeliveryExamples.
  #[local] Existing Instance Demo.platform.

(** An event the server did not end with a blank line. *)
Lemma stream_without_blank_line_delivers_nothing_witness :
  let stream := {| chunks := [js "data: {}"; [LF]]; broken := false |} in
  Client._handleSseStream (Client.new false) (Some stream) (InitialStream 0)
  = (Client.with_streams (Client.new false)
       (JsMap.delete StreamId_eqb
          (Client._activeStreams (Client.new false)) (InitialStream 0)),
     if broken stream then [OnError NetworkError] else []).
Proof.
  apply (@stream_without_blank_line_delivers_nothing Demo.platform
           (Client.new false)
           {| chunks := [js "data: {}"; [LF]]; broken := false |}
           (InitialStream 0)).
  vm_compute. reflexivity.
Defined.

Lemma later_data_line_replaces_earlier_witness :
  Client.parse_event (js "id: 7" ++ [LF] ++ js "data: a" ++ [LF]
                      ++ js "data:" ++ js " b")
  = {| Client.id :=
         Client.id (Client.parse_event (js "id: 7" ++ [LF] ++ js "data: a"));
       Client.eventType :=
         Client.eventType
           (Client.parse_event (js "id: 7" ++ [LF] ++ js "data: a"));
       Client.data := Some (JsString.trim (js " b")) |}.
Proof.
  apply (later_data_line_replaces_earlier
           (js "id: 7" ++ [LF] ++ js "data: a") (js " b")).
  vm_compute. intros [E|[E|[]]]; discriminate.
Defined.

End ClientStreamDeliveryExamples.

(* ================================================================== *)
(** ** The client's [send]: every outcome *)

Section ClientSendFacts.
  Context {P : Platform}.

Lemma handleSseStream_keeps t stream sid :
  let out := Client._handleSseStream t stream sid in
  forallb is_callback (snd out) = true
  /\ Client._sessionId (fst out) = Client._sessionId t
  /\ Client._authProvider (fst out) = Client._authProvider t.
Proof.
  cbn zeta. destruct stream as [stream|]; [|repeat split].
  rewrite handleSseStream_reads.
  destruct (read_chunks_events t (chunks stream)) as [r E]. cbn zeta in E.
  rewrite E.
  pose proof (handle_events_keeps
                (removelast
                   (JsString.split [LF; LF]
                      (snd (Client.decode decoder_new (concat (chunks stream))))))
                t) as (C & S & A & _).
  cbn zeta in *. destruct (Client.handle_events t _) as [t1 tr].
  cbn [fst snd] in *. rewrite forallb_app, C.
  repeat split; auto. destruct (broken stream); reflexivity.
Qed.


Ltac outcomes H :=
  repeat match type of H with
         | context [match ?x with _ => _ end] => destruct x eqn:?
         end.

(** When [send] throws, [onerror] was called once, with what is thrown,
    as the last thing [send] did; before that no message was delivered and
    no stream was read. *)
Theorem send_failure_reported_once fuel : forall t w message t' w' tr e,
  Client.send fuel t w message = Some (t', w', tr, Throw e) ->
  exists before,
    tr = before ++ [OnError e]
    /\ forallb (fun x => is_fetch x || is_auth_flow x) before = true.
Proof.
  induction fuel as [|fuel IH]; intros t w message t' w' tr e H;
    [discriminate|].
  cbn [Client.send] in H. outcomes H;
    try discriminate;
    try (injection H as <- <- <- <-;
         match goal with
         | |- exists _, ?f :: ?rest = _ /\ _ =>
             exists (removelast (f :: rest)); split; reflexivity
         end).
  injection H as <- <- <- ->.
  match goal with
  | E : Client.send fuel _ _ _ = Some _ |- _ =>
      destruct (IH _ _ _ _ _ _ _ E) as (before & -> & B)
  end.
  eexists (_ :: _ :: before). split; [reflexivity | exact B].
Qed.


(** The answer to a message that holds no request is not read: no message
    is delivered from it and no stream is opened, whatever its body. *)
Theorem answers_without_request_are_not_read fuel : forall t w message t' w' tr r,
  requestIds_of match message with
                | Batch ms => ms
                | Single m => [m]
                end = [] ->
  Client.send fuel t w message = Some (t', w', tr, r) ->
  filter is_onmessage tr = []
  /\ Client._activeStreams t' = Client._activeStreams t
  /\ Client._lastEventId t' = Client._lastEventId t.
Proof.
  induction fuel as [|fuel IH]; intros t w message t' w' tr r Hn H;
    [discriminate|].
  cbn [Client.send] in H. rewrite Hn in H. cbn [length Nat.ltb Nat.leb] in H.
  outcomes H; try discriminate; injection H as <- <- <- <-.
  all: try (repeat match goal with
                   | |- context [if ?b then _ else _] => destruct b
                   end; repeat split; reflexivity).
  all: match goal with
       | IH : forall t, _, E : Client.send _ _ _ _ = Some _ |- _ =>
           destruct (IH _ _ _ _ _ _ _ Hn E) as (M & S & L)
       end;
       cbn [app filter is_onmessage]; rewrite S, L;
       repeat match goal with
              | |- context [if ?b then _ else _] => destruct b
              end; repeat split; auto.
Qed.

(** The session id of an answer is taken over whatever the status of the
    answer: also when [send] throws for it. *)
Theorem session_id_taken_from_any_answer fuel t w message response rest sid :
  fetch_answers w = Some response :: rest ->
  resp_mcp_session_id response = Some sid ->
  sid <> [] ->
  Nat.eqb (status response) 401 && Client._authProvider t = false ->
  exists t' w' tr r,
    Client.send (S fuel) t w message = Some (t', w', tr, r)
    /\ Client._sessionId t' = Some sid.
Proof.
  intros Hf Hs Hne Hno. cbn [Client.send]. unfold Client.next_fetch.
  rewrite Hf, Hs.
  assert (T : truthy_opt (Some sid) = true)
    by (destruct sid; [congruence | reflexivity]).
  rewrite T. cbn [Client._authProvider Client.with_sessionId]. rewrite Hno.
  repeat match goal with
         | |- context [match ?x with _ => _ end] => destruct x eqn:?
         end.
  all: try (do 4 eexists; split; reflexivity).
  all: match goal with
       | E : Client._handleSseStream ?t1 ?s ?i = _ |- _ =>
           pose proof (handleSseStream_keeps t1 s i) as (_ & S & _);
           cbn zeta in S; rewrite E in S
       end;
       do 4 eexists; split; [reflexivity | exact S].
Qed.

End ClientSendFacts.

Section ClientSendExamples.
  #[local] Existing Instance Demo.platform.

(** A POST answered 500. *)
Lemma send_failure_reported_once_witness :
  exists before,
    [Fetch (Client.post_request (Client.new false)
              {| fetch_answers := [Some (answer 500)]; auth_answers := [];
                 access_token := None; now := 0 |}
              (Single (Demo.ping 2)));
     OnError (PostFailedError 500 None)]
    = before ++ [OnError (PostFailedError 500 None)]
    /\ forallb (fun x => is_fetch x || is_auth_flow x) before = true.
Proof.
  apply (@send_failure_reported_once Demo.platform 1 (Client.new false)
           {| fetch_answers := [Some (answer 500)]; auth_answers := [];
              access_token := None; now := 0 |}
           (Single (Demo.ping 2))
           (Client.new false)
           {| fetch_answers := []; auth_answers := [];
              access_token := None; now := 0 |}).
  vm_compute. reflexivity.
Defined.


(** A notification answered 200 with a JSON body. *)
Lemma answers_without_request_are_not_read_witness :
  filter is_onmessage
    [Fetch (Client.post_request (Client.new false)
              {| fetch_answers :=
                   [Some {| status := 200;
                            resp_mcp_session_id := None;
                            resp_content_type := Some (js "application/json");
                            resp_body := None;
                            resp_text := None;
                            resp_json := Some (Demo.to_json (Demo.pong 2)) |}];
                 auth_answers := []; access_token := None; now := 0 |}
              (Single Demo.initialized_notification))]
  = []
  /\ Client._activeStreams (Client.new false)
     = Client._activeStreams (Client.new false)
  /\ Client._lastEventId (Client.new false)
     = Client._lastEventId (Client.new false).
Proof.
  apply (@answers_without_request_are_not_read Demo.platform 1
           (Client.new false)
           {| fetch_answers :=
                [Some {| status := 200;
                         resp_mcp_session_id := None;
                         resp_content_type := Some (js "application/json");
                         resp_body := None;
                         resp_text := None;
                         resp_json := Some (Demo.to_json (Demo.pong 2)) |}];
              auth_answers := []; access_token := None; now := 0 |}
           (Single Demo.initialized_notification)
           (Client.new false)
           {| fetch_answers := []; auth_answers := [];
              access_token := None; now := 0 |}
           _ (Ok tt)).
  - vm_compute. reflexivity.
  - vm_compute. reflexivity.
Defined.

(** A POST answered 404 with another session id. *)
Lemma session_id_taken_from_any_answer_witness :
  let response := {| status := 404;
                     resp_mcp_session_id := Some (js "S2");
                     resp_content_type := None;
                     resp_body := None;
                     resp_text := None;
                     resp_json := None |} in
  let w := {| fetch_answers := [Some response]; auth_answers := [];
              access_token := None; now := 0 |} in
  exists t' w' tr r,
    Client.send 1 (Client.with_sessionId (Client.new true) (Some Demo.S1)) w
      (Single (Demo.ping 2))
    = Some (t', w', tr, r)
    /\ Client._sessionId t' = Some (js "S2").
Proof.
  apply (@session_id_taken_from_any_answer Demo.platform 0
           (Client.with_sessionId (Client.new true) (Some Demo.S1))
           {| fetch_answers :=
                [Some {| status := 404;
                         resp_mcp_session_id := Some (js "S2");
                         resp_content_type := None;
                         resp_body := None;
                         resp_text := None;
                         resp_json := None |}];
              auth_answers := []; access_token := None; now := 0 |}
           (Single (Demo.ping 2))
           {| status := 404;
              resp_mcp_session_id := Some (js "S2");
              resp_content_type := None;
              resp_body := None;
              resp_text := None;
              resp_json := None |}
           [] (js "S2")).
  - reflexivity.
  - reflexivity.
  - discriminate.
  - vm_compute. reflexivity.
Defined.

End ClientSendExamples.

(* ================================================================== *)
(** ** The client transport: [start] and [close] *)

Section ClientLifecycleFacts.
  Context {P : Platform}.

Ltac outcomes :=
  repeat match goal with
         | H : context [match ?x with _ => _ end] |- _ => destruct x eqn:?
         end.

(** [_startOrAuth] leaves the abort controller as it is. *)
Lemma startOrAuth_controller fuel : forall c w c' w' tr r,
  ClientLifecycle._startOrAuth fuel c w = Some (c', w', tr, r) ->
  ClientLifecycle._abortController c' = ClientLifecycle._abortController c.
Proof.
  induction fuel as [|fuel IH]; intros c w c' w' tr r H; [discriminate|].
  cbn [ClientLifecycle._startOrAuth] in H.
  unfold ClientLifecycle._authThenStart in H.
  outcomes; try discriminate;
    repeat match goal with
           | E : Some _ = Some _ |- _ => inversion E; subst; clear E
           end;
    try reflexivity.
  all: match goal with
       | IH : forall c, _,
         E : ClientLifecycle._startOrAuth _ _ _ = Some _ |- _ =>
           exact (IH _ _ _ _ _ _ E)
       end.
Qed.

Lemma start_controller fuel c w c' w' tr r :
  ClientLifecycle.start fuel c w = Some (c', w', tr, r) ->
  r <> ClientLifecycle.Throws ClientLifecycle.ClientAlreadyStartedError ->
  ClientLifecycle._abortController c' = Some false.
Proof.
  unfold ClientLifecycle.start. intros H Hr.
  destruct (Nat.ltb 0 _); [injection H as <- <- <- <-; congruence|].
  destruct (ClientLifecycle._startOrAuth fuel _ w) as [[[[c1 w1] tr1] r1]|] eqn:E;
    [|discriminate].
  injection H as <- <- <- <-.
  exact (startOrAuth_controller _ _ _ _ _ _ _ E).
Qed.

(** What [_startOrAuth] reports when it throws. *)
Lemma startOrAuth_reports fuel : forall c w c' w' tr e,
  ClientLifecycle._startOrAuth fuel c w
  = Some (c', w', tr, ClientLifecycle.Throws e) ->
  let reported := length (filter ClientLifecycle.is_reported tr) in
  let auths := length (filter ClientLifecycle.is_auth tr) in
  (forall a, In a tr -> ClientLifecycle.is_reported a = true ->
             a = ClientLifecycle.Reported e)
  /\ 1 <= reported
  /\ auths <= reported <= 2 + auths
  /\ (forall status, e = ClientLifecycle.OpenFailedError status ->
                     reported = 2 + auths)
  /\ filter ClientLifecycle.is_delivery tr = []
  /\ c' = c.
Proof.
  induction fuel as [|fuel IH]; intros c w c' w' tr e H; [discriminate|].
  cbn [ClientLifecycle._startOrAuth] in H.
  unfold ClientLifecycle._authThenStart, ClientLifecycle.fetch in H.
  outcomes; try discriminate;
    repeat match goal with
           | E : Some _ = Some _ |- _ => inversion E; subst; clear E
           | E : (_, _) = (_, _) |- _ => inversion E; subst; clear E
           end;
    cbn zeta.
  all: try (cbn; repeat split; try lia; try (intros; discriminate);
            intros a I; cbn [In] in I;
            repeat (destruct I as [<-|I]; [try (intros; discriminate); auto|]);
            destruct I; fail).
  (* authorized, and [_startOrAuth] again *)
  all: match goal with
       | IH : forall c, _,
         E : ClientLifecycle._startOrAuth _ _ _ = Some _ |- _ =>
           destruct (IH _ _ _ _ _ _ E) as (A & L1 & [L2 L3] & O & D & ->)
       end;
       cbn zeta in *;
       cbn [filter ClientLifecycle.is_reported ClientLifecycle.is_auth
              ClientLifecycle.is_delivery app];
       rewrite !filter_app; cbn [filter ClientLifecycle.is_reported
                                   ClientLifecycle.is_auth
                                   ClientLifecycle.is_delivery];
       rewrite !length_app; cbn [length]; rewrite D;
       (split; [intros a [<-|[<-|I]]; try (intros; discriminate);
                apply in_app_or in I as [I|[<-|[]]]; auto|]);
       rewrite ?app_nil_r;
       repeat split; try lia; try reflexivity;
       intros status Hs; specialize (O status Hs); lia.
Qed.

(** What [start] reports when it throws after its GET: [onerror] is told
    the error that is thrown and nothing else, at least once, and more than
    once when the status of the answer is refused or when auth flows came
    before; no message is delivered. *)
Theorem start_failure_reported fuel c w c' w' tr e :
  ClientLifecycle.start fuel c w = Some (c', w', tr, ClientLifecycle.Throws e) ->
  e <> ClientLifecycle.ClientAlreadyStartedError ->
  let reported := length (filter ClientLifecycle.is_reported tr) in
  let auths := length (filter ClientLifecycle.is_auth tr) in
  (forall a, In a tr -> ClientLifecycle.is_reported a = true ->
             a = ClientLifecycle.Reported e)
  /\ 1 <= reported
  /\ auths <= reported <= 2 + auths
  /\ (forall status, e = ClientLifecycle.OpenFailedError status ->
                     reported = 2 + auths)
  /\ filter ClientLifecycle.is_delivery tr = [].
Proof.
  unfold ClientLifecycle.start. intros H He.
  destruct (Nat.ltb 0 _); [injection H as <- <- <- <-; congruence|].
  destruct (ClientLifecycle._startOrAuth fuel _ w) as [[[[c1 w1] tr1] r1]|] eqn:E;
    [|discriminate].
  injection H as <- <- <- ->.
  destruct (startOrAuth_reports _ _ _ _ _ _ _ E) as (A & L1 & L2 & O & D & _).
  cbn zeta in *.
  cbn [filter ClientLifecycle.is_reported ClientLifecycle.is_auth
         ClientLifecycle.is_delivery].
  repeat split; auto; try lia.
  intros a [<-|I]; [discriminate | auto].
Qed.

(** After [start], [close] aborts the controller before it asks for the
    DELETE with the signal of that same controller: the DELETE is rejected
    without a request, [onerror] is told, and every later [send] is rejected
    in the same way. *)
Theorem close_after_start_sends_no_delete fuel c w c1 w1 tr1 r t2 w2 :
  ClientLifecycle.start fuel c w = Some (c1, w1, tr1, r) ->
  r <> ClientLifecycle.Throws ClientLifecycle.ClientAlreadyStartedError ->
  truthy_opt (Client._sessionId t2) = true ->
  let c2 := ClientLifecycle.with_transport c1 t2 in
  let closed :=
    {| ClientLifecycle.transport :=
         Client.with_streams t2 (JsMap.empty StreamId BodyStream);
       ClientLifecycle._abortController := Some true |} in
  ClientLifecycle.close c2 w2
  = (closed, w2,
     List.map (fun e => ClientLifecycle.ReaderCancel (fst e))
       (JsMap.entries (Client._activeStreams t2))
     ++ [ ClientLifecycle.StreamsClear;
          ClientLifecycle.Abort;
          ClientLifecycle.FetchCall
            (ClientLifecycle.delete_request
               (ClientLifecycle.transport closed) w2) true;
          ClientLifecycle.Reported ClientLifecycle.AbortError;
          ClientLifecycle.Did OnClose ])
  /\ forall fuel' w3 message,
       ClientLifecycle.send (S fuel') closed w3 message
       = Some (closed, w3,
               [ ClientLifecycle.FetchCall
                   (Client.post_request (ClientLifecycle.transport closed)
                      w3 message) true;
                 ClientLifecycle.Reported ClientLifecycle.AbortError ],
               ClientLifecycle.Throws ClientLifecycle.AbortError).
Proof.
  intros H Hr Hs. pose proof (start_controller _ _ _ _ _ _ _ H Hr) as C.
  cbn zeta. split.
  - unfold ClientLifecycle.close, ClientLifecycle.fetch,
      ClientLifecycle.signal_aborted.
    cbn [ClientLifecycle.transport ClientLifecycle._abortController
           ClientLifecycle.with_transport].
    rewrite C, Hs. cbn [app]. rewrite <- !app_assoc. reflexivity.
  - intros fuel' w3 message. reflexivity.
Qed.

(** [close] never throws and calls [onclose] once, as the last thing it
    does, whatever becomes of the DELETE; it leaves no stream, asks for the
    DELETE only with a session id, and tells [onerror] at most once. *)
Theorem close_ends_with_onclose c w :
  let out := ClientLifecycle.close c w in
  let tr := snd out in
  exists before,
    tr = before ++ [ClientLifecycle.Did OnClose]
    /\ filter ClientLifecycle.is_onclose before = []
    /\ Client._activeStreams (ClientLifecycle.transport (fst (fst out)))
       = JsMap.empty StreamId BodyStream
    /\ length (filter ClientLifecycle.is_fetch_call tr)
       = (if truthy_opt (Client._sessionId (ClientLifecycle.transport c))
          then 1 else 0)
    /\ length (filter ClientLifecycle.is_reported tr) <= 1.
Proof.
  cbn zeta. unfold ClientLifecycle.close.
  set (cancels := List.map (fun e => ClientLifecycle.ReaderCancel (fst e)) _).
  assert (Q : filter ClientLifecycle.is_onclose cancels = []
              /\ filter ClientLifecycle.is_fetch_call cancels = []
              /\ filter ClientLifecycle.is_reported cancels = []).
  { unfold cancels. clear.
    induction (JsMap.entries _) as [|x l IH]; cbn; auto. }
  destruct Q as (Q1 & Q2 & Q3).
  destruct (ClientLifecycle._abortController c);
    (destruct (truthy_opt (Client._sessionId (ClientLifecycle.transport c)));
     [destruct (ClientLifecycle.fetch _ w) as [[response|e] w1];
      [destruct (negb (ok response) && negb (Nat.eqb (status response) 405))|]|]);
    cbn [fst snd]; rewrite <- ?app_assoc; cbn [app];
    match goal with
    | |- exists _, cancels ++ ?l = _ /\ _ => exists (cancels ++ removelast l)
    end;
    cbn [removelast]; rewrite <- ?app_assoc;
    (split; [reflexivity|]);
    rewrite !filter_app, ?Q1, ?Q2, ?Q3; cbn; auto.
Qed.

End ClientLifecycleFacts.

Section ClientLifecycleExamples.
  #[local] Existing Instance Demo.platform.

(** The GET is answered 401, the auth flow authorizes, and the second GET
    is answered 500: [onerror] is told three times. *)
Lemma start_failure_reported_witness :
  let c := {| ClientLifecycle.transport := Client.new true;
              ClientLifecycle._abortController := None |} in
  let w := {| fetch_answers := [Some (answer 401); Some (answer 500)];
              auth_answers := [AuthReturns AUTHORIZED (Some (js "token"))];
              access_token := None; now := 0 |} in
  let tr := match ClientLifecycle.start 2 c w with
            | Some (_, _, tr, _) => tr
            | None => []
            end in
  let e := ClientLifecycle.OpenFailedError 500 in
  let reported := length (filter ClientLifecycle.is_reported tr) in
  let auths := length (filter ClientLifecycle.is_auth tr) in
  (forall a, In a tr -> ClientLifecycle.is_reported a = true ->
             a = ClientLifecycle.Reported e)
  /\ 1 <= reported
  /\ auths <= reported <= 2 + auths
  /\ (forall status, e = ClientLifecycle.OpenFailedError status ->
                     reported = 2 + auths)
  /\ filter ClientLifecycle.is_delivery tr = [].
Proof.
  apply (@start_failure_reported Demo.platform 2
           {| ClientLifecycle.transport := Client.new true;
              ClientLifecycle._abortController := None |}
           {| fetch_answers := [Some (answer 401); Some (answer 500)];
              auth_answers := [AuthReturns AUTHORIZED (Some (js "token"))];
              access_token := None; now := 0 |}
           {| ClientLifecycle.transport := Client.new true;
              ClientLifecycle._abortController := Some false |}
           {| fetch_answers := []; auth_answers := [];
              access_token := Some (js "token"); now := 0 |}).
  - vm_compute. reflexivity.
  - discriminate.
Defined.

(** A server without GET, a session id learned from a POST, and [close]. *)
Lemma close_after_start_sends_no_delete_witness :
  let c1 := {| ClientLifecycle.transport := Client.new false;
               ClientLifecycle._abortController := Some false |} in
  let t2 := Client.with_sessionId (Client.new false) (Some Demo.S1) in
  let w2 := {| fetch_answers := [Some (answer 200)]; auth_answers := [];
               access_token := None; now := 0 |} in
  let c2 := ClientLifecycle.with_transport c1 t2 in
  let closed :=
    {| ClientLifecycle.transport :=
         Client.with_streams t2 (JsMap.empty StreamId BodyStream);
       ClientLifecycle._abortController := Some true |} in
  ClientLifecycle.close c2 w2
  = (closed, w2,
     List.map (fun e => ClientLifecycle.ReaderCancel (fst e))
       (JsMap.entries (Client._activeStreams t2))
     ++ [ ClientLifecycle.StreamsClear;
          ClientLifecycle.Abort;
          ClientLifecycle.FetchCall
            (ClientLifecycle.delete_request
               (ClientLifecycle.transport closed) w2) true;
          ClientLifecycle.Reported ClientLifecycle.AbortError;
          ClientLifecycle.Did OnClose ])
  /\ forall fuel' w3 message,
       ClientLifecycle.send (S fuel') closed w3 message
       = Some (closed, w3,
               [ ClientLifecycle.FetchCall
                   (Client.post_request (ClientLifecycle.transport closed)
                      w3 message) true;
                 ClientLifecycle.Reported ClientLifecycle.AbortError ],
               ClientLifecycle.Throws ClientLifecycle.AbortError).
Proof.
  apply (@close_after_start_sends_no_delete Demo.platform 1
           {| ClientLifecycle.transport := Client.new false;
              ClientLifecycle._abortController := None |}
           {| fetch_answers := [Some (answer 405)]; auth_answers := [];
              access_token := None; now := 0 |}
           {| ClientLifecycle.transport := Client.new false;
              ClientLifecycle._abortController := Some false |}
           {| fetch_answers := []; auth_answers := [];
              access_token := None; now := 0 |}
           [ ClientLifecycle.NewAbortController;
             ClientLifecycle.FetchCall
               (ClientLifecycle.get_request (Client.new false)
                  {| fetch_answers := [Some (answer 405)]; auth_answers := [];
                     access_token := None; now := 0 |}) false ]
           ClientLifecycle.Returns).
  - vm_compute. reflexivity.
  - discriminate.
  - reflexivity.
Defined.

End ClientLifecycleExamples.

(* ================================================================== *)
(** ** The client: capability checks *)

Section CapabilityChecks.

Lemma server_has_le a b field :
  McpClient.server_le (McpClient._serverCapabilities a)
    (McpClient._serverCapabilities b) ->
  (forall x y,
      McpClient._serverCapabilities a = Some x ->
      McpClient._serverCapabilities b = Some y ->
      McpClient.implies (field x) (field y)) ->
  McpClient.server_has a field = true -> McpClient.server_has b field = true.
Proof.
  unfold McpClient.server_has, McpClient.server_le.
  destruct (McpClient._serverCapabilities a) as [x|]; [|discriminate].
  destruct (McpClient._serverCapabilities b) as [y|]; [|contradiction].
  intros _ H. now apply H.
Qed.

(** A check that passes still passes when the server or the client has
    more capabilities: none of the three checks holds a capability against
    a method. *)
Theorem capability_checks_are_monotone a b method :
  McpClient.le a b ->
  (McpClient.assertCapabilityForMethod a method = McpClient.Passes ->
   McpClient.assertCapabilityForMethod b method = McpClient.Passes)
  /\ (McpClient.assertNotificationCapability a method = McpClient.Passes ->
      McpClient.assertNotificationCapability b method = McpClient.Passes)
  /\ (McpClient.assertRequestHandlerCapability a method = McpClient.Passes ->
      McpClient.assertRequestHandlerCapability b method = McpClient.Passes).
Proof.
  intros [Hs [Hc Hr]].
  assert (S : forall field,
             (forall x y,
                 McpClient._serverCapabilities a = Some x ->
                 McpClient._serverCapabilities b = Some y ->
                 McpClient.implies (field x) (field y)) ->
             negb (McpClient.server_has a field) = false ->
             negb (McpClient.server_has b field) = false).
  { intros field H E. apply negb_false_iff in E. apply negb_false_iff.
    exact (server_has_le a b field Hs H E). }
  assert (F : forall x y,
             McpClient._serverCapabilities a = Some x ->
             McpClient._serverCapabilities b = Some y ->
             McpClient.implies (McpClient.logging x) (McpClient.logging y)
             /\ McpClient.implies (McpClient.prompts x) (McpClient.prompts y)
             /\ McpClient.implies (McpClient.has_resources x)
                  (McpClient.has_resources y)
             /\ McpClient.implies (McpClient.has_subscribe x)
                  (McpClient.has_subscribe y)
             /\ McpClient.implies (McpClient.tools x) (McpClient.tools y)
             /\ McpClient.implies (McpClient.completions x)
                  (McpClient.completions y)).
  { intros x y Ex Ey. unfold McpClient.server_le in Hs.
    rewrite Ex, Ey in Hs. exact Hs. }
  split; [|split].
  - unfold McpClient.assertCapabilityForMethod.
    repeat match goal with
           | |- context [if ?b then _ else _] =>
               match b with
               | negb (McpClient.server_has _ _) => fail 1
               | _ && negb (McpClient.server_has _ _) => fail 1
               | _ => destruct b eqn:?
               end
           end; try reflexivity.
    + destruct (negb (McpClient.server_has a McpClient.logging)) eqn:E;
        [discriminate|].
      rewrite (S _ (fun x y Ex Ey => proj1 (F x y Ex Ey)) E). reflexivity.
    + destruct (negb (McpClient.server_has a McpClient.prompts)) eqn:E;
        [discriminate|].
      rewrite (S _ (fun x y Ex Ey => proj1 (proj2 (F x y Ex Ey))) E).
      reflexivity.
    + destruct (negb (McpClient.server_has a McpClient.has_resources)) eqn:E;
        [discriminate|].
      rewrite (S _ (fun x y Ex Ey => proj1 (proj2 (proj2 (F x y Ex Ey)))) E).
      destruct (McpClient.matches method "resources/subscribe"); cbn [andb];
        [|reflexivity].
      destruct (negb (McpClient.server_has a McpClient.has_subscribe)) eqn:E';
        [discriminate|].
      rewrite (S _ (fun x y Ex Ey =>
                      proj1 (proj2 (proj2 (proj2 (F x y Ex Ey))))) E').
      reflexivity.
    + destruct (negb (McpClient.server_has a McpClient.tools)) eqn:E;
        [discriminate|].
      rewrite (S _ (fun x y Ex Ey =>
                      proj1 (proj2 (proj2 (proj2 (proj2 (F x y Ex Ey)))))) E).
      reflexivity.
    + destruct (negb (McpClient.server_has a McpClient.completions)) eqn:E;
        [discriminate|].
      rewrite (S _ (fun x y Ex Ey =>
                      proj2 (proj2 (proj2 (proj2 (proj2 (F x y Ex Ey)))))) E).
      reflexivity.
  - unfold McpClient.assertNotificationCapability.
    destruct (McpClient.matches method "notifications/roots/list_changed");
      [|intros _; repeat match goal with
                         | |- context [if ?b then _ else _] => destruct b
                         end; reflexivity].
    destruct (McpClient.roots (McpClient._capabilities a)) as [x|];
      [|discriminate].
    destruct (McpClient.roots (McpClient._capabilities b)) as [y|];
      [|contradiction].
    destruct (McpClient.listChanged x); [|discriminate].
    now rewrite (Hr eq_refl).
  - unfold McpClient.assertRequestHandlerCapability.
    destruct (McpClient.matches method "sampling/createMessage").
    + destruct (McpClient.sampling (McpClient._capabilities a)) eqn:E;
        [|discriminate].
      now rewrite (Hc eq_refl).
    + destruct (McpClient.matches method "roots/list");
        [|intros _; destruct (McpClient.matches method "ping"); reflexivity].
      destruct (McpClient.roots (McpClient._capabilities a)) as [x|];
        [|discriminate].
      destruct (McpClient.roots (McpClient._capabilities b)) as [y|];
        [reflexivity | contradiction].
Qed.

Lemma matches_spec method name :
  McpClient.matches method name = true <-> method = js name.
Proof. apply JsString_eqb_eq. Qed.

(** Until [connect] has the capabilities of the server, a request is
    refused exactly when its method is one of those bound to a capability:
    initialize and ping are let through, and so is every method the check
    does not know. *)
Theorem requests_before_capabilities_known c method :
  McpClient._serverCapabilities c = None ->
  McpClient.assertCapabilityForMethod c method <> McpClient.Passes
  <-> In method (List.map js McpClient.bound_methods).
Proof.
  intros Hn. unfold McpClient.assertCapabilityForMethod, McpClient.server_has.
  rewrite Hn. cbn [negb andb].
  unfold McpClient.bound_methods. cbn [List.map In].
  repeat match goal with
         | |- context [McpClient.matches method ?n] =>
             let E := fresh "E" in
             destruct (McpClient.matches method n) eqn:E;
             [apply matches_spec in E | ]
         end;
    cbn [orb andb];
    try (split; [intros _; subst method; tauto | discriminate]).
  all: split; [congruence|].
  all: intros H;
    repeat match goal with
           | E : McpClient.matches _ ?n = false |- _ =>
               apply not_true_iff_false in E;
               rewrite matches_spec in E
           end;
    repeat (destruct H as [H|H]; [symmetry in H; contradiction|]);
    destruct H.
Qed.

End CapabilityChecks.

Section CapabilityCheckExamples.

(** A server with tools, and the same with resources as well. *)
Lemma capability_checks_are_monotone_witness :
  let caps := {| McpClient.roots := None; McpClient.sampling := false |} in
  let a := {| McpClient._serverCapabilities :=
                Some {| McpClient.logging := false;
                        McpClient.prompts := false;
                        McpClient.resources := None;
                        McpClient.tools := true;
                        McpClient.completions := false |};
              McpClient._capabilities := caps |} in
  let b := {| McpClient._serverCapabilities :=
                Some {| McpClient.logging := false;
                        McpClient.prompts := false;
                        McpClient.resources :=
                          Some {| McpClient.subscribe := false |};
                        McpClient.tools := true;
                        McpClient.completions := false |};
              McpClient._capabilities := caps |} in
  let method := js "tools/call" in
  (McpClient.assertCapabilityForMethod a method = McpClient.Passes ->
   McpClient.assertCapabilityForMethod b method = McpClient.Passes)
  /\ (McpClient.assertNotificationCapability a method = McpClient.Passes ->
      McpClient.assertNotificationCapability b method = McpClient.Passes)
  /\ (McpClient.assertRequestHandlerCapability a method = McpClient.Passes ->
      McpClient.assertRequestHandlerCapability b method = McpClient.Passes).
Proof.
  apply capability_checks_are_monotone.
  vm_compute. repeat split; auto; discriminate.
Defined.

Lemma requests_before_capabilities_known_witness :
  let c := {| McpClient._serverCapabilities := None;
              McpClient._capabilities :=
                {| McpClient.roots := None; McpClient.sampling := false |} |} in
  McpClient.assertCapabilityForMethod c (js "tools/list") <> McpClient.Passes
  <-> In (js "tools/list") (List.map js McpClient.bound_methods).
Proof.
  apply requests_before_capabilities_known. reflexivity.
Defined.

End CapabilityCheckExamples.

(* ================================================================== *)
(** ** The server transport: an id routed twice *)

Section ReusedIds.
  Context {P : Platform}.

Lemma requestIds_have_request msgs i :
  In i (requestIds_of msgs) -> existsb isRequest msgs = true.
Proof.
  induction msgs as [|m msgs IH]; cbn [requestIds_of existsb]; [intros []|].
  destruct (isRequest m); [reflexivity|]. cbn [orb]. exact IH.
Qed.

Lemma store_requests_other m res msgs k :
  ~ In k (requestIds_of msgs) ->
  JsMap.get RequestId_eqb (fst (Server.store_requests m res msgs)) k
  = JsMap.get RequestId_eqb m k.
Proof.
  revert m; induction msgs as [|msg msgs IH]; intros m N;
    cbn [Server.store_requests requestIds_of] in *; [reflexivity|].
  destruct (if isRequest msg then msg_id msg else None) as [j|]; [|now apply IH].
  specialize (IH (JsMap.set RequestId_eqb m j res)).
  destruct (Server.store_requests _ res msgs) as [m' tr]. cbn [fst] in *.
  rewrite IH by (intros I; apply N; now right).
  apply get_set_other. intros ->. apply N. now left.
Qed.

Lemma post_requests_open_stream t req res parsedBody raw msgs :
  Server.acceptable req = true ->
  Server.rawMessage req parsedBody = Ok raw ->
  parse_messages raw = Ok msgs ->
  existsb Server.isInitialize msgs = false ->
  fst (Server.validateSession t req res) = true ->
  existsb isRequest msgs = true ->
  Server.handlePostRequest t req res parsedBody
  = (Server.with_mapping t
       (fst (Server.store_requests (Server._sseResponseMapping t) res msgs)),
     [ResWriteHead res 200 (Server.sse_headers t)]
     ++ List.map (fun i => MappingSet i res) (requestIds_of msgs)
     ++ [ResOnClose res] ++ List.map OnMessage msgs).
Proof.
  intros Hacc Hraw Hparse Hinit Hvalid Hreq.
  unfold Server.handlePostRequest.
  destruct (acceptable_passes req Hacc) as [-> ->].
  rewrite Hraw, Hparse, Hinit, (validateSession_true t req res Hvalid), Hreq,
    (request_in_batch_not_only_notifications msgs Hreq).
  cbn [negb app].
  pose proof (store_requests_trace (Server._sseResponseMapping t) res msgs) as T.
  destruct (Server.store_requests _ res msgs) as [m' tr]. cbn [fst snd] in *.
  now rewrite T.
Qed.

(** A POST with a request whose id is routed already takes the route over:
    the id leads to the new response, and the response it led to is not
    ended and keeps only the routes of the ids the POST does not hold. *)
Theorem reused_request_id_takes_the_route t req res parsedBody raw msgs i old :
  Server.acceptable req = true ->
  Server.rawMessage req parsedBody = Ok raw ->
  parse_messages raw = Ok msgs ->
  existsb Server.isInitialize msgs = false ->
  fst (Server.validateSession t req res) = true ->
  In i (requestIds_of msgs) ->
  JsMap.get RequestId_eqb (Server._sseResponseMapping t) i = Some old ->
  old <> res ->
  let out := Server.handlePostRequest t req res parsedBody in
  JsMap.get RequestId_eqb (Server._sseResponseMapping (fst out)) i = Some res
  /\ ~ In old (ServerRun.ends (snd out))
  /\ forall k,
       JsMap.get RequestId_eqb (Server._sseResponseMapping (fst out)) k
       = Some old ->
       ~ In k (requestIds_of msgs)
       /\ JsMap.get RequestId_eqb (Server._sseResponseMapping t) k = Some old.
Proof.
  intros Hacc Hraw Hparse Hinit Hvalid Hi Hold Hne. cbn zeta.
  rewrite (post_requests_open_stream t req res parsedBody raw msgs Hacc Hraw
             Hparse Hinit Hvalid (requestIds_have_request msgs i Hi)).
  cbn [fst snd Server.with_mapping Server._sseResponseMapping].
  split; [now apply store_requests_routes|]. split.
  - destruct (heads_of_stream t res msgs) as (_ & E & _). cbn zeta in E.
    rewrite E. intros [].
  - intros k G.
    assert (N : ~ In k (requestIds_of msgs)).
    { intros I.
      rewrite (store_requests_routes (Server._sseResponseMapping t) res msgs k I)
        in G. congruence. }
    split; [exact N|]. now rewrite store_requests_other in G.
Qed.

End ReusedIds.

Section ReusedIdExamples.
  #[local] Existing Instance Demo.platform.

(** The request 2 is pending on response 7 when it is posted again. *)
Lemma reused_request_id_takes_the_route_witness :
  let t := Demo.stateful [(IdNumber 2, 7)] in
  let req := Demo.post (HeaderSingle Demo.S1)
               (Some (Demo.print (Demo.to_json (Demo.ping 2)))) in
  let out := Server.handlePostRequest t req 8 None in
  JsMap.get RequestId_eqb (Server._sseResponseMapping (fst out)) (IdNumber 2)
  = Some 8
  /\ ~ In 7 (ServerRun.ends (snd out))
  /\ forall k,
       JsMap.get RequestId_eqb (Server._sseResponseMapping (fst out)) k
       = Some 7 ->
       ~ In k (requestIds_of [Demo.ping 2])
       /\ JsMap.get RequestId_eqb (Server._sseResponseMapping t) k = Some 7.
Proof.
  apply (@reused_request_id_takes_the_route Demo.platform
           (Demo.stateful [(IdNumber 2, 7)])
           (Demo.post (HeaderSingle Demo.S1)
              (Some (Demo.print (Demo.to_json (Demo.ping 2)))))
           8 None (Demo.to_json (Demo.ping 2)) [Demo.ping 2] (IdNumber 2) 7);
    try (vm_compute; reflexivity).
  - left. reflexivity.
  - discriminate.
Defined.

End ReusedIdExamples.

(* ================================================================== *)
(** ** The server transport: requests it refuses *)

Section RefusedRequests.
  Context {P : Platform}.

Lemma statuses_ends res (rs : list Res) :
  statuses res (List.map (fun response => ResEnd response None) rs) = [].
Proof. induction rs; cbn; auto. Qed.

Ltac settle :=
  cbn [fst snd app negb statuses filter is_onmessage ServerRun.ends
         ServerRun.writes Server.answer_error Server.parse_error
         Server.handleUnsupportedRequest];
  rewrite ?Nat.eqb_refl; cbn [app In];
  intros [<-|[]] L; first [lia | repeat split; reflexivity].

(** A request answered with an error status changes nothing: the
    transport is as before, no message of the request is delivered, no
    stream is written to, and the one response ended is its own. *)
Theorem refused_request_changes_nothing t req res parsedBody status :
  let out := Server.handleRequest t req res parsedBody in
  In status (statuses res (snd out)) ->
  400 <= status ->
  fst out = t
  /\ filter is_onmessage (snd out) = []
  /\ ServerRun.ends (snd out) = [res]
  /\ ServerRun.writes (snd out) = [].
Proof.
  cbn zeta. unfold Server.handleRequest.
  destruct (JsString.eqb (req_method req) (js "POST")).
  - unfold Server.handlePostRequest.
    destruct (negb (Server.accepts req "application/json")
              || negb (Server.accepts req "text/event-stream")); [settle|].
    destruct (negb (Server.is_json_content req)); [settle|].
    destruct (Server.rawMessage req parsedBody) as [raw|e]; [|settle].
    destruct (parse_messages raw) as [msgs|e]; [|settle].
    destruct (existsb Server.isInitialize msgs).
    { destruct (Server._initialized t); [settle|].
      destruct (Nat.ltb 1 (length msgs)); [settle|].
      cbn [fst snd]. rewrite statuses_app, statuses_deliveries.
      cbn [statuses app]. rewrite Nat.eqb_refl. cbn [app In].
      intros [<-|[]] L. lia. }
    unfold Server.validateSession.
    destruct (negb (Server._initialized t)); [settle|].
    assert (Passed :
              In status
                (statuses res
                   (snd (if forallb Server.isNotificationOrResponse msgs
                         then
                           (t, [] ++ [ResWriteHead res 202 []; ResEnd res None]
                               ++ List.map OnMessage msgs)
                         else if existsb isRequest msgs
                           then
                             let (mapping, stored) :=
                               Server.store_requests
                                 (Server._sseResponseMapping t) res msgs in
                             (Server.with_mapping t mapping,
                              [] ++ [ResWriteHead res 200 (Server.sse_headers t)]
                              ++ stored ++ [ResOnClose res]
                              ++ List.map OnMessage msgs)
                           else (t, [])))) ->
              400 <= status -> False).
    { destruct (forallb Server.isNotificationOrResponse msgs).
      - cbn [snd app statuses]. rewrite Nat.eqb_refl, statuses_deliveries.
        cbn [app In]. intros [<-|[]] L. lia.
      - destruct (existsb isRequest msgs); [|intros []].
        pose proof (store_requests_trace (Server._sseResponseMapping t) res msgs)
          as T.
        destruct (Server.store_requests _ res msgs) as [mapping stored].
        cbn [fst snd] in *. subst stored.
        cbn [app statuses]. rewrite Nat.eqb_refl.
        rewrite statuses_app, statuses_sets. cbn [app statuses].
        rewrite statuses_deliveries. cbn [app In]. intros [<-|[]] L. lia. }
    destruct (Server.sessionId t) as [sid|];
      [|cbn [negb]; intros I L; destruct (Passed I L)].
    destruct (req_mcp_session_id req) as [|[|c v]|vs]; try settle.
    destruct (negb (JsString.eqb (c :: v) sid)); [settle|].
    cbn [negb]. intros I L. destruct (Passed I L).
  - destruct (JsString.eqb (req_method req) (js "DELETE")); [|settle].
    unfold Server.handleDeleteRequest, Server.validateSession.
    assert (Passed :
              In status
                (statuses res
                   (snd (let (t', closed) := Server.close t in
                         (t', [] ++ closed
                              ++ [ResWriteHead res 200 []; ResEnd res None])))) ->
              400 <= status -> False).
    { cbn [Server.close snd app]. rewrite !statuses_app, statuses_ends.
      cbn [app statuses]. rewrite Nat.eqb_refl. cbn [app In].
      intros [<-|[]] L. lia. }
    destruct (negb (Server._initialized t)); [settle|].
    destruct (Server.sessionId t) as [sid|];
      [|cbn [negb]; intros I L; destruct (Passed I L)].
    destruct (req_mcp_session_id req) as [|[|c v]|vs]; try settle.
    destruct (negb (JsString.eqb (c :: v) sid)); [settle|].
    cbn [negb]. intros I L. destruct (Passed I L).
Qed.

End RefusedRequests.

Section RefusedRequestExamples.
  #[local] Existing Instance Demo.platform.

(** A POST with the session id of another session. *)
Lemma refused_request_changes_nothing_witness :
  let t := Demo.stateful [(IdNumber 2, 7)] in
  let req := Demo.post (HeaderSingle (js "S2"))
               (Some (Demo.print (Demo.to_json (Demo.ping 3)))) in
  let out := Server.handleRequest t req 8 None in
  fst out = t
  /\ filter is_onmessage (snd out) = []
  /\ ServerRun.ends (snd out) = [8]
  /\ ServerRun.writes (snd out) = [].
Proof.
  apply (@refused_request_changes_nothing Demo.platform
           (Demo.stateful [(IdNumber 2, 7)])
           (Demo.post (HeaderSingle (js "S2"))
              (Some (Demo.print (Demo.to_json (Demo.ping 3)))))
           8 None 404).
  - vm_compute. left. reflexivity.
  - lia.
Defined.

End RefusedRequestExamples.
